(** * mensural_to_mei: the symbol-stream to MEI / Humdrum transducer

    A shallow embedding of
    [mensural_to_mei/convert_detections/convert_to_mei_and_humdrum.py]
    and of the two helpers of [mensural_to_mei/utils.py] it calls
    ([generate_random_numbers], [convert_to_combined_list_with_metadata]).

    Python values are modelled as follows:
    - a symbol dictionary [{'type': t, 'pitch': p}] is a record of two strings;
    - a Python [dict] literal used as a lookup table is an association list;
    - [int] is [Z];
    - a local variable that can be read before it was ever assigned is an
      [option] whose [None] means "unbound";
    - exceptions are the [Raise] branch of [result];
    - lxml elements are trees; the references the converter keeps into the
      tree ([mensur], [xml_lig], [note]) are positions in the current layer,
      tagged with the serial number of the document they belong to. *)

From Stdlib Require Import String Ascii List ZArith Lia Bool Arith.
From Stdlib Require Import DecimalString DecimalNat DecimalZ.
Import ListNotations.

Local Open Scope string_scope.
Local Open Scope list_scope.
Local Set Warnings "-register-all".
Local Set Warnings "-abstract-large-number".

(** ** Exceptions and the error monad *)

Inductive pykey : Type :=
| KStr (s : string)
| KInt (z : Z).

Inductive exception : Type :=
| UnboundLocalError (name : string)
| KeyError (key : pykey)
| IndexError
| SystemExit (msg : string).

Inductive result (A : Type) : Type :=
| Ok (a : A)
| Raise (e : exception).

Arguments Ok {A} a.
Arguments Raise {A} e.

Definition bind {A B : Type} (r : result A) (k : A -> result B) : result B :=
  match r with
  | Ok a => k a
  | Raise e => Raise e
  end.

Notation "x <- c ;; k" := (bind c (fun x => k))
  (at level 61, c at next level, right associativity).
Notation "' pat <- c ;; k" := (bind c (fun x => match x with pat => k end))
  (at level 61, pat pattern, c at next level, right associativity).

(** Reading a local variable: [UnboundLocalError] when it was never assigned. *)
Definition local {A : Type} (name : string) (v : option A) : result A :=
  match v with
  | Some a => Ok a
  | None => Raise (UnboundLocalError name)
  end.

(** ** Python string and list primitives *)

(** [d[k]] on a dictionary with string keys. *)
Fixpoint lookup {V : Type} (k : string) (d : list (string * V)) : option V :=
  match d with
  | [] => None
  | (k', v) :: rest => if k =? k' then Some v else lookup k rest
  end.

Definition getitem {V : Type} (d : list (string * V)) (k : string) : result V :=
  match lookup k d with
  | Some v => Ok v
  | None => Raise (KeyError (KStr k))
  end.

(** [k in d.keys()] *)
Definition has_key {V : Type} (k : string) (d : list (string * V)) : bool :=
  match lookup k d with
  | Some _ => true
  | None => false
  end.

(** [d[k]] on a dictionary with integer keys. *)
Fixpoint lookupZ {V : Type} (k : Z) (d : list (Z * V)) : option V :=
  match d with
  | [] => None
  | (k', v) :: rest => if (k =? k')%Z then Some v else lookupZ k rest
  end.

Definition getitemZ {V : Type} (d : list (Z * V)) (k : Z) : result V :=
  match lookupZ k d with
  | Some v => Ok v
  | None => Raise (KeyError (KInt k))
  end.

(** [l[i]] on a list, for a non-negative index. *)
Definition item {A : Type} (l : list A) (i : nat) : result A :=
  match nth_error l i with
  | Some a => Ok a
  | None => Raise IndexError
  end.

(** [c.upper()] on one character, and [s.upper()]. *)
Definition upper_ascii (c : ascii) : ascii :=
  let n := nat_of_ascii c in
  if (97 <=? n)%nat && (n <=? 122)%nat then ascii_of_nat (n - 32) else c.

Fixpoint upper (s : string) : string :=
  match s with
  | EmptyString => EmptyString
  | String c rest => String (upper_ascii c) (upper rest)
  end.

(** [str(n)] for an [int]. *)
Definition str (z : Z) : string := NilZero.string_of_int (Z.to_int z).

(** [s.zfill(w)] for a string without a sign. *)
Fixpoint zeros (n : nat) : string :=
  match n with
  | O => ""
  | S m => String "0" (zeros m)
  end.

Definition zfill (w : nat) (s : string) : string :=
  zeros (w - String.length s) ++ s.

(** [s[:-n]] *)
Definition drop_last (n : nat) (s : string) : string :=
  substring 0 (String.length s - n) s.

(** [sub in s] *)
Definition contains (sub s : string) : bool :=
  match String.index 0 sub s with
  | Some _ => true
  | None => false
  end.

(** ['\n'.join(lines)] *)
Definition join_lines (lines : list string) : string :=
  String.concat (String "010" EmptyString) lines.

(** [l[-1]] and [l[-1] = v] on a list. *)
Definition last_item {A : Type} (l : list A) : result A :=
  match rev l with
  | x :: _ => Ok x
  | [] => Raise IndexError
  end.

Definition set_last {A : Type} (v : A) (l : list A) : result (list A) :=
  match rev l with
  | _ :: r => Ok (rev r ++ [v])
  | [] => Raise IndexError
  end.

(** ** Symbols *)

Record symbol : Type := mkSymbol { s_type : string; s_pitch : string }.

Definition symbol_eqb (a b : symbol) : bool :=
  (s_type a =? s_type b) && (s_pitch a =? s_pitch b).

Definition staff : Type := list symbol.

(** ** Lexicon tables *)

Definition RESTS_MEI : list (string * string) :=
  [ ("r-lo", "longa"); ("r-br", "brevis"); ("r-sb", "semibrevis");
    ("r-mi", "minima"); ("r-sm", "semiminima"); ("r-fu", "fusa");
    ("r-se", "semifusa") ].

Definition NOTES_MEI : list (string * string) :=
  [ ("ma", "maxima"); ("lo", "longa"); ("bre", "brevis");
    ("sebre", "semibrevis"); ("mi", "minima"); ("sm", "semiminima");
    ("fu", "fusa"); ("sf", "semifusa"); ("br", "brevis");
    ("sb", "semibrevis"); ("li", "semibrevis") ].

Definition NOTES_HUMDRUM : list (string * string) :=
  [ ("ma", "X"); ("lo", "L"); ("bre", "S"); ("sebre", "s"); ("mi", "M");
    ("sm", "m"); ("fu", "U"); ("sf", "u"); ("br", "S~"); ("sb", "s~");
    ("li", "[s") ].

Definition RESTS_HUMDRUM : list (string * string) :=
  [ ("r-lo", "Lr"); ("r-br", "Sr"); ("r-sb", "sr"); ("r-mi", "Mr");
    ("r-sm", "mr"); ("r-fu", "Ur"); ("r-se", "ur") ].

Definition CLEFS_HUMDRUM : list (string * string) :=
  [ ("c-c-g", "*clefC2"); ("c-c-e", "*clefC1"); ("c-c-b", "*clefC3");
    ("c-c-d", "*clefC4"); ("c-g", "*clefG2"); ("c-f-b", "*clefF3");
    ("c-f", "*clefF4") ].

Definition MENSURAL_NOTE_STEPS : list (string * Z) :=
  [ ("c0", 0); ("d0", 1); ("e0", 2); ("f0", 3); ("g0", 4); ("a0", 5);
    ("b0", 6); ("c1", 7); ("d1", 8); ("e1", 9); ("f1", 10); ("g1", 11);
    ("a1", 12); ("b1", 13); ("c2", 14); ("d2", 15); ("e2", 16); ("f2", 17);
    ("g2", 18); ("a2", 19); ("b2", 20) ]%Z.

Definition RELATIVE_NOTE_STEPS : list (Z * string) :=
  [ (-14, "c"); (-13, "d"); (-12, "e"); (-11, "f"); (-10, "g"); (-9, "a");
    (-8, "b"); (-7, "c"); (-6, "d"); (-5, "e"); (-4, "f"); (-3, "g");
    (-2, "a"); (-1, "b"); (0, "c"); (1, "d"); (2, "e"); (3, "f"); (4, "g");
    (5, "a"); (6, "b"); (7, "c"); (8, "d"); (9, "e"); (10, "f"); (11, "g");
    (12, "a"); (13, "b") ]%Z.

(** ** Clef, mensuration and pitch analysis *)

(** [analyse_clef]: [shape] and [line] stay unbound for an unknown code, and
    the [return] then raises. *)
Definition analyse_clef (clef : symbol) : result (string * string) :=
  let p := s_pitch clef in
  let sl :=
    if p =? "c-g" then Some ("G", "2")
    else if p =? "c-c-e" then Some ("C", "1")
    else if p =? "c-c-g" then Some ("C", "2")
    else if p =? "c-c-b" then Some ("C", "3")
    else if p =? "c-c-d" then Some ("C", "4")
    else if p =? "c-f-b" then Some ("F", "3")
    else if p =? "c-f" then Some ("F", "4")
    else None in
  local "shape" sl.

Definition analyse_mensuration (sym : symbol) : result (string * string) :=
  let p := s_pitch sym in
  let ss :=
    if p =? "met_c" then Some ("C", "")
    else if p =? "al-br" then Some ("C", "1")
    else if p =? "met_o_cut" then Some ("O", "1")
    else None in
  local "sign" ss.

(** The [if]/[elif] chain of [analyse_note] that binds [clefline]; the
    outer [option] is [None] when no branch was taken. *)
Definition clefline_of (c : string) : result (option Z) :=
  if c =? "c-c-g" then v <- getitem MENSURAL_NOTE_STEPS "g1" ;; Ok (Some v)
  else if c =? "c-c-e" then v <- getitem MENSURAL_NOTE_STEPS "e1" ;; Ok (Some v)
  else if c =? "c-c-b" then v <- getitem MENSURAL_NOTE_STEPS "b1" ;; Ok (Some v)
  else if c =? "c-c-d" then v <- getitem MENSURAL_NOTE_STEPS "d2" ;; Ok (Some v)
  else if c =? "c-g" then v <- getitem MENSURAL_NOTE_STEPS "c1" ;; Ok (Some v)
  else if c =? "c-f-b" then v <- getitem MENSURAL_NOTE_STEPS "f2" ;; Ok (Some v)
  else if c =? "c-f" then v <- getitem MENSURAL_NOTE_STEPS "a2" ;; Ok (Some v)
  else Ok None.

Definition analyse_note (clef : symbol) (pitch : string) : result (Z * string) :=
  let c := s_pitch clef in
  let octave := 4%Z in
  clefline <- clefline_of c ;;
  pitchline <- getitem MENSURAL_NOTE_STEPS pitch ;;
  clefline <- local "clefline" clefline ;;
  let rel_pitch := (pitchline - clefline)%Z in
  if ((-7 <=? rel_pitch) && (rel_pitch <? 0))%Z then
    relative_pitch <- getitemZ RELATIVE_NOTE_STEPS (7 + rel_pitch)%Z ;;
    Ok ((octave - 1)%Z, relative_pitch)
  else if (rel_pitch >? 6)%Z then
    relative_pitch <- getitemZ RELATIVE_NOTE_STEPS rel_pitch ;;
    Ok ((octave + 1)%Z, relative_pitch)
  else if ((-14 <=? rel_pitch) && (rel_pitch <? -7))%Z then
    relative_pitch <- getitemZ RELATIVE_NOTE_STEPS (7 + rel_pitch)%Z ;;
    Ok ((octave - 2)%Z, relative_pitch)
  else
    relative_pitch <- getitemZ RELATIVE_NOTE_STEPS rel_pitch ;;
    Ok (octave, relative_pitch).

(** [get_humdrum_pitch]: register encoded by case and doubling. *)
Definition get_humdrum_pitch (oct : Z) (pname line : string) : string :=
  if (oct =? 2)%Z then line ++ upper pname ++ upper pname
  else if (oct =? 3)%Z then line ++ upper pname
  else if (oct =? 4)%Z then line ++ pname
  else if (oct =? 5)%Z then line ++ pname ++ pname
  else line.

(** ** XML trees and documents *)

Inductive element : Type :=
| Elem (tag : string) (attrib : list (string * string)) (children : list element)
| Text (s : string).

Definition XML_ID : string := "{http://www.w3.org/XML/1998/namespace}id".
Definition VERSION : string := "1.0.0".

(** [e.set(k, v)]: replaces the value of an existing attribute in place,
    appends a new one otherwise. *)
Fixpoint set_attr (k v : string) (a : list (string * string)) : list (string * string) :=
  match a with
  | [] => [(k, v)]
  | (k', v') :: rest =>
      if k =? k' then (k, v) :: rest else (k', v') :: set_attr k v rest
  end.

Definition elem_set (k v : string) (e : element) : element :=
  match e with
  | Elem tag a ch => Elem tag (set_attr k v a) ch
  | Text s => Text s
  end.

Definition elem_append (child : element) (e : element) : element :=
  match e with
  | Elem tag a ch => Elem tag a (ch ++ [child])
  | Text s => Text s
  end.

Definition elem_tag (e : element) : string :=
  match e with
  | Elem tag _ _ => tag
  | Text _ => ""
  end.

Definition elem_attrib (e : element) : list (string * string) :=
  match e with
  | Elem _ a _ => a
  | Text _ => []
  end.

Definition elem_children (e : element) : list element :=
  match e with
  | Elem _ _ ch => ch
  | Text _ => []
  end.

(** Applying a mutation to the element at position [i] of a child list, and
    to its last element. Positions out of range leave the list alone. *)
Fixpoint edit_nth (i : nat) (f : element -> element) (l : list element) : list element :=
  match l, i with
  | [], _ => []
  | e :: rest, O => f e :: rest
  | e :: rest, S j => e :: edit_nth j f rest
  end.

Definition edit_last (f : element -> element) (l : list element) : list element :=
  edit_nth (List.length l - 1) f l.

(** One output document: the [mei] tree that [create_meihead] and
    [create_mei_declarations] build. The scaffold is fixed once created, so
    only its identifiers are stored; [xml_clef], [xml_keySign] and
    [xml_layer] are the three elements the converter keeps mutating. *)
#[projections(primitive)]
Record document : Type := mkDocument {
  d_head : element;
  d_mdiv : string;
  d_score : string;
  d_scoreDef : string;
  d_staffGrp : string;
  d_staffDef : string;
  d_section : string;
  d_staff : string;
  d_layer : string;
  xml_clef : list (string * string);
  xml_keySign : list (string * string);
  xml_layer : list element
}.

Definition set_xml_clef (v : list (string * string)) (d : document) : document :=
  mkDocument (d_head d) (d_mdiv d) (d_score d) (d_scoreDef d) (d_staffGrp d)
    (d_staffDef d) (d_section d) (d_staff d) (d_layer d) v (xml_keySign d)
    (xml_layer d).

Definition set_xml_keySign (v : list (string * string)) (d : document) : document :=
  mkDocument (d_head d) (d_mdiv d) (d_score d) (d_scoreDef d) (d_staffGrp d)
    (d_staffDef d) (d_section d) (d_staff d) (d_layer d) (xml_clef d) v
    (xml_layer d).

Definition set_xml_layer (v : list element) (d : document) : document :=
  mkDocument (d_head d) (d_mdiv d) (d_score d) (d_scoreDef d) (d_staffGrp d)
    (d_staffDef d) (d_section d) (d_staff d) (d_layer d) (xml_clef d)
    (xml_keySign d) v.


(** [create_meihead]; [now] is what [datetime.now().isoformat()] returns. *)
Definition create_meihead (now : string) : element :=
  Elem "meiHead" []
    [ Elem "fileDesc" []
        [ Elem "titleStmt" [] [Elem "title" [] []]; Elem "pubStmt" [] [] ];
      Elem "encodingDesc" []
        [Elem "appInfo" []
          [Elem "application" [("isodate", now); ("version", VERSION)]
            [Elem "name" [] [Text "mensural_to_mei"]]]] ].

(** ** Files written *)

Inductive output_file : Type :=
| MeiFile (save_name : string) (tree : document)
| MensFile (save_name : string) (lines : list string).

Definition mei_names (fs : list output_file) : list string :=
  flat_map (fun f => match f with MeiFile n _ => [n] | MensFile _ _ => [] end) fs.

Definition mei_docs (fs : list output_file) : list document :=
  flat_map (fun f => match f with MeiFile _ d => [d] | MensFile _ _ => [] end) fs.

Definition mens_files (fs : list output_file) : list (list string) :=
  flat_map (fun f => match f with MeiFile _ _ => [] | MensFile _ l => [l] end) fs.

(** ** The state of a run

    The record holds the module globals ([id_counter], [used_filenames]),
    the files written so far, and the locals of
    [convert_to_mei_and_humdrum]. Locals that the function may read while
    still unbound are [option]s. [mei], [clef], [initial_key],
    [first_staff] and the three flags are always assigned before their
    first read (in the [ix_staff == 0] block, in the [first_staff] block and
    at the top of each staff), so they carry a placeholder until then.
    [doc_no] counts the documents created; a reference [(n, i)] held in
    [mensur] or [xml_lig] is child [i] of the layer of document [n]. *)

Inductive pyval : Type :=
| PyNone
| PyDict (s : symbol).

#[projections(primitive)]
Record state : Type := mkState {
  id_counter : nat;
  used_filenames : list string;
  written : list output_file;
  filename_counter : Z;
  humdrum_string : list string;
  saved : option bool;
  doc_no : nat;
  mei : document;
  filename : string;
  first_staff : bool;
  initial_clef : option pyval;
  clef : symbol;
  initial_key : string;
  sharp_found : bool;
  flat_found : bool;
  ligature : bool;
  mensur : option (nat * nat);
  xml_lig : option (nat * nat);
  humdrum_line : option string;
  line_humdrum : option string
}.

Definition set_id_counter (v : nat) (s : state) : state :=
  mkState v (used_filenames s) (written s) (filename_counter s)
    (humdrum_string s) (saved s) (doc_no s) (mei s) (filename s)
    (first_staff s) (initial_clef s) (clef s) (initial_key s) (sharp_found
    s) (flat_found s) (ligature s) (mensur s) (xml_lig s) (humdrum_line s)
    (line_humdrum s).

Definition set_used_filenames (v : list string) (s : state) : state :=
  mkState (id_counter s) v (written s) (filename_counter s) (humdrum_string
    s) (saved s) (doc_no s) (mei s) (filename s) (first_staff s)
    (initial_clef s) (clef s) (initial_key s) (sharp_found s) (flat_found s)
    (ligature s) (mensur s) (xml_lig s) (humdrum_line s) (line_humdrum s).

Definition set_written (v : list output_file) (s : state) : state :=
  mkState (id_counter s) (used_filenames s) v (filename_counter s)
    (humdrum_string s) (saved s) (doc_no s) (mei s) (filename s)
    (first_staff s) (initial_clef s) (clef s) (initial_key s) (sharp_found
    s) (flat_found s) (ligature s) (mensur s) (xml_lig s) (humdrum_line s)
    (line_humdrum s).

Definition set_filename_counter (v : Z) (s : state) : state :=
  mkState (id_counter s) (used_filenames s) (written s) v (humdrum_string s)
    (saved s) (doc_no s) (mei s) (filename s) (first_staff s) (initial_clef
    s) (clef s) (initial_key s) (sharp_found s) (flat_found s) (ligature s)
    (mensur s) (xml_lig s) (humdrum_line s) (line_humdrum s).

Definition set_humdrum_string (v : list string) (s : state) : state :=
  mkState (id_counter s) (used_filenames s) (written s) (filename_counter s)
    v (saved s) (doc_no s) (mei s) (filename s) (first_staff s)
    (initial_clef s) (clef s) (initial_key s) (sharp_found s) (flat_found s)
    (ligature s) (mensur s) (xml_lig s) (humdrum_line s) (line_humdrum s).

Definition set_saved (v : option bool) (s : state) : state :=
  mkState (id_counter s) (used_filenames s) (written s) (filename_counter s)
    (humdrum_string s) v (doc_no s) (mei s) (filename s) (first_staff s)
    (initial_clef s) (clef s) (initial_key s) (sharp_found s) (flat_found s)
    (ligature s) (mensur s) (xml_lig s) (humdrum_line s) (line_humdrum s).

Definition set_doc_no (v : nat) (s : state) : state :=
  mkState (id_counter s) (used_filenames s) (written s) (filename_counter s)
    (humdrum_string s) (saved s) v (mei s) (filename s) (first_staff s)
    (initial_clef s) (clef s) (initial_key s) (sharp_found s) (flat_found s)
    (ligature s) (mensur s) (xml_lig s) (humdrum_line s) (line_humdrum s).

Definition set_mei (v : document) (s : state) : state :=
  mkState (id_counter s) (used_filenames s) (written s) (filename_counter s)
    (humdrum_string s) (saved s) (doc_no s) v (filename s) (first_staff s)
    (initial_clef s) (clef s) (initial_key s) (sharp_found s) (flat_found s)
    (ligature s) (mensur s) (xml_lig s) (humdrum_line s) (line_humdrum s).

Definition set_filename (v : string) (s : state) : state :=
  mkState (id_counter s) (used_filenames s) (written s) (filename_counter s)
    (humdrum_string s) (saved s) (doc_no s) (mei s) v (first_staff s)
    (initial_clef s) (clef s) (initial_key s) (sharp_found s) (flat_found s)
    (ligature s) (mensur s) (xml_lig s) (humdrum_line s) (line_humdrum s).

Definition set_first_staff (v : bool) (s : state) : state :=
  mkState (id_counter s) (used_filenames s) (written s) (filename_counter s)
    (humdrum_string s) (saved s) (doc_no s) (mei s) (filename s) v
    (initial_clef s) (clef s) (initial_key s) (sharp_found s) (flat_found s)
    (ligature s) (mensur s) (xml_lig s) (humdrum_line s) (line_humdrum s).

Definition set_initial_clef (v : option pyval) (s : state) : state :=
  mkState (id_counter s) (used_filenames s) (written s) (filename_counter s)
    (humdrum_string s) (saved s) (doc_no s) (mei s) (filename s)
    (first_staff s) v (clef s) (initial_key s) (sharp_found s) (flat_found
    s) (ligature s) (mensur s) (xml_lig s) (humdrum_line s) (line_humdrum s).

Definition set_clef (v : symbol) (s : state) : state :=
  mkState (id_counter s) (used_filenames s) (written s) (filename_counter s)
    (humdrum_string s) (saved s) (doc_no s) (mei s) (filename s)
    (first_staff s) (initial_clef s) v (initial_key s) (sharp_found s)
    (flat_found s) (ligature s) (mensur s) (xml_lig s) (humdrum_line s)
    (line_humdrum s).

Definition set_initial_key (v : string) (s : state) : state :=
  mkState (id_counter s) (used_filenames s) (written s) (filename_counter s)
    (humdrum_string s) (saved s) (doc_no s) (mei s) (filename s)
    (first_staff s) (initial_clef s) (clef s) v (sharp_found s) (flat_found
    s) (ligature s) (mensur s) (xml_lig s) (humdrum_line s) (line_humdrum s).

Definition set_sharp_found (v : bool) (s : state) : state :=
  mkState (id_counter s) (used_filenames s) (written s) (filename_counter s)
    (humdrum_string s) (saved s) (doc_no s) (mei s) (filename s)
    (first_staff s) (initial_clef s) (clef s) (initial_key s) v (flat_found
    s) (ligature s) (mensur s) (xml_lig s) (humdrum_line s) (line_humdrum s).

Definition set_flat_found (v : bool) (s : state) : state :=
  mkState (id_counter s) (used_filenames s) (written s) (filename_counter s)
    (humdrum_string s) (saved s) (doc_no s) (mei s) (filename s)
    (first_staff s) (initial_clef s) (clef s) (initial_key s) (sharp_found
    s) v (ligature s) (mensur s) (xml_lig s) (humdrum_line s) (line_humdrum
    s).

Definition set_ligature (v : bool) (s : state) : state :=
  mkState (id_counter s) (used_filenames s) (written s) (filename_counter s)
    (humdrum_string s) (saved s) (doc_no s) (mei s) (filename s)
    (first_staff s) (initial_clef s) (clef s) (initial_key s) (sharp_found
    s) (flat_found s) v (mensur s) (xml_lig s) (humdrum_line s)
    (line_humdrum s).

Definition set_mensur (v : option (nat * nat)) (s : state) : state :=
  mkState (id_counter s) (used_filenames s) (written s) (filename_counter s)
    (humdrum_string s) (saved s) (doc_no s) (mei s) (filename s)
    (first_staff s) (initial_clef s) (clef s) (initial_key s) (sharp_found
    s) (flat_found s) (ligature s) v (xml_lig s) (humdrum_line s)
    (line_humdrum s).

Definition set_xml_lig (v : option (nat * nat)) (s : state) : state :=
  mkState (id_counter s) (used_filenames s) (written s) (filename_counter s)
    (humdrum_string s) (saved s) (doc_no s) (mei s) (filename s)
    (first_staff s) (initial_clef s) (clef s) (initial_key s) (sharp_found
    s) (flat_found s) (ligature s) (mensur s) v (humdrum_line s)
    (line_humdrum s).

Definition set_humdrum_line (v : option string) (s : state) : state :=
  mkState (id_counter s) (used_filenames s) (written s) (filename_counter s)
    (humdrum_string s) (saved s) (doc_no s) (mei s) (filename s)
    (first_staff s) (initial_clef s) (clef s) (initial_key s) (sharp_found
    s) (flat_found s) (ligature s) (mensur s) (xml_lig s) v (line_humdrum s).

Definition set_line_humdrum (v : option string) (s : state) : state :=
  mkState (id_counter s) (used_filenames s) (written s) (filename_counter s)
    (humdrum_string s) (saved s) (doc_no s) (mei s) (filename s)
    (first_staff s) (initial_clef s) (clef s) (initial_key s) (sharp_found
    s) (flat_found s) (ligature s) (mensur s) (xml_lig s) (humdrum_line s) v.

Definition layer (s : state) : list element := xml_layer (mei s).

Definition set_layer (l : list element) (s : state) : state :=
  set_mei (set_xml_layer l (mei s)) s.

(** ** utils.py *)

(** [generate_random_numbers]: [draw k] is the string the [k]-th call of
    [random.choices] yields; the set is kept as a duplicate-free list. The
    loop need not terminate, hence the fuel. *)
Definition set_add (x : string) (s : list string) : list string :=
  if existsb (String.eqb x) s then s else s ++ [x].

Fixpoint generate_loop (draw : nat -> string) (fuel k num_elements : nat)
    (numbers : list string) : option (list string) :=
  if (List.length numbers <? num_elements)%nat then
    match fuel with
    | O => None
    | S fuel' =>
        generate_loop draw fuel' (S k) num_elements (set_add (draw k) numbers)
    end
  else Some numbers.

Definition generate_random_numbers (draw : nat -> string) (fuel num_elements : nat)
    : option (list string) :=
  generate_loop draw fuel 0 num_elements [].

(** [convert_to_combined_list_with_metadata]: the dictionary is the list of
    its items in insertion order; [metadata] has the keys [0 .. n-1] and is
    kept as a list. *)
Definition convert_to_combined_list_with_metadata
    (d : list (string * list staff)) : list staff * list string :=
  (flat_map snd d, flat_map (fun kv => map (fun _ => fst kv) (snd kv)) d).

Definition metadata_get (metadata : list string) (i : nat) : result string :=
  match nth_error metadata i with
  | Some l => Ok l
  | None => Raise (KeyError (KInt (Z.of_nat i)))
  end.

(** ** Identifiers *)

(** [increment_idcounter] on the global [id_counter]. *)
Definition increment_idcounter (s : state) : nat * state :=
  (S (id_counter s), set_id_counter (S (id_counter s)) s).

(** [ids[increment_idcounter()]] *)
Definition next_id (ids : list string) (s : state) : result (string * state) :=
  let '(c, s') := increment_idcounter s in
  i <- item ids c ;;
  Ok (i, s').

(** [create_mei_declarations]: eight identifiers, in the order the source
    requests them; the clef and key-signature elements have no attribute yet
    and the layer no child. *)
Definition create_mei_declarations (ids : list string) (head : element) (s : state)
    : result (document * state) :=
  '(i1, s) <- next_id ids s ;;
  '(i2, s) <- next_id ids s ;;
  '(i3, s) <- next_id ids s ;;
  '(i4, s) <- next_id ids s ;;
  '(i5, s) <- next_id ids s ;;
  '(i6, s) <- next_id ids s ;;
  '(i7, s) <- next_id ids s ;;
  '(i8, s) <- next_id ids s ;;
  Ok (mkDocument head ("mdiv-" ++ i1)%string ("score-" ++ i2)%string ("scoreDef-" ++ i3)%string
        ("staffGrp-" ++ i4)%string ("staffDef-" ++ i5)%string ("section-" ++ i6)%string
        ("staff-" ++ i7)%string ("layer-" ++ i8)%string [] [] [], s).

(** ** Writer *)

(** [save_mei_file]: returns the pair the source returns, together with the
    updated global [used_filenames] and the files written. *)
Definition save_mei_file (metadata : list string) (filename_counter : Z)
    (ix_staff : nat) (mei : document) (filename : string) (n_staffs : nat)
    (humdrum_string : list string) (humdrum : bool)
    (used : list string) (files : list output_file)
    : result (string * Z * list string * list output_file) :=
  '(save_name, filename_counter, used) <-
    (if negb (existsb (String.eqb filename) used) then
       label <- metadata_get metadata ix_staff ;;
       Ok ((label ++ "_01.mei")%string, 1%Z, used ++ [filename])
     else
       let c := (filename_counter + 1)%Z in
       Ok ((filename ++ "_" ++ zfill 2 (str c) ++ ".mei")%string, c, used)) ;;
  filename <-
    (if negb (Z.of_nat ix_staff =? Z.of_nat n_staffs - 1)%Z
     then metadata_get metadata (ix_staff + 1)
     else Ok filename) ;;
  let files := files ++ [MeiFile save_name mei] in
  let files :=
    if humdrum
    then files ++ [MensFile (drop_last 3 save_name ++ ".mens")%string humdrum_string]
    else files in
  Ok (filename, filename_counter, used, files).

(** ** The stream transducer *)

(** How one statement block of the loop body ends: it falls through to the
    next statement, executes [continue], or raises. *)
Inductive flow : Type :=
| Next (s : state)
| Continue (s : state)
| Abort (e : exception).

Definition and_then (f : flow) (k : state -> flow) : flow :=
  match f with
  | Next s => k s
  | Continue s => Continue s
  | Abort e => Abort e
  end.

Definition try {A : Type} (r : result A) (k : A -> flow) : flow :=
  match r with
  | Ok a => k a
  | Raise e => Abort e
  end.

Notation "x <~ c ;; k" := (try c (fun x => k))
  (at level 61, c at next level, right associativity).
Notation "' pat <~ c ;; k" := (try c (fun x => match x with pat => k end))
  (at level 61, pat pattern, c at next level, right associativity).

(** A fresh element receiving its attributes by successive [set] calls. *)
Definition with_attrs (kvs : list (string * string)) (e : element) : element :=
  fold_left (fun e kv => elem_set (fst kv) (snd kv) e) kvs e.

Definition new_elem (tag : string) (kvs : list (string * string)) : element :=
  with_attrs kvs (Elem tag [] []).

(** Where the [note] element of the current iteration lives: still the last
    child of the layer, moved into the ligature at a position of the layer,
    or moved into a ligature of an earlier document. *)
Inductive note_loc : Type :=
| AtLayerEnd
| InLigature (i : nat)
| Detached.

Definition edit_note (loc : note_loc) (f : element -> element) (s : state) : state :=
  match loc with
  | AtLayerEnd => set_layer (edit_last f (layer s)) s
  | InLigature i =>
      set_layer
        (edit_nth i (fun lig =>
           match lig with
           | Elem tag a ch => Elem tag a (edit_last f ch)
           | Text t => Text t
           end) (layer s)) s
  | Detached => s
  end.

Definition NO_CLEF_MESSAGE : string :=
  "No clef was found in the staffs. Clefs are necessary to perform conversion!".

Definition initial_state : state :=
  mkState 0 [] [] 0%Z ["**mens"] None 0
    (mkDocument (Text "") "" "" "" "" "" "" "" "" [] [] [])
    "" false None (mkSymbol "" "") "" false false false None None None None.

Section Converter.

(** [ids] is the pool [generate_random_numbers(10000)] returned;
    [isodate n] is the time stamp read when the [n]-th document is
    created. *)
Variable ids : list string.
Variable isodate : nat -> string.
Variable humdrum : bool.
Variable stafflist : list staff.
Variable metadata : list string.

Definition not_last_staff (ix_staff : nat) : bool :=
  negb (Z.of_nat ix_staff =? Z.of_nat (List.length stafflist) - 1)%Z.

(** [mei = etree.Element('mei') ...; create_mei_declarations(ids, mei)] *)
Definition new_document (s : state) : result state :=
  let n := S (doc_no s) in
  '(d, s) <- create_mei_declarations ids (create_meihead (isodate n)) s ;;
  Ok (set_mei d (set_doc_no n s)).

(** [etree.SubElement(xml_layer, tag)] followed by the [set] of its
    identifier and of the attributes [kvs]. *)
Definition sub_element (tag prefix : string) (kvs : list (string * string))
    (s : state) : result state :=
  '(i, s) <- next_id ids s ;;
  Ok (set_layer
        (layer s ++ [new_elem tag ((XML_ID, (prefix ++ "-" ++ i)%string) :: kvs)]) s).

Definition append_lines (ls : list string) (s : state) : state :=
  set_humdrum_string (humdrum_string s ++ ls) s.

(** The [for i in range(1, len(stafflist)-1)] search of the clef. *)
Fixpoint scan_clef (candidates : list staff) (found : option pyval)
    : result (option pyval * bool) :=
  match candidates with
  | [] => Ok (found, false)
  | st :: rest =>
      s0 <- item st 0 ;;
      if s_type s0 =? "clef" then
        s1 <- item st 1 ;;
        Ok (Some (PyDict s0), s_type s1 =? "flat")
      else scan_clef rest found
  end.

(** The [if first_staff:] block. *)
Definition resolve_clef (staff : staff) (s : state) : result state :=
  if first_staff s then
    let s := set_first_staff false s in
    s0 <- item staff 0 ;;
    '(found, initial_flat_found) <-
      (if s_type s0 =? "clef" then
         s1 <- item staff 1 ;;
         Ok (Some (PyDict s0), s_type s1 =? "flat")
       else
         scan_clef (firstn (List.length stafflist - 2) (skipn 1 stafflist))
           (initial_clef s)) ;;
    let s := set_initial_clef found s in
    ic <- local "initial_clef" found ;;
    match ic with
    | PyNone => Raise (SystemExit NO_CLEF_MESSAGE)
    | PyDict c =>
        let s := set_initial_key "" (set_clef c s) in
        '(shape, line) <- analyse_clef c ;;
        '(i, s) <- next_id ids s ;;
        let s :=
          set_mei
            (set_xml_clef
               (set_attr "line" line
                  (set_attr "shape" shape
                     (set_attr XML_ID ("clef-" ++ i) (xml_clef (mei s)))))
               (mei s)) s in
        s <- (if humdrum then
                sigil <- getitem CLEFS_HUMDRUM (s_pitch c) ;;
                Ok (append_lines [sigil] s)
              else Ok s) ;;
        if initial_flat_found then
          '(i, s) <- next_id ids s ;;
          let s :=
            set_mei
              (set_xml_keySign
                 (set_attr "sig" "1f"
                    (set_attr XML_ID ("keySig-" ++ i) (xml_keySign (mei s))))
                 (mei s)) s in
          let s := set_initial_key "flat" s in
          Ok (if humdrum then append_lines ["*k[b-]"] s else s)
        else Ok s
    end
  else Ok s.

(** [if t == 'mens':] *)
Definition mens_block (sym : symbol) (s : state) : flow :=
  if s_type sym =? "mens" then
    if s_pitch sym =? "met_3_2" then
      m <~ local "mensur" (mensur s) ;;
      let s :=
        if (fst m =? doc_no s)%nat then
          set_layer
            (edit_nth (snd m)
               (fun e => elem_set "numbase" "2" (elem_set "num" "3" e))
               (layer s)) s
        else s in
      if humdrum then
        l <~ last_item (humdrum_string s) ;;
        hs <~ set_last (drop_last 1 l ++ "3/2)")%string (humdrum_string s) ;;
        Continue (set_humdrum_string hs s)
      else Continue s
    else
      let s := set_mensur (Some (doc_no s, List.length (layer s))) s in
      s <~ sub_element "mensur" "mens" [] s ;;
      '(sign, slash) <~ analyse_mensuration sym ;;
      let s :=
        set_layer
          (edit_last
             (fun e =>
                let e := elem_set "sign" sign (elem_set "prolatio" "2" e) in
                if slash =? "" then e else elem_set "slash" slash e)
             (layer s)) s in
      if humdrum then
        let sl := if slash =? "" then "" else "|" in
        Next (set_humdrum_line (Some ("*met(" ++ sign ++ sl ++ ")")%string) s)
      else Next s
  else Next s.

(** [if t == 'dot':] *)
Definition dot_block (sym : symbol) (s : state) : flow :=
  if s_type sym =? "dot" then
    s <~ sub_element "dot" "dot" [] s ;;
    if humdrum then
      l <~ last_item (humdrum_string s) ;;
      match l with
      | EmptyString => Abort IndexError
      | String c rest =>
          hs <~ set_last (String c (":" ++ rest)) (humdrum_string s) ;;
          Continue (set_humdrum_string hs s)
      end
    else Next s
  else Next s.

(** [if t in RESTS_MEI.keys():] *)
Definition rest_block (sym : symbol) (s : state) : flow :=
  let t := s_type sym in
  if has_key t RESTS_MEI then
    s <~ sub_element "rest" "rest" [] s ;;
    dur <~ getitem RESTS_MEI t ;;
    let s := set_layer (edit_last (elem_set "dur" dur) (layer s)) s in
    if humdrum then
      hl <~ getitem RESTS_HUMDRUM t ;;
      Next (set_humdrum_line (Some hl) s)
    else Next s
  else Next s.

(** [xml_lig.append(note)]: the note, last child of the current layer,
    moves under the ligature element [xml_lig] refers to. *)
Definition move_note_to_ligature (lig : nat * nat) (s : state) : note_loc * state :=
  match rev (layer s) with
  | [] => (Detached, s)
  | note :: before =>
      let l := rev before in
      if (fst lig =? doc_no s)%nat
      then (InLigature (snd lig),
            set_layer (edit_nth (snd lig) (elem_append note) l) s)
      else (Detached, set_layer l s)
  end.

(** [if t in NOTES_MEI.keys():] *)
Definition note_block (sym : symbol) (s : state) : flow :=
  let t := s_type sym in
  if has_key t NOTES_MEI then
    '(oct, pname) <~ analyse_note (clef s) (s_pitch sym) ;;
    s <~ sub_element "note" "note" [] s ;;
    dur <~ getitem NOTES_MEI t ;;
    let s :=
      set_layer
        (edit_last
           (fun e => elem_set "pname" pname
                       (elem_set "oct" (str oct) (elem_set "dur" dur e)))
           (layer s)) s in
    s <~ (if humdrum && negb (ligature s) then
            lh <- getitem NOTES_HUMDRUM t ;; Ok (set_line_humdrum (Some lh) s)
          else Ok s) ;;
    s <~ (if (t =? "br") || (t =? "sb") then
            let s := set_layer (edit_last (elem_set "colored" "true") (layer s)) s in
            if humdrum then
              lh <- getitem NOTES_HUMDRUM t ;; Ok (set_line_humdrum (Some lh) s)
            else Ok s
          else Ok s) ;;
    s <~ (if humdrum then
            lh <- local "line_humdrum" (line_humdrum s) ;;
            Ok (set_line_humdrum (Some (get_humdrum_pitch oct pname lh)) s)
          else Ok s) ;;
    if t =? "li" then
      (* the layer ends with the note; the ligature is created after it
         and the note then moves into it *)
      let pos := (List.length (layer s) - 1)%nat in
      s <~ sub_element "ligature" "ligature" [("form", "recta")] s ;;
      let s := set_xml_lig (Some (doc_no s, pos)) s in
      let s :=
        match rev (layer s) with
        | lig :: note :: before =>
            set_layer (rev before ++ [elem_append note lig]) s
        | _ => s
        end in
      let s := set_ligature true s in
      if humdrum then
        let lh := get_humdrum_pitch oct pname "[s" in
        Continue (append_lines [lh] (set_line_humdrum (Some lh) s))
      else Continue s
    else
      '(loc, s) <~
        (if ligature s then
           let s := set_layer (edit_last (elem_set "dur" "semibrevis") (layer s)) s in
           lig <- local "xml_lig" (xml_lig s) ;;
           let '(loc, s) := move_note_to_ligature lig s in
           let s := set_ligature false s in
           if humdrum then
             let lh := (get_humdrum_pitch oct pname "s" ++ "]")%string in
             Ok (loc, set_humdrum_line (Some lh) (set_line_humdrum (Some lh) s))
           else Ok (loc, s)
         else Ok (AtLayerEnd, s)) ;;
      s <~ (if sharp_found s then
              let s := set_sharp_found false (edit_note loc (elem_set "accid" "s") s) in
              if humdrum then
                lh <- local "line_humdrum" (line_humdrum s) ;;
                Ok (set_line_humdrum (Some (lh ++ "#")%string) s)
              else Ok s
            else Ok s) ;;
      s <~ (if flat_found s then
              let s := set_flat_found false (edit_note loc (elem_set "accid" "f") s) in
              if humdrum then
                lh <- local "line_humdrum" (line_humdrum s) ;;
                Ok (set_line_humdrum (Some (lh ++ "-")%string) s)
              else Ok s
            else Ok s) ;;
      if humdrum then
        lh <~ local "line_humdrum" (line_humdrum s) ;;
        Next (set_humdrum_line (Some lh) s)
      else Next s
  else Next s.

(** The call of [save_mei_file] and the assignment of its result. *)
Definition save (ix_staff : nat) (s : state) : result state :=
  '(fn, fc, used, files) <-
    save_mei_file metadata (filename_counter s) ix_staff (mei s) (filename s)
      (List.length stafflist) (humdrum_string s) humdrum
      (used_filenames s) (written s) ;;
  Ok (set_filename fn (set_filename_counter fc
        (set_used_filenames used (set_written files s)))).

(** [if t == 'bar':] *)
Definition bar_block (ix_staff : nat) (sym : symbol) (s : state) : flow :=
  if s_type sym =? "bar" then
    s <~ sub_element "barLine" "barline" [("form", "dbl")] s ;;
    let s := if humdrum then append_lines ["=||"; "*-"] s else s in
    s <~ save ix_staff s ;;
    s <~ new_document s ;;
    Continue (set_saved (Some true) (set_first_staff true s))
  else Next s.

(** [if t == 'custos':] *)
Definition custos_block (ix_staff : nat) (sym : symbol) (s : state) : flow :=
  if s_type sym =? "custos" then
    s <~ sub_element "custos" "custos" [] s ;;
    let s := if humdrum then set_line_humdrum (Some "*custos") s else s in
    if (Z.of_nat ix_staff <? Z.of_nat (List.length stafflist) - 1)%Z then
      following <~ item stafflist (ix_staff + 1) ;;
      match find (fun sy => has_key (s_type sy) NOTES_MEI) following with
      | Some sy =>
          '(oct, pname) <~ analyse_note (clef s) (s_pitch sy) ;;
          let s :=
            set_layer
              (edit_last
                 (fun e => elem_set "pname" pname (elem_set "oct" (str oct) e))
                 (layer s)) s in
          if humdrum then
            lh <~ local "line_humdrum" (line_humdrum s) ;;
            Next (set_humdrum_line (Some (get_humdrum_pitch oct pname lh)) s)
          else Next s
      | None => Next s
      end
    else Next s
  else Next s.

(** The closing [if humdrum:] of the loop body. *)
Definition emit_line (s : state) : flow :=
  if humdrum then
    hl <~ local "humdrum_line" (humdrum_line s) ;;
    let s := append_lines [hl] s in
    if contains "custos" hl
    then Next (append_lines ["!!LO:LB:g=z"; "=-"] s)
    else Next s
  else Next s.

(** The body of [for ix_symbol, symbol in enumerate(staff)]. *)
Definition process_symbol (ix_staff ix_symbol : nat) (sym : symbol) (s : state)
    : flow :=
  let t := s_type sym in
  ic <~ local "initial_clef" (initial_clef s) ;;
  match (match ic with
         | PyDict c => if symbol_eqb sym c then Some c else None
         | PyNone => None
         end) with
  | Some c => Continue (set_clef c s)
  | None =>
      if (t =? initial_key s) && (ix_symbol =? 1)%nat then Continue s
      else if (t =? initial_key s) && (ix_symbol =? 2)%nat
              && (s_pitch (clef s) =? "c-c-g") then Continue s
      else if t =? "flat" then Continue (set_flat_found true s)
      else if t =? "sharp" then Continue (set_sharp_found true s)
      else
        and_then (mens_block sym s) (fun s =>
        and_then (dot_block sym s) (fun s =>
        and_then (rest_block sym s) (fun s =>
        and_then (note_block sym s) (fun s =>
        and_then (bar_block ix_staff sym s) (fun s =>
        and_then (custos_block ix_staff sym s) emit_line)))))
  end.

Fixpoint run_symbols (ix_staff ix_symbol : nat) (syms : list symbol) (s : state)
    : result state :=
  match syms with
  | [] => Ok s
  | sym :: rest =>
      match process_symbol ix_staff ix_symbol sym s with
      | Next s' => run_symbols ix_staff (S ix_symbol) rest s'
      | Continue s' => run_symbols ix_staff (S ix_symbol) rest s'
      | Abort e => Raise e
      end
  end.

(** The [if ix_staff == 0:] block. *)
Definition first_document (s : state) : result state :=
  s <- new_document s ;;
  fn <- metadata_get metadata 0 ;;
  Ok (set_first_staff true (set_filename fn s)).

(** The [if not saved:] block that ends the body of the staff loop. *)
Definition end_of_staff (ix_staff : nat) (s : state) : result state :=
  sv <- local "saved" (saved s) ;;
  if negb sv && not_last_staff ix_staff
  then sub_element "barLine" "barline" [("visible", "false")] s
  else Ok s.

(** The statements of the staff loop that precede the symbol loop. *)
Definition begin_staff (ix_staff : nat) (staff : staff) (s : state) : result state :=
  let s := set_saved (Some false) s in
  s <- (if (ix_staff =? 0)%nat then first_document s else Ok s) ;;
  s <- resolve_clef staff s ;;
  Ok (set_ligature false (set_flat_found false (set_sharp_found false s))).

(** The body of [for ix_staff, staff in enumerate(stafflist)]. *)
Definition run_staff (ix_staff : nat) (staff : staff) (s : state) : result state :=
  s <- begin_staff ix_staff staff s ;;
  s <- run_symbols ix_staff 0 staff s ;;
  end_of_staff ix_staff s.

Fixpoint run_staves (ix_staff : nat) (staves : list staff) (s : state)
    : result state :=
  match staves with
  | [] => Ok s
  | st :: rest =>
      s <- run_staff ix_staff st s ;;
      run_staves (S ix_staff) rest s
  end.

(** The whole loop and the final [if not saved:]; after the loop
    [ix_staff] is the index of the last staff. *)
Definition run (s : state) : result state :=
  s <- run_staves 0 stafflist s ;;
  sv <- local "saved" (saved s) ;;
  if negb sv then save (List.length stafflist - 1) s else Ok s.

End Converter.

(** [convert_to_mei_and_humdrum] in a fresh process; the result is the state
    the run ends in, whose [written] field lists the files in the order they
    were written. *)
Definition convert_to_mei_and_humdrum (ids : list string) (isodate : nat -> string)
    (symbols_and_pitches : list (string * list staff)) (humdrum : bool)
    : result state :=
  let '(stafflist, metadata) :=
    convert_to_combined_list_with_metadata symbols_and_pitches in
  run ids isodate humdrum stafflist metadata initial_state.

(** * Definitions used by the statements *)

Definition CLEF_CODES : list string := map fst CLEFS_HUMDRUM.
Definition STEP_CODES : list string := map fst MENSURAL_NOTE_STEPS.

(** The resolver as the specification words it: the octave rule and the
    diatonic letter, as functions of the relative step. *)
Definition DIATONIC_CYCLE : list string := ["c"; "d"; "e"; "f"; "g"; "a"; "b"].

Definition spec_octave (rel : Z) : Z :=
  if ((-7 <=? rel) && (rel <? 0))%Z then 4 - 1
  else if (6 <? rel)%Z then 4 + 1
  else if ((-14 <=? rel) && (rel <? -7))%Z then 4 - 2
  else 4.

Definition spec_letter (rel : Z) : string :=
  nth (Z.to_nat (rel mod 7)) DIATONIC_CYCLE "".

(** [n] successive evaluations of [ids[increment_idcounter()]]. *)
Fixpoint take_ids (ids : list string) (n : nat) (s : state)
    : result (list string * state) :=
  match n with
  | O => Ok ([], s)
  | S m =>
      '(i, s) <- next_id ids s ;;
      '(l, s) <- take_ids ids m s ;;
      Ok (i :: l, s)
  end.

(** A generation replayed by evaluation: the [k]-th draw is the decimal
    numeral of [k / 2], padded to ten digits, so every second draw repeats
    the one before it. *)
Definition repeating_draw (k : nat) : string :=
  zfill 10 (str (Z.of_nat (k / 2))).

(** Tables and analysis functions are looked up, not unfolded, when a
    statement is simplified with a symbolic key. *)
Arguments lookup : simpl never.
Arguments getitem : simpl never.
Arguments has_key : simpl never.
Arguments analyse_note : simpl never.
Arguments analyse_clef : simpl never.
Arguments analyse_mensuration : simpl never.
Arguments get_humdrum_pitch : simpl never.
Arguments str : simpl never.
Arguments contains : simpl never.
Arguments drop_last : simpl never.
Arguments create_meihead : simpl never.
Arguments metadata_get : simpl never.
Arguments item : simpl never.



(** What holds of the state whenever the symbol loop is about to process a
    symbol: the clef was resolved from a clef symbol, the key is one of the
    two key states, an open ligature has its element (and, with the flat
    encoding, its line), and the flat buffer starts with the declaration
    followed by the clef line. *)
Definition clef_resolved (s : state) : Prop :=
  exists c, initial_clef s = Some (PyDict c) /\ clef s = c /\ s_type c = "clef".

Definition key_resolved (s : state) : Prop :=
  initial_key s = "" \/ initial_key s = "flat".

Definition ligature_ready (humdrum : bool) (s : state) : Prop :=
  ligature s = true ->
  xml_lig s <> None /\ (humdrum = true -> line_humdrum s <> None).

Definition declared (humdrum : bool) (s : state) : Prop :=
  humdrum = true -> exists x l, humdrum_string s = "**mens" :: x :: l.

Definition loop_inv (humdrum : bool) (s : state) : Prop :=
  clef_resolved s /\ key_resolved s /\ ligature_ready humdrum s /\
  declared humdrum s /\ saved s <> None.

(** Attributes of an element other than its identifier. *)
Definition strip_id (e : element) : element :=
  match e with
  | Elem tag a ch =>
      Elem tag (filter (fun kv => negb (fst kv =? XML_ID)) a) ch
  | Text t => Text t
  end.

Definition attr (k : string) (e : element) : option string :=
  lookup k (elem_attrib e).

(** A pool of 10000 distinct ten-digit numerals, for the runs that are
    replayed by evaluation, and a clock. *)
Definition counting_pool : list string :=
  map (fun k => zfill 10 (str (Z.of_nat k))) (seq 0 10000).

Definition fixed_clock (n : nat) : string := "2024-01-01T00:00:00".

Definition Clef (code : string) : symbol := mkSymbol "clef" code.
Definition Flat : symbol := mkSymbol "flat" "".
Definition Sharp : symbol := mkSymbol "sharp" "".
Definition Mensuration (code : string) : symbol := mkSymbol "mens" code.
Definition Note (kind pitch : string) : symbol := mkSymbol kind pitch.
Definition Barline : symbol := mkSymbol "bar" "".

(** The flat buffer keeps its declaration line and whatever follows it. *)
Definition keeps_declaration (hs hs' : list string) : Prop :=
  forall x l, hs = "**mens" :: x :: l -> exists x' l', hs' = "**mens" :: x' :: l'.

(** The writer's variables and the files are untouched. *)
Definition same_writer (s s' : state) : Prop :=
  written s' = written s /\ filename s' = filename s /\
  filename_counter s' = filename_counter s /\
  used_filenames s' = used_filenames s.

(** A flat file that starts with the declaration and ends with the
    double-barline line and the terminator line. *)
Definition closed_flat (lines : list string) : Prop :=
  exists body, lines = "**mens" :: body ++ ["=||"; "*-"].

Definition quiet (humdrum : bool) (s : state) (f : flow) : Prop :=
  match f with
  | Next s' | Continue s' =>
      same_writer s s' /\
      keeps_declaration (humdrum_string s) (humdrum_string s')
  | Abort _ => True
  end.

(** The effect of a Barline step on the writer and on the flat buffer:
    [save_mei_file] ran once, on the buffer extended by the two closing
    lines. *)
Definition finalizes (humdrum : bool) (metadata : list string) (n_staffs ix_staff : nat)
    (s s' : state) : Prop :=
  exists doc hk,
    keeps_declaration (humdrum_string s) hk /\
    humdrum_string s' = (if humdrum then hk ++ ["=||"; "*-"] else hk) /\
    save_mei_file metadata (filename_counter s) ix_staff doc (filename s)
      n_staffs (humdrum_string s') humdrum (used_filenames s) (written s)
    = Ok (filename s', filename_counter s', used_filenames s', written s').

Definition step_effect (humdrum : bool) (metadata : list string)
    (n_staffs ix_staff : nat) (s : state) (f : flow) : Prop :=
  match f with
  | Next s' | Continue s' =>
      (same_writer s s' /\
       keeps_declaration (humdrum_string s) (humdrum_string s')) \/
      finalizes humdrum metadata n_staffs ix_staff s s'
  | Abort _ => True
  end.

(** The flat-encoding invariant of the symbol loop: the buffer starts with
    the declaration and the clef line, and every flat file written so far is
    closed. *)
Definition flat_inv (s : state) : Prop :=
  (exists x l, humdrum_string s = "**mens" :: x :: l) /\
  Forall closed_flat (mens_files (written s)).

(** The name the writer gives to the [k]-th document of a label. *)
Definition numbered_name (label : string) (k : nat) : string :=
  label ++ "_" ++ zfill 2 (str (Z.of_nat k)) ++ ".mei".

(** The writer's invariant in a run whose staves all carry the label
    [label]: nothing was written yet, or the label is the one used name, the
    counter is the number of documents written, and these are numbered from
    1 without a gap. *)
Definition names_ok (label : string) (used : list string) (fc : Z)
    (files : list output_file) : Prop :=
  (used = [] /\ mei_names files = []) \/
  (used = [label] /\
   exists k, (1 <= k)%nat /\ fc = Z.of_nat k /\
             mei_names files = map (numbered_name label) (seq 1 k)).

Definition name_inv (label : string) (s : state) : Prop :=
  filename s = label /\
  names_ok label (used_filenames s) (filename_counter s) (written s).

(** Pieces that are run by evaluation. *)
Definition scenario_staff : staff :=
  [Clef "c-c-g"; Flat; Mensuration "met_c"; Note "mi" "g1"; Barline].

Definition scenario_piece (label : string) : list (string * list staff) :=
  [(label, [scenario_staff])].

Definition no_clef_piece : list (string * list staff) :=
  [("page1", [[Note "mi" "g1"]])].

Definition double_li_piece : list (string * list staff) :=
  [("page1", [[Clef "c-c-g"; Note "li" "g1"; Note "li" "a1"]])].

Definition pending_sharp_piece : list (string * list staff) :=
  [("page1", [[Clef "c-c-g"; Sharp; Barline; Note "mi" "g1"];
              [Note "mi" "a1"]])].

Definition two_label_piece : list (string * list staff) :=
  [("A", [[Clef "c-c-g"; Note "mi" "g1"]]);
   ("B", [[Note "mi" "g1"; Barline]; [Note "mi" "a1"; Barline]])].

Definition open_ended_piece : list (string * list staff) :=
  [("page1", [[Clef "c-c-g"; Note "mi" "g1"; Barline];
              [Clef "c-c-g"; Note "mi" "a1"]])].

Definition is_note (e : element) : bool := elem_tag e =? "note".
Definition is_ligature (e : element) : bool := elem_tag e =? "ligature".

(** The state in which the symbol loop starts on the staff of the
    scenario, and the arguments of that run. *)
Definition scenario_loop_state : state :=
  Eval vm_compute in
    match begin_staff counting_pool fixed_clock true [scenario_staff] ["page1"]
            0 scenario_staff initial_state with
    | Ok s => s
    | Raise _ => initial_state
    end.

(** A property that holds of the state a block leaves, when it does not
    raise. *)
Definition holds_after (P : state -> Prop) (f : flow) : Prop :=
  match f with
  | Next s' | Continue s' => P s'
  | Abort _ => True
  end.

(** The part of the loop invariant that does not concern the flat buffer. *)
Definition core_inv (humdrum : bool) (s : state) : Prop :=
  clef_resolved s /\ key_resolved s /\ ligature_ready humdrum s /\
  saved s <> None.

(** Ending in [sys.exit]. *)
Definition raises_exit {A : Type} (r : result A) : Prop :=
  match r with
  | Raise (SystemExit _) => True
  | _ => False
  end.

Definition aborts_exit (f : flow) : Prop :=
  match f with
  | Abort (SystemExit _) => True
  | _ => False
  end.

(** What is proved of each block in one pass: it is quiet, it keeps the
    core of the loop invariant, and it does not end in [sys.exit]. *)
Definition block_ok (humdrum : bool) (s : state) (f : flow) : Prop :=
  quiet humdrum s f /\
  (core_inv humdrum s -> holds_after (core_inv humdrum) f) /\
  ~ aborts_exit f.

(** The states of a run: those between two staves, and those at which the
    symbol loop stands. Staves and symbols are arbitrary, so these are
    supersets of the states of any particular piece. *)
Inductive between_staves (ids : list string) (isodate : nat -> string)
    (humdrum : bool) (stafflist : list staff) (metadata : list string)
    : nat -> state -> Prop :=
| run_start :
    between_staves ids isodate humdrum stafflist metadata 0 initial_state
| staff_done (ix_staff : nat) (st : staff) (s s' : state) :
    between_staves ids isodate humdrum stafflist metadata ix_staff s ->
    run_staff ids isodate humdrum stafflist metadata ix_staff st s = Ok s' ->
    between_staves ids isodate humdrum stafflist metadata (S ix_staff) s'.

Inductive in_loop (ids : list string) (isodate : nat -> string)
    (humdrum : bool) (stafflist : list staff) (metadata : list string)
    : state -> Prop :=
| loop_entered (ix_staff : nat) (st : staff) (s s' : state) :
    between_staves ids isodate humdrum stafflist metadata ix_staff s ->
    begin_staff ids isodate humdrum stafflist metadata ix_staff st s = Ok s' ->
    in_loop ids isodate humdrum stafflist metadata s'
| loop_stepped (ix_staff ix_symbol : nat) (sym : symbol) (s s' : state) :
    in_loop ids isodate humdrum stafflist metadata s ->
    process_symbol ids isodate humdrum stafflist metadata ix_staff ix_symbol sym s
      = Next s' \/
    process_symbol ids isodate humdrum stafflist metadata ix_staff ix_symbol sym s
      = Continue s' ->
    in_loop ids isodate humdrum stafflist metadata s'.
(** * The callers and the remaining helpers *)

(** ** utils.py: [count_elements] *)

Definition count_elements {A : Type} (nested_list : list (list A)) : nat :=
  List.length (concat nested_list).

(** ** pitch_detection/detect_pitches.py

    A region of interest is the five-element list [[x1, y1, x2, y2, class]]
    the symbol detection returns. The three ONNX sessions are parameters:
    each maps the source file and the region cut out of its image to the
    class name read off the model's output. *)

Record roi : Type := mkRoi {
  roi_x1 : Z;
  roi_y1 : Z;
  roi_x2 : Z;
  roi_y2 : Z;
  roi_class : string
}.

Record sessions : Type := mkSessions {
  session_all_symbols : string -> roi -> string;
  session_clef : string -> roi -> string;
  session_mens : string -> roi -> string
}.

Definition PITCH_DETECT_LIST : list string :=
  [ "ma-u"; "ma-d"; "lo-u"; "lo-d"; "bre"; "sebre"; "mi-u"; "mi-d"; "sm-u";
    "sm-d"; "fu-u"; "fu-d"; "sf-u"; "sf-d"; "br-min"; "sb-min"; "li-lolu" ].

Definition CLASSIFICATION_LIST : list string :=
  PITCH_DETECT_LIST ++ ["clef"; "mens"].

(** [x in l] on a list of strings. *)
Definition in_list (x : string) (l : list string) : bool :=
  existsb (String.eqb x) l.

(** [str.split(s, "-")[0]]: what precedes the first hyphen. *)
Fixpoint split_head (s : string) : string :=
  match s with
  | EmptyString => EmptyString
  | String c rest =>
      if Ascii.eqb c "-" then EmptyString else String c (split_head rest)
  end.

(** The body of [for roi in staff_symbols]: the symbol dictionary built for
    one region. *)
Definition classify_roi (models : sessions) (sourcefile : string) (r : roi) : symbol :=
  let note_type := roi_class r in
  if in_list note_type CLASSIFICATION_LIST then
    let pitch :=
      if in_list note_type PITCH_DETECT_LIST
      then session_all_symbols models sourcefile r
      else if note_type =? "clef" then session_clef models sourcefile r
      else if note_type =? "mens" then session_mens models sourcefile r
      else "" in
    mkSymbol (split_head note_type) pitch
  else mkSymbol note_type "".

(** [detect_pitches]: the dictionary of the classified staves, keyed like
    the dictionary of the detected ones. *)
Definition detect_pitches (models : sessions)
    (detected_symbols : list (string * list (list roi)))
    : list (string * list staff) :=
  map (fun kv => (fst kv, map (map (classify_roi models (fst kv))) (snd kv)))
    detected_symbols.

(** ** Definitions used by the statements on the rest of the code *)

(** The codes [analyse_mensuration] knows, and the kinds of symbol the
    symbol loop dispatches on. *)
Definition MENSURATION_CODES : list string := ["met_c"; "al-br"; "met_o_cut"].

Definition DISPATCHED_TYPES : list string :=
  ["flat"; "sharp"; "mens"; "dot"; "bar"; "custos"]
  ++ map fst RESTS_MEI ++ map fst NOTES_MEI.

(** A staff that has a first symbol, which is not a clef. *)
Definition head_not_clef (st : staff) : Prop :=
  exists s0 tl, st = s0 :: tl /\ s_type s0 <> "clef".

Definition is_bar (sym : symbol) : bool := s_type sym =? "bar".

Definition count_bars (st : staff) : nat := List.length (filter is_bar st).

(** The state of a run with the flat encoding switched off, as a view of
    the state of the same run with the encoding on: the flat buffer stays
    at its declaration, the two line variables are never bound, and no flat
    file is written. *)
Definition mei_only (fs : list output_file) : list output_file :=
  flat_map (fun f => match f with
                     | MeiFile n d => [MeiFile n d]
                     | MensFile _ _ => []
                     end) fs.

Definition without_flat (s : state) : state :=
  set_written (mei_only (written s))
    (set_humdrum_string ["**mens"]
       (set_humdrum_line None (set_line_humdrum None s))).

(** Two flows that end the same way, in states that agree up to the flat
    encoding. *)
Definition same_mei (f g : flow) : Prop :=
  match f with
  | Next s' => g = Next (without_flat s')
  | Continue s' => g = Continue (without_flat s')
  | Abort _ => True
  end.

(** The attributes a plain note receives, in the order of the [set] calls. *)
Definition note_attributes (i dur : string) (oct : Z) (pname : string)
    (colored sharp flat : bool) : list (string * string) :=
  [(XML_ID, ("note-" ++ i)%string); ("dur", dur); ("oct", str oct); ("pname", pname)]
  ++ (if colored then [("colored", "true")] else [])
  ++ (if flat then [("accid", "f")] else if sharp then [("accid", "s")] else []).

(** The symbol whose pitch a custos on staff [ix_staff] takes: the first
    note of the next staff, when there is a next staff. *)
Definition custos_target (stafflist : list staff) (ix_staff : nat) : option symbol :=
  if (Z.of_nat ix_staff <? Z.of_nat (List.length stafflist) - 1)%Z then
    match nth_error stafflist (ix_staff + 1) with
    | Some following => find (fun sy => has_key (s_type sy) NOTES_MEI) following
    | None => None
    end
  else None.

(** The same for two steps of the symbol loop, which the loop continues
    alike after [Next] and after [Continue], and for two results. *)
Definition same_mei_step (f g : flow) : Prop :=
  match f with
  | Next s' | Continue s' =>
      g = Next (without_flat s') \/ g = Continue (without_flat s')
  | Abort _ => True
  end.

Definition same_mei_result (r r' : result state) : Prop :=
  match r with
  | Ok s' => r' = Ok (without_flat s')
  | Raise _ => True
  end.

(** What a step other than a Barline's leaves alone: the variables of the
    staff loop and the files. *)
Definition frame (s s' : state) : Prop :=
  saved s' = saved s /\ doc_no s' = doc_no s /\ first_staff s' = first_staff s /\
  initial_clef s' = initial_clef s /\ initial_key s' = initial_key s /\
  written s' = written s.

(** The number of documents a piece asks for: one for each Barline, and one
    more for what follows the last Barline when the last staff has none. *)
Definition total_bars (stafflist : list staff) : nat :=
  list_sum (map count_bars stafflist).

Definition documents_due (stafflist : list staff) : nat :=
  (total_bars stafflist
   + (if existsb is_bar (last stafflist []) then 0 else 1))%nat.

(** The files counted by kind. *)
Definition n_docs (s : state) : nat := List.length (mei_docs (written s)).
Definition n_flat (s : state) : nat := List.length (mens_files (written s)).

(** The barline that closes a staff without a Barline. *)
Definition invisible_barline (i : string) : element :=
  Elem "barLine" [(XML_ID, ("barline-" ++ i)%string); ("visible", "false")] [].

(** The attributes a mensuration sign sets, in the order of the [set]
    calls, and the line it contributes to the flat encoding, with what
    closes the parenthesis. *)
Definition mensur_attributes (i sign slash : string) : list (string * string) :=
  [(XML_ID, ("mens-" ++ i)%string); ("prolatio", "2"); ("sign", sign)]
  ++ (if slash =? "" then [] else [("slash", slash)]).

Definition mensur_line (sign slash closing : string) : string :=
  ("*met(" ++ sign ++ (if slash =? "" then "" else "|") ++ closing)%string.

(** ** Pieces the converter reads to the end *)

Definition returns {A : Type} (r : result A) : bool :=
  match r with
  | Ok _ => true
  | Raise _ => false
  end.

(** A staff that begins with the clef [c] and has a second symbol. *)
Definition headed (c : symbol) (st : staff) : bool :=
  match st with
  | s0 :: _ :: _ => symbol_eqb s0 c
  | _ => false
  end.

(** A note whose pitch resolves under the clef [c]; symbols of the other
    kinds pass. *)
Definition note_ok (c : symbol) (sym : symbol) : bool :=
  if has_key (s_type sym) NOTES_MEI
  then returns (analyse_note c (s_pitch sym))
  else true.

(** A mensuration sign: what binds [mensur]. *)
Definition is_sign (sym : symbol) : bool :=
  (s_type sym =? "mens") && negb (s_pitch sym =? "met_3_2").

(** Whether [mensur] and [humdrum_line] are bound after a symbol, given
    whether they were bound before it. *)
Definition sign_after (sign_seen : bool) (sym : symbol) : bool :=
  sign_seen || is_sign sym.

Definition line_after (humdrum line_seen : bool) (sym : symbol) : bool :=
  line_seen
  || (humdrum
      && (is_sign sym
          || has_key (s_type sym) RESTS_MEI
          || (has_key (s_type sym) NOTES_MEI && negb (s_type sym =? "li")))).

(** What one symbol needs: a mensuration sign has a known code, the
    proportion follows a sign, and, with the flat encoding on, a custos or
    a symbol of no kind the loop knows follows a symbol that produced a
    line. *)
Definition reads (humdrum : bool) (c : symbol) (sign_seen line_seen : bool)
    (sym : symbol) : bool :=
  let t := s_type sym in
  if t =? "mens" then
    if s_pitch sym =? "met_3_2" then sign_seen
    else in_list (s_pitch sym) MENSURATION_CODES
  else if symbol_eqb sym c || in_list t ["flat"; "sharp"; "dot"; "bar"]
          || has_key t RESTS_MEI || has_key t NOTES_MEI then true
  else negb humdrum || line_seen.

Fixpoint readable (humdrum : bool) (c : symbol) (sign_seen line_seen : bool)
    (syms : list symbol) : bool :=
  match syms with
  | [] => true
  | sym :: rest =>
      reads humdrum c sign_seen line_seen sym
      && readable humdrum c (sign_after sign_seen sym)
           (line_after humdrum line_seen sym) rest
  end.

(** A piece all of whose staves begin with the clef [c], a known one. *)
Definition well_formed (humdrum : bool) (c : symbol) (stafflist : list staff) : bool :=
  (s_type c =? "clef") && returns (analyse_clef c)
  && negb (List.length stafflist =? 0)%nat
  && forallb (headed c) stafflist
  && forallb (note_ok c) (concat stafflist)
  && readable humdrum c false false (concat stafflist).

(** The identifiers a piece can take: eight for the first document, three
    for each staff (clef, key signature, invisible barline) and nine for
    each symbol (a Barline and the eight of the document it opens). *)
Definition id_budget (stafflist : list staff) : nat :=
  8 + 3 * List.length stafflist + 9 * count_elements stafflist.

(** The flat buffer has a last line, and no line of it is empty. *)
Definition lines_ok (hs : list string) : Prop :=
  hs <> [] /\ Forall (fun l => l <> "") hs.

(** What is tracked along a run of a well-formed piece. *)
Definition tracked (c : symbol) (sign_seen line_seen : bool) (s : state) : Prop :=
  initial_clef s = Some (PyDict c) /\ clef s = c /\
  (sign_seen = true -> mensur s <> None) /\
  (line_seen = true -> humdrum_line s <> None) /\
  (forall l, humdrum_line s = Some l -> l <> "") /\
  lines_ok (humdrum_string s).

(** A step that lands, in a state that satisfies [P]. *)
Definition lands (P : state -> Prop) (f : flow) : Prop :=
  match f with
  | Next s' | Continue s' => P s'
  | Abort _ => False
  end.

Definition returns_in (P : state -> Prop) (r : result state) : Prop :=
  match r with
  | Ok s' => P s'
  | Raise _ => False
  end.

(** ** The state in which the symbol loop reaches a symbol *)







(** ** Identifiers of the written documents *)












(** * The pitch resolver *)

Lemma append_nonempty_differs (s t : string) : t <> "" -> (s ++ t)%string <> s.
Proof.
  intros Ht. induction s as [|c s IH]; simpl.
  - exact Ht.
  - intros H. injection H as H. exact (IH H).
Qed.

Lemma relative_step_letter (k : Z) (v : string) :
  lookupZ k RELATIVE_NOTE_STEPS = Some v -> In v DIATONIC_CYCLE.
Proof.
  unfold RELATIVE_NOTE_STEPS. simpl.
  repeat (destruct (k =? _)%Z;
          [intros H; injection H as <-; simpl; tauto|]).
  discriminate.
Qed.

(** C2, as stated, fails: the F clef on the fourth line and the lowest step
    of the table are both in the vocabulary, and the pitch computation
    raises [KeyError] instead of returning a result. *)
Lemma analyse_note_partial :
  In "c-f" CLEF_CODES /\ In "c0" STEP_CODES /\
  analyse_note (mkSymbol "clef" "c-f") "c0" = Raise (KeyError (KInt (-19))) /\
  forall r, analyse_note (mkSymbol "clef" "c-f") "c0" <> Ok r.
Proof.
  repeat split.
  - vm_compute; tauto.
  - vm_compute; tauto.
  - intros r H. vm_compute in H. discriminate.
Qed.

(** C2 (amended): for each of the 7 clef codes and each of the 21 step
    codes, with [rel] the step position minus the clef reference step: when
    [rel >= -14] the pitch computation returns the octave of the
    specification's rule and the letter [rel mod 7] of the c-d-e-f-g-a-b
    cycle; when [rel < -14] it raises [KeyError] on [rel]. *)
Theorem analyse_note_spec (clef : symbol) (pitch : string) :
  In (s_pitch clef) CLEF_CODES ->
  In pitch STEP_CODES ->
  exists clefline pitchline,
    clefline_of (s_pitch clef) = Ok (Some clefline) /\
    lookup pitch MENSURAL_NOTE_STEPS = Some pitchline /\
    let rel := (pitchline - clefline)%Z in
    ((-14 <= rel)%Z ->
       analyse_note clef pitch = Ok (spec_octave rel, spec_letter rel)) /\
    ((rel < -14)%Z ->
       analyse_note clef pitch = Raise (KeyError (KInt rel))).
Proof.
  destruct clef as [t c]. unfold CLEF_CODES, STEP_CODES. simpl.
  intros Hc Hp.
  repeat (destruct Hc as [<- | Hc]; [|]); try contradiction;
    repeat (destruct Hp as [<- | Hp]; [|]); try contradiction;
    (eexists; eexists; split; [reflexivity|]; split; [reflexivity|];
     split; intros Hrel; vm_compute in Hrel;
     first [ reflexivity
           | exfalso; apply Hrel; reflexivity
           | discriminate Hrel ]).
Qed.

Lemma analyse_note_spec_witness :
  analyse_note (mkSymbol "clef" "c-c-g") "a0" = Ok (3%Z, "d") /\
  analyse_note (mkSymbol "clef" "c-f") "e0" = Raise (KeyError (KInt (-17))).
Proof.
  destruct (analyse_note_spec (mkSymbol "clef" "c-c-g") "a0")
    as (cl & pl & Hcl & Hpl & Hin & _).
  { vm_compute; tauto. } { vm_compute; tauto. }
  destruct (analyse_note_spec (mkSymbol "clef" "c-f") "e0")
    as (cl' & pl' & Hcl' & Hpl' & _ & Hout).
  { vm_compute; tauto. } { vm_compute; tauto. }
  vm_compute in Hcl, Hpl, Hcl', Hpl'.
  injection Hcl as <-. injection Hpl as <-.
  injection Hcl' as <-. injection Hpl' as <-.
  split.
  - rewrite Hin; [reflexivity | vm_compute; discriminate].
  - rewrite Hout; [reflexivity | reflexivity].
Defined.

(** C10: whenever the pitch computation returns, the octave is one of 2, 3,
    4, 5 and the letter is one of the cycle; [get_humdrum_pitch] then
    appends a non-empty suffix made of that letter to any line, and the
    line it returns differs from the line it was given. *)
Theorem analyse_note_octave_range (clef : symbol) (pitch : string) (oct : Z)
    (pname : string) :
  analyse_note clef pitch = Ok (oct, pname) ->
  In oct [2; 3; 4; 5]%Z /\
  In pname DIATONIC_CYCLE /\
  forall line : string,
    exists suffix : string,
      suffix <> "" /\
      In suffix [(upper pname ++ upper pname)%string; upper pname; pname;
                 (pname ++ pname)%string] /\
      get_humdrum_pitch oct pname line = (line ++ suffix)%string /\
      get_humdrum_pitch oct pname line <> line.
Proof.
  unfold analyse_note. intros H.
  destruct (clefline_of (s_pitch clef)) as [cl|]; [|discriminate].
  destruct (getitem MENSURAL_NOTE_STEPS pitch) as [pl|]; [|discriminate].
  simpl in H.
  destruct cl as [cl|]; [|discriminate]. simpl in H.
  assert (Hpn : forall k o,
            (p <- getitemZ RELATIVE_NOTE_STEPS k ;; Ok (o, p)) = Ok (oct, pname) ->
            o = oct /\ In pname DIATONIC_CYCLE).
  { intros k o. unfold getitemZ.
    destruct (lookupZ k RELATIVE_NOTE_STEPS) as [v|] eqn:E; [|discriminate].
    simpl. intros Hv. injection Hv as <- <-. split; [reflexivity|].
    exact (relative_step_letter _ _ E). }
  assert (Hgoal : In oct [2; 3; 4; 5]%Z /\ In pname DIATONIC_CYCLE).
  { repeat match type of H with
    | (if ?b then _ else _) = _ => destruct b
    end; apply Hpn in H; destruct H as [<- Hin]; (split; [simpl; tauto | exact Hin]). }
  destruct Hgoal as [Hoct Hin]. split; [exact Hoct|]. split; [exact Hin|].
  intros line.
  assert (Hne : forall suffix, In suffix
            [(upper pname ++ upper pname)%string; upper pname; pname;
             (pname ++ pname)%string] -> suffix <> "").
  { simpl in Hin.
    repeat (destruct Hin as [<- | Hin]; [intros sfx Hs; simpl in Hs;
      repeat (destruct Hs as [<- | Hs]; [discriminate|]); contradiction|]).
    contradiction. }
  simpl in Hoct.
  repeat (destruct Hoct as [<- | Hoct];
    [ unfold get_humdrum_pitch; simpl;
      eexists; split; [|split; [|split; [reflexivity|]]];
      [ apply Hne | | apply append_nonempty_differs; apply Hne ];
      simpl; tauto |]).
  contradiction.
Qed.

Lemma analyse_note_octave_range_witness :
  In 5%Z [2; 3; 4; 5]%Z /\ get_humdrum_pitch 5 "d" "M" <> "M".
Proof.
  destruct (analyse_note_octave_range (mkSymbol "clef" "c-g") "d2" 5 "d")
    as (Ho & _ & Hs).
  { reflexivity. }
  split; [exact Ho|].
  destruct (Hs "M") as (sfx & _ & _ & _ & Hd). exact Hd.
Defined.

(** * The identifier allocator *)

Lemma set_add_NoDup (x : string) (l : list string) :
  NoDup l -> NoDup (set_add x l).
Proof.
  intros Hl. unfold set_add.
  destruct (existsb (String.eqb x) l) eqn:E; [exact Hl|].
  apply NoDup_rev in Hl. rewrite <- (rev_involutive (l ++ [x])).
  apply NoDup_rev. rewrite rev_app_distr. simpl. constructor; [|exact Hl].
  intros Hin. apply in_rev in Hin.
  assert (existsb (String.eqb x) l = true) as E'.
  { apply existsb_exists. exists x. split; [exact Hin | apply String.eqb_refl]. }
  congruence.
Qed.

Lemma set_add_length (x : string) (l : list string) :
  (List.length l <= List.length (set_add x l) <= S (List.length l))%nat.
Proof.
  unfold set_add. destruct (existsb (String.eqb x) l).
  - lia.
  - rewrite length_app. simpl. lia.
Qed.

Lemma generate_loop_pool (draw : nat -> string) (num_elements fuel k : nat)
    (numbers pool : list string) :
  NoDup numbers ->
  (List.length numbers <= num_elements)%nat ->
  generate_loop draw fuel k num_elements numbers = Some pool ->
  NoDup pool /\ List.length pool = num_elements.
Proof.
  revert k numbers. induction fuel as [|fuel IH]; intros k numbers Hnd Hlen; simpl.
  - destruct (Nat.ltb_spec (List.length numbers) num_elements); [discriminate|].
    intros H'. injection H' as <-. split; [exact Hnd | lia].
  - destruct (Nat.ltb_spec (List.length numbers) num_elements).
    + apply IH.
      * apply set_add_NoDup, Hnd.
      * pose proof (set_add_length (draw k) numbers). lia.
    + intros H'. injection H' as <-. split; [exact Hnd | lia].
Qed.

Lemma generate_random_numbers_pool (draw : nat -> string) (fuel n : nat)
    (pool : list string) :
  generate_random_numbers draw fuel n = Some pool ->
  NoDup pool /\ List.length pool = n.
Proof.
  apply generate_loop_pool; [constructor | simpl; lia].
Qed.

Lemma next_id_eq (ids : list string) (s : state) :
  next_id ids s =
  match nth_error ids (S (id_counter s)) with
  | Some i => Ok (i, set_id_counter (S (id_counter s)) s)
  | None => Raise IndexError
  end.
Proof.
  unfold next_id, increment_idcounter, item.
  destruct (nth_error ids (S (id_counter s))); reflexivity.
Qed.

Lemma nth_error_slice (A : Type) (l : list A) (k : nat) (x : A) :
  nth_error l k = Some x -> skipn k l = x :: skipn (S k) l.
Proof.
  revert l. induction k as [|k IH]; intros [|y l] H; try discriminate.
  - injection H as ->. reflexivity.
  - simpl in H. apply IH in H. exact H.
Qed.

(** The identifiers handed out are the pool entries that follow the
    counter, in pool order. *)
Lemma take_ids_slice (ids : list string) (n : nat) (s s' : state) (l : list string) :
  take_ids ids n s = Ok (l, s') ->
  l = firstn n (skipn (S (id_counter s)) ids) /\
  id_counter s' = (id_counter s + n)%nat.
Proof.
  revert s l. induction n as [|n IH]; intros s l; cbn [take_ids].
  - intros H. injection H as <- <-. split; [reflexivity | lia].
  - rewrite next_id_eq.
    destruct (nth_error ids (S (id_counter s))) as [i|] eqn:E;
      [|simpl; discriminate].
    cbn [bind].
    destruct (take_ids ids n (set_id_counter (S (id_counter s)) s))
      as [[l' s'']|] eqn:T; [|simpl; discriminate].
    cbn [bind]. intros H. injection H as <- <-.
    apply IH in T. cbn [id_counter set_id_counter] in T. destruct T as [-> ->].
    split; [|lia].
    rewrite (nth_error_slice _ _ _ _ E). reflexivity.
Qed.

Lemma take_ids_total (ids : list string) (n : nat) (s : state) :
  (id_counter s + n < List.length ids)%nat ->
  exists l s', take_ids ids n s = Ok (l, s').
Proof.
  revert s. induction n as [|n IH]; intros s Hlt; simpl.
  - eexists; eexists; reflexivity.
  - rewrite next_id_eq.
    destruct (nth_error ids (S (id_counter s))) as [i|] eqn:E.
    + cbn [bind].
      destruct (IH (set_id_counter (S (id_counter s)) s)) as (l & s' & ->).
      { simpl. lia. }
      cbn [bind]. eexists; eexists; reflexivity.
    + apply nth_error_None in E. lia.
Qed.

Lemma NoDup_slice (A : Type) (k n : nat) (l : list A) :
  NoDup l -> NoDup (firstn n (skipn k l)).
Proof.
  intros H.
  rewrite <- (firstn_skipn k l) in H. apply NoDup_app_remove_l in H.
  rewrite <- (firstn_skipn n (skipn k l)) in H.
  apply NoDup_app_remove_r in H. exact H.
Qed.

Lemma take_ids_length (ids : list string) (n : nat) (s s' : state) (l : list string) :
  take_ids ids n s = Ok (l, s') -> List.length l = n.
Proof.
  revert s l. induction n as [|n IH]; intros s l; simpl.
  - intros H. injection H as <- <-. reflexivity.
  - destruct (next_id ids s) as [[i s1]|]; [|simpl; discriminate]. simpl.
    destruct (take_ids ids n s1) as [[l' s2]|] eqn:T; [|simpl; discriminate].
    simpl. intros H. injection H as <- <-. simpl. f_equal. exact (IH _ _ T).
Qed.

(** The pool and the counter: a pool of [size] entries that
    [generate_random_numbers] returned ([size] is 10000 in
    [convert_to_mei_and_humdrum]) has pairwise distinct entries, and
    successive identifier requests receive the entries that
    follow the counter, in pool order: any number of requests that are
    served get pairwise distinct identifiers, the counter grows by one per
    request, and in a fresh process every run of fewer than [size] requests
    is served (entry 0 is never handed out). *)
Theorem identifiers_distinct (draw : nat -> string) (fuel size : nat)
    (pool : list string) :
  generate_random_numbers draw fuel size = Some pool ->
  (forall n s l s',
      take_ids pool n s = Ok (l, s') ->
      NoDup l /\ List.length l = n /\ id_counter s' = (id_counter s + n)%nat) /\
  (forall n, (n < size)%nat ->
      exists l s', take_ids pool n initial_state = Ok (l, s')).
Proof.
  intros Hgen. apply generate_random_numbers_pool in Hgen.
  destruct Hgen as [Hnd Hlen]. split.
  - intros n s l s' H.
    pose proof (take_ids_length _ _ _ _ _ H) as Hl.
    pose proof (take_ids_slice _ _ _ _ _ H) as [-> Hc].
    split; [apply NoDup_slice, Hnd|]. split; assumption.
  - intros n Hn. apply take_ids_total. rewrite Hlen. exact Hn.
Qed.

Lemma identifiers_distinct_witness :
  exists pool l s',
    generate_random_numbers repeating_draw 100 40 = Some pool /\
    take_ids pool 21 initial_state = Ok (l, s') /\ NoDup l.
Proof.
  destruct (generate_random_numbers repeating_draw 100 40) as [pool|] eqn:G.
  - destruct (identifiers_distinct repeating_draw 100 40 pool G) as [Hd Ht].
    destruct (Ht 21%nat) as (l & s' & T); [lia|].
    exists pool, l, s'. split; [reflexivity|]. split; [exact T|].
    exact (proj1 (Hd _ _ _ _ T)).
  - exfalso. vm_compute in G. discriminate G.
Defined.

(** * The stream transducer *)

(** Reduction of the record projections over nested field updates, and of
    the monadic glue over constructors; nothing else is unfolded. *)
Ltac st_norm :=
  cbn [id_counter used_filenames written filename_counter humdrum_string saved
       doc_no mei filename first_staff initial_clef clef initial_key sharp_found
       flat_found ligature mensur xml_lig humdrum_line line_humdrum
       set_id_counter set_used_filenames set_written set_filename_counter
       set_humdrum_string set_saved set_doc_no set_mei set_filename
       set_first_staff set_initial_clef set_clef set_initial_key set_sharp_found
       set_flat_found set_ligature set_mensur set_xml_lig set_humdrum_line
       set_line_humdrum
       d_head d_mdiv d_score d_scoreDef d_staffGrp d_staffDef d_section d_staff
       d_layer xml_clef xml_keySign xml_layer set_xml_clef set_xml_keySign
       set_xml_layer layer set_layer append_lines
       bind try and_then local fst snd negb andb orb].

Tactic Notation "st_norm" "in" hyp(H) :=
  cbn [id_counter used_filenames written filename_counter humdrum_string saved
       doc_no mei filename first_staff initial_clef clef initial_key sharp_found
       flat_found ligature mensur xml_lig humdrum_line line_humdrum
       set_id_counter set_used_filenames set_written set_filename_counter
       set_humdrum_string set_saved set_doc_no set_mei set_filename
       set_first_staff set_initial_clef set_clef set_initial_key set_sharp_found
       set_flat_found set_ligature set_mensur set_xml_lig set_humdrum_line
       set_line_humdrum
       d_head d_mdiv d_score d_scoreDef d_staffGrp d_staffDef d_section d_staff
       d_layer xml_clef xml_keySign xml_layer set_xml_clef set_xml_keySign
       set_xml_layer layer set_layer append_lines
       bind try and_then local fst snd negb andb orb] in H.

(** ** Steps that cannot fail while identifiers remain *)

Lemma next_id_ok (ids : list string) (s : state) :
  (S (id_counter s) < List.length ids)%nat ->
  exists i, next_id ids s = Ok (i, set_id_counter (S (id_counter s)) s).
Proof.
  intros H. rewrite next_id_eq.
  destruct (nth_error ids (S (id_counter s))) as [i|] eqn:E.
  - exists i. reflexivity.
  - apply nth_error_None in E. lia.
Qed.

Lemma metadata_get_ok (metadata : list string) (i : nat) :
  (i < List.length metadata)%nat ->
  exists l, metadata_get metadata i = Ok l.
Proof.
  intros H. unfold metadata_get.
  destruct (nth_error metadata i) as [l|] eqn:E.
  - exists l. reflexivity.
  - apply nth_error_None in E. lia.
Qed.

Lemma set_id_counter_twice (a b : nat) (s : state) :
  set_id_counter a (set_id_counter b s) = set_id_counter a s.
Proof. reflexivity. Qed.

Lemma create_mei_declarations_ok (ids : list string) (head : element) (s : state) :
  (id_counter s + 8 < List.length ids)%nat ->
  exists d,
    create_mei_declarations ids head s
      = Ok (d, set_id_counter (id_counter s + 8) s) /\
    d_head d = head /\
    xml_clef d = [] /\ xml_keySign d = [] /\ xml_layer d = [].
Proof.
  intros H.
  assert (G : match create_mei_declarations ids head s with
              | Ok (d, s') =>
                  s' = set_id_counter (id_counter s + 8) s /\
                  d_head d = head /\
                  xml_clef d = [] /\ xml_keySign d = [] /\ xml_layer d = []
              | Raise _ => False
              end).
  { unfold create_mei_declarations.
    repeat match goal with
    | |- context [next_id ids ?st] =>
        let i := fresh "i" in
        destruct (next_id_ok ids st) as [i ->]; [st_norm; lia|]; st_norm
    end.
    split; [|repeat split].
    rewrite !set_id_counter_twice. f_equal. lia. }
  destruct (create_mei_declarations ids head s) as [[d s']|]; [|contradiction].
  destruct G as (-> & G). exists d. split; [reflexivity | exact G].
Qed.

(** Evaluation of the tests and table lookups whose arguments are literals. *)
Ltac eval_tests :=
  repeat match goal with
  | |- context [String.eqb ?a ?b] =>
      let v := eval vm_compute in (String.eqb a b) in
      match v with
      | true => change (String.eqb a b) with true
      | false => change (String.eqb a b) with false
      end
  | |- context [has_key ?k ?d] =>
      let v := eval vm_compute in (has_key k d) in
      match v with
      | true => change (has_key k d) with true
      | false => change (has_key k d) with false
      end
  | |- context [@getitem string ?d ?k] =>
      let v := eval vm_compute in (@getitem string d k) in
      match v with
      | Ok _ => change (@getitem string d k) with v
      end
  end.

Lemma edit_nth_snoc (f : element -> element) (l : list element) (x : element) :
  edit_nth (List.length l) f (l ++ [x]) = l ++ [f x].
Proof. induction l as [|y l IH]; simpl; [reflexivity | rewrite IH; reflexivity]. Qed.

Lemma edit_last_snoc (f : element -> element) (l : list element) (x : element) :
  edit_last f (l ++ [x]) = l ++ [f x].
Proof.
  unfold edit_last. rewrite length_app. simpl.
  replace (List.length l + 1 - 1)%nat with (List.length l) by lia.
  apply edit_nth_snoc.
Qed.

Lemma rev_snoc2 (A : Type) (l : list A) (x y : A) :
  rev ((l ++ [x]) ++ [y]) = y :: x :: rev l.
Proof. rewrite !rev_unit. reflexivity. Qed.

Lemma length_snoc_pred (A : Type) (l : list A) (x : A) :
  (List.length (l ++ [x]) - 1)%nat = List.length l.
Proof. rewrite length_app. simpl. lia. Qed.

Lemma keeps_refl (hs : list string) : keeps_declaration hs hs.
Proof. intros x l ->. eexists; eexists; reflexivity. Qed.

Lemma keeps_app (hs hs' more : list string) :
  keeps_declaration hs hs' -> keeps_declaration hs (hs' ++ more).
Proof.
  intros H x l E. destruct (H x l E) as (x' & l' & ->).
  eexists; eexists; reflexivity.
Qed.

Lemma keeps_set_last (hs hs' hs'' : list string) (v : string) :
  set_last v hs' = Ok hs'' ->
  keeps_declaration hs hs' -> keeps_declaration hs hs''.
Proof.
  intros Hset H x l E. destruct (H x l E) as (x' & l' & ->).
  unfold set_last in Hset. cbn [rev] in Hset.
  destruct (rev l') as [|y r] eqn:R.
  - cbn in Hset. injection Hset as <-. eexists; eexists; reflexivity.
  - cbn [app] in Hset. injection Hset as <-.
    rewrite !rev_app_distr. cbn [rev app].
    destruct (rev r); eexists; eexists; cbn [rev app];
      rewrite <- ?app_assoc; cbn [app]; reflexivity.
Qed.

(** Case analysis on the innermost [match] of a hypothesis. *)
Ltac break_inner H :=
  match type of H with
  | context [match ?x with _ => _ end] =>
      lazymatch x with
      | context [match _ with _ => _ end] => fail
      | _ => destruct x eqn:?
      end
  end.

Ltac st_lazy H :=
  lazy beta iota zeta delta
    [id_counter used_filenames written filename_counter humdrum_string saved
     doc_no mei filename first_staff initial_clef clef initial_key sharp_found
     flat_found ligature mensur xml_lig humdrum_line line_humdrum
     set_id_counter set_used_filenames set_written set_filename_counter
     set_humdrum_string set_saved set_doc_no set_mei set_filename
     set_first_staff set_initial_clef set_clef set_initial_key set_sharp_found
     set_flat_found set_ligature set_mensur set_xml_lig set_humdrum_line
     set_line_humdrum
     d_head d_mdiv d_score d_scoreDef d_staffGrp d_staffDef d_section d_staff
     d_layer xml_clef xml_keySign xml_layer set_xml_clef set_xml_keySign
     set_xml_layer layer set_layer append_lines
     bind try and_then local fst snd negb andb orb] in H.

Ltac break_flow H :=
  repeat (st_lazy H; rewrite ?next_id_eq in H;
          first [ discriminate H | break_inner H ]).

Ltac keeps_solve :=
  repeat apply keeps_app;
  first [ apply keeps_refl
        | eapply keeps_set_last; [eassumption | keeps_solve] ].

Ltac quiet_solve :=
  unfold quiet, same_writer; st_norm;
  (split; [repeat split | keeps_solve]).

Ltac core_solve :=
  let Hinv := fresh "Hinv" in
  let c := fresh "c" in
  let Hic := fresh "Hic" in
  let Hc := fresh "Hc" in
  let Hct := fresh "Hct" in
  let Hkey := fresh "Hkey" in
  let Hlig := fresh "Hlig" in
  let Hsaved := fresh "Hsaved" in
  let Hl := fresh "Hl" in
  let Hh := fresh "Hh" in
  intros Hinv;
  destruct Hinv as ((c & Hic & Hc & Hct) & Hkey & Hlig & Hsaved);
  unfold ligature_ready in Hlig;
  unfold holds_after, core_inv, clef_resolved, key_resolved, ligature_ready;
  st_norm;
  (split; [exists c; repeat split; assumption|]);
  (split; [exact Hkey|]);
  (split; [|first [exact Hsaved | discriminate]]);
  intros Hl;
  first
    [ discriminate Hl
    | congruence
    | split;
      [ first [discriminate | exact (proj1 (Hlig Hl)) | apply Hlig; congruence]
      | intros Hh;
        first [ discriminate Hh | discriminate | exact (proj2 (Hlig Hl) Hh)
              | apply Hlig; congruence ] ] ].

(** The primitives raise [KeyError], [IndexError] or [UnboundLocalError]
    only. *)
Ltac no_exit_prim H :=
  repeat (cbv beta iota delta [bind local getitem getitemZ item] in H;
          first [ discriminate H | contradiction | exact H | break_inner H ]).

Lemma item_no_exit (A : Type) (l : list A) (i : nat) : ~ raises_exit (item l i).
Proof. unfold item. destruct (nth_error l i); exact (fun H => H). Qed.

Lemma getitem_no_exit (V : Type) (d : list (string * V)) (k : string) :
  ~ raises_exit (getitem d k).
Proof. unfold getitem. destruct (lookup k d); exact (fun H => H). Qed.

Lemma metadata_get_no_exit (metadata : list string) (i : nat) :
  ~ raises_exit (metadata_get metadata i).
Proof. unfold metadata_get. destruct (nth_error metadata i); exact (fun H => H). Qed.

Lemma last_item_no_exit (A : Type) (l : list A) : ~ raises_exit (last_item l).
Proof. unfold last_item. destruct (rev l); exact (fun H => H). Qed.

Lemma set_last_no_exit (A : Type) (v : A) (l : list A) : ~ raises_exit (set_last v l).
Proof. unfold set_last. destruct (rev l); exact (fun H => H). Qed.

Lemma analyse_clef_no_exit (c : symbol) : ~ raises_exit (analyse_clef c).
Proof.
  unfold analyse_clef, local.
  repeat match goal with
  | |- context [if ?b then _ else _] => destruct b
  end; exact (fun H => H).
Qed.

Lemma analyse_mensuration_no_exit (c : symbol) : ~ raises_exit (analyse_mensuration c).
Proof.
  unfold analyse_mensuration, local.
  repeat match goal with
  | |- context [if ?b then _ else _] => destruct b
  end; exact (fun H => H).
Qed.

Lemma analyse_note_no_exit (c : symbol) (p : string) : ~ raises_exit (analyse_note c p).
Proof.
  intros H. unfold analyse_note, clefline_of, raises_exit in H.
  no_exit_prim H.
Qed.

Lemma save_mei_file_no_exit (metadata : list string) (fc : Z) (ix : nat)
    (doc : document) (fn : string) (n : nat) (hs : list string) (humdrum : bool)
    (used : list string) (files : list output_file) :
  ~ raises_exit (save_mei_file metadata fc ix doc fn n hs humdrum used files).
Proof.
  intros H. unfold save_mei_file, raises_exit in H.
  destruct (metadata_get metadata ix) as [l|e] eqn:E1;
    destruct (metadata_get metadata (ix + 1)) as [l'|e'] eqn:E2;
    pose proof (metadata_get_no_exit metadata ix) as N1;
    pose proof (metadata_get_no_exit metadata (ix + 1)) as N2;
    rewrite ?E1 in N1; rewrite ?E2 in N2; unfold raises_exit in N1, N2;
    destruct (negb (existsb (String.eqb fn) used));
    destruct (negb (Z.of_nat ix =? Z.of_nat n - 1)%Z);
    cbn [bind] in H; try contradiction; try (destruct e; contradiction);
    try (destruct e'; contradiction).
Qed.

Ltac exit_prim :=
  match goal with
  | E : ?r = Raise (SystemExit _) |- _ =>
      let R := fresh "R" in
      assert (R : raises_exit r) by (rewrite E; exact I);
      revert R;
      first [ apply analyse_note_no_exit | apply getitem_no_exit
            | apply item_no_exit | apply metadata_get_no_exit
            | apply last_item_no_exit | apply set_last_no_exit
            | apply analyse_clef_no_exit | apply analyse_mensuration_no_exit
            | apply save_mei_file_no_exit ]
  end.

Ltac no_exit_solve :=
  let X := fresh "X" in
  unfold aborts_exit; intros X;
  first
    [ exact X
    | match type of X with
      | match ?e with _ => _ end => destruct e; first [exact X | exit_prim]
      end ].

(** One pass over a block: every way it can end is examined once. *)
Ltac block_cases H :=
  break_flow H; subst; unfold block_ok;
  first [ split; [exact I | split; [exact (fun _ => I) | no_exit_solve]]
        | split; [quiet_solve | split; [core_solve | exact (fun X => X)]] ].

Section Steps.

Variable ids : list string.
Variable isodate : nat -> string.
Variable humdrum : bool.
Variable stafflist : list staff.
Variable metadata : list string.

Lemma sub_element_ok (tag prefix : string) (kvs : list (string * string)) (s : state) :
  (S (id_counter s) < List.length ids)%nat ->
  exists i,
    sub_element ids tag prefix kvs s
    = Ok (set_layer
            (layer s ++ [new_elem tag ((XML_ID, (prefix ++ "-" ++ i)%string) :: kvs)])
            (set_id_counter (S (id_counter s)) s)).
Proof.
  intros H. unfold sub_element.
  destruct (next_id_ok ids s H) as [i ->]. exists i. reflexivity.
Qed.

(** The files a successful [save_mei_file] adds: the document, and the flat
    buffer when the flat encoding is requested. *)
Lemma save_ok (ix_staff : nat) (s : state) :
  List.length metadata = List.length stafflist ->
  (ix_staff < List.length stafflist)%nat ->
  exists fn fc used save_name,
    save humdrum stafflist metadata ix_staff s
    = Ok (set_filename fn (set_filename_counter fc (set_used_filenames used
            (set_written
               (written s ++ MeiFile save_name (mei s) ::
                  (if humdrum
                   then [MensFile (drop_last 3 save_name ++ ".mens")%string
                           (humdrum_string s)]
                   else []))
               s)))).
Proof.
  intros Hlen Hix. unfold save, save_mei_file.
  destruct (metadata_get_ok metadata ix_staff) as [label Hlabel]; [lia|].
  assert (Hnext : exists fn,
            (if negb (Z.of_nat ix_staff =? Z.of_nat (List.length stafflist) - 1)%Z
             then metadata_get metadata (ix_staff + 1)
             else Ok (filename s)) = Ok fn).
  { destruct (Z.eqb_spec (Z.of_nat ix_staff) (Z.of_nat (List.length stafflist) - 1)).
    - exists (filename s). reflexivity.
    - destruct (metadata_get_ok metadata (ix_staff + 1)) as [l Hl]; [lia|].
      exists l. exact Hl. }
  destruct Hnext as [fn Hnext].
  destruct (existsb (String.eqb (filename s)) (used_filenames s)); cbn [negb].
  - cbn [bind]. rewrite Hnext. cbn [bind].
    do 4 eexists. destruct humdrum; rewrite <- ?app_assoc; reflexivity.
  - rewrite Hlabel. cbn [bind]. rewrite Hnext. cbn [bind].
    do 4 eexists. destruct humdrum; rewrite <- ?app_assoc; reflexivity.
Qed.

(** A symbol that is neither the clef nor of the key's type reaches the
    dispatch on its kind. *)
Lemma begin_staff_resets (ix_staff : nat) (st : staff) (s s' : state) :
  begin_staff ids isodate humdrum stafflist metadata ix_staff st s = Ok s' ->
  sharp_found s' = false /\ flat_found s' = false /\ ligature s' = false.
Proof.
  unfold begin_staff.
  destruct (if (ix_staff =? 0)%nat then _ else _) as [s1|]; [|discriminate].
  cbn [bind]. destruct (resolve_clef _ _ _ _ _) as [s2|]; [|discriminate].
  cbn [bind]. intros H. injection H as <-. repeat split.
Qed.

(** C3 (amended): processing a Barline symbol appends a double barline,
    finalizes exactly one document - the current one - and opens a document
    whose layer, clef and key signature are empty, so it has no mensuration
    element; the step leaves the clef, the key, the mensuration reference
    and the pending sharp, flat and ligature flags as they were. The flags
    are reset at the top of each staff, hence after a Barline only when it
    is the last symbol of its staff. *)
Theorem barline_finalizes (ix_staff ix_symbol : nat) (sym : symbol) (s : state) :
  loop_inv humdrum s ->
  s_type sym = "bar" ->
  (id_counter s + 9 < List.length ids)%nat ->
  List.length metadata = List.length stafflist ->
  (ix_staff < List.length stafflist)%nat ->
  (exists s' save_name bar,
     process_symbol ids isodate humdrum stafflist metadata ix_staff ix_symbol sym s
       = Continue s' /\
     elem_tag bar = "barLine" /\ attr "form" bar = Some "dbl" /\
     mei_docs (written s')
       = mei_docs (written s) ++ [set_xml_layer (layer s ++ [bar]) (mei s)] /\
     mei_names (written s') = mei_names (written s) ++ [save_name] /\
     layer s' = [] /\ xml_clef (mei s') = [] /\ xml_keySign (mei s') = [] /\
     doc_no s' = S (doc_no s) /\
     clef s' = clef s /\ initial_clef s' = initial_clef s /\
     initial_key s' = initial_key s /\ mensur s' = mensur s /\
     sharp_found s' = sharp_found s /\ flat_found s' = flat_found s /\
     ligature s' = ligature s /\
     first_staff s' = true /\ saved s' = Some true) /\
  (forall ix st s1 s2,
     begin_staff ids isodate humdrum stafflist metadata ix st s1 = Ok s2 ->
     sharp_found s2 = false /\ flat_found s2 = false /\ ligature s2 = false).
Proof.
  intros ((c & Hic & Hc & Hct) & Hkey & _) Ht Hids Hmeta Hix.
  split; [|intros ix st s1 s2; apply begin_staff_resets].
  destruct sym as [t p]. cbn in Ht. subst t.
  unfold process_symbol. rewrite Hic. st_norm.
  unfold symbol_eqb. cbn [s_type s_pitch]. rewrite Hct. eval_tests. st_norm.
  assert (Hk : ("bar" =? initial_key s) = false).
  { destruct Hkey as [-> | ->]; reflexivity. }
  rewrite Hk. st_norm.
  unfold mens_block, dot_block, rest_block, note_block, bar_block.
  cbn [s_type s_pitch]. eval_tests. st_norm.
  destruct (sub_element_ok "barLine" "barline" [("form", "dbl")] s) as [i ->];
    [lia|]. st_norm.
  match goal with
  | |- context [save _ _ _ _ ?st] =>
      destruct (save_ok ix_staff st Hmeta Hix) as (fn & fc & used & name & ->)
  end.
  st_norm. unfold new_document.
  match goal with
  | |- context [create_mei_declarations ids ?h ?st] =>
      destruct (create_mei_declarations_ok ids h st)
        as (d & -> & _ & Hd1 & Hd2 & Hd3);
        [destruct humdrum; st_norm; lia|]
  end.
  destruct d as [dh d1 d2 d3 d4 d5 d6 d7 d8 dc dk dl].
  cbn in Hd1, Hd2, Hd3. subst dc dk dl.
  st_norm.
  eexists. exists name.
  exists (new_elem "barLine"
            [(XML_ID, ("barline" ++ "-" ++ i)%string); ("form", "dbl")]).
  split; [reflexivity|].
  st_norm.
  split; [reflexivity|]. split; [reflexivity|].
  unfold mei_docs, mei_names. rewrite !flat_map_app.
  destruct humdrum; st_norm; cbn [flat_map app]; repeat split;
    auto using app_nil_r.
Qed.

(** The step on a Flat of the key: in a state whose key variable is one
    flat, a Flat symbol at index 1 and, under the clef code ["c-c-g"], a
    Flat symbol at index 2, is skipped: the step is a [continue] that leaves the
    whole state as it was, so no element and no line is emitted and the
    flat-pending flag is not set. *)
Theorem initial_flat_skipped (ix_staff ix_symbol : nat) (sym : symbol) (s : state) :
  clef_resolved s ->
  initial_key s = "flat" ->
  s_type sym = "flat" ->
  ix_symbol = 1%nat \/ (ix_symbol = 2%nat /\ s_pitch (clef s) = "c-c-g") ->
  process_symbol ids isodate humdrum stafflist metadata ix_staff ix_symbol sym s
    = Continue s.
Proof.
  intros (c & Hic & Hc & Hct) Hkey Ht Hix.
  destruct sym as [t p]. cbn in Ht. subst t.
  unfold process_symbol. rewrite Hic. st_norm.
  unfold symbol_eqb. cbn [s_type s_pitch]. rewrite Hct, Hkey. eval_tests.
  st_norm.
  destruct Hix as [-> | [-> Hcode]].
  - reflexivity.
  - rewrite Hcode. reflexivity.
Qed.

(** The first note of a ligature: the note is wrapped in a new ligature
    element, which becomes the last child of the layer. *)
Lemma ligature_opens (ix_staff ix_symbol : nat) (P : string) (s : state)
    (o1 : Z) (p1 : string) :
  loop_inv humdrum s ->
  analyse_note (clef s) P = Ok (o1, p1) ->
  (id_counter s + 2 < List.length ids)%nat ->
  exists s1 i1 i2,
    process_symbol ids isodate humdrum stafflist metadata ix_staff ix_symbol
      (Note "li" P) s = Continue s1 /\
    layer s1 = layer s ++
      [Elem "ligature" [(XML_ID, ("ligature-" ++ i2)%string); ("form", "recta")]
         [Elem "note" [(XML_ID, ("note-" ++ i1)%string); ("dur", "semibrevis");
                       ("oct", str o1); ("pname", p1)] []]] /\
    xml_lig s1 = Some (doc_no s, List.length (layer s)) /\
    ligature s1 = true /\
    id_counter s1 = (id_counter s + 2)%nat /\
    doc_no s1 = doc_no s /\
    loop_inv humdrum s1 /\
    clef s1 = clef s /\
    sharp_found s1 = sharp_found s /\ flat_found s1 = flat_found s.
Proof.
  intros Hinv Hnote Hids.
  destruct Hinv as ((c & Hic & Hc & Hct) & Hkey & Hlig & Hdecl & Hsaved).
  unfold Note, process_symbol. rewrite Hic. st_norm.
  unfold symbol_eqb. cbn [s_type s_pitch]. rewrite Hct. eval_tests. st_norm.
  assert (Hk : ("li" =? initial_key s) = false).
  { destruct Hkey as [-> | ->]; reflexivity. }
  rewrite Hk. st_norm.
  unfold mens_block, dot_block, rest_block, note_block.
  cbn [s_type s_pitch]. eval_tests. st_norm. rewrite Hnote. st_norm.
  destruct (sub_element_ok "note" "note" [] s) as [i1 ->]; [lia|]. st_norm.
  rewrite !edit_last_snoc.
  assert (Hlh : humdrum = true -> ligature s = true ->
                exists lh, line_humdrum s = Some lh).
  { intros Hh Hl. destruct (Hlig Hl) as [_ H']. specialize (H' Hh).
    destruct (line_humdrum s) as [lh|]; [exists lh; reflexivity | congruence]. }
  destruct humdrum eqn:Hh; destruct (ligature s) eqn:Hl; cbn [andb negb]; st_norm;
    try (destruct (Hlh eq_refl eq_refl) as [lh ->]; st_norm);
    match goal with
    | |- context [sub_element ids ?t ?pf ?k ?st] =>
        destruct (sub_element_ok t pf k st) as [i2 ->]; [st_norm; lia|]
    end;
    st_norm; rewrite rev_snoc2, rev_involutive, length_snoc_pred; st_norm;
    (eexists; exists i1, i2; split; [reflexivity|]; st_norm;
     split; [reflexivity|]; split; [reflexivity|]; split; [reflexivity|];
     split; [lia|]; split; [reflexivity|];
     split; [|repeat split]).
  all: unfold loop_inv, clef_resolved, key_resolved, ligature_ready, declared;
    st_norm;
    (split; [exists c; auto|]); (split; [exact Hkey|]);
    (split; [intros _; split;
               [discriminate | intros H; first [discriminate H | discriminate]]|]);
    (split; [|exact Hsaved]).
  all: try (intros H'; discriminate H').
  all: intros _; destruct (Hdecl eq_refl) as (x & l & ->);
    eexists; eexists; cbn [app]; reflexivity.
Qed.

(** The note that follows: whatever its kind (other than ["li"]), it gets
    the duration "semibrevis" and becomes the second child of the open
    ligature, which closes. *)
Lemma ligature_closes (ix_staff ix_symbol : nat) (K Q : string) (s1 : state)
    (o2 : Z) (p2 : string) (L : list element) (lt : string)
    (la : list (string * string)) (lc : list element) :
  loop_inv humdrum s1 ->
  In K (map fst NOTES_MEI) -> K <> "li" ->
  analyse_note (clef s1) Q = Ok (o2, p2) ->
  (S (id_counter s1) < List.length ids)%nat ->
  ligature s1 = true ->
  xml_lig s1 = Some (doc_no s1, List.length L) ->
  layer s1 = L ++ [Elem lt la lc] ->
  exists s2 n2,
    process_symbol ids isodate humdrum stafflist metadata ix_staff ix_symbol
      (Note K Q) s1 = Next s2 /\
    layer s2 = L ++ [Elem lt la (lc ++ [n2])] /\
    elem_tag n2 = "note" /\ attr "dur" n2 = Some "semibrevis" /\
    ligature s2 = false.
Proof.
  intros Hinv HK Hnli Hnote Hids Hopen Hlig Hlayer.
  destruct Hinv as ((c & Hic & Hc & Hct) & Hkey & Hready & _ & _).
  assert (Hlh : humdrum = true -> exists lh, line_humdrum s1 = Some lh).
  { intros Hh. destruct (Hready Hopen) as [_ H']. specialize (H' Hh).
    destruct (line_humdrum s1) as [lh|]; [exists lh; reflexivity | congruence]. }
  clear Hready.
  destruct s1 as [idc used wr fc hs sv dn [dh d1 d2 d3 d4 d5 d6 d7 d8 dc dk dl]
                  fn fs ic cl ik sh fl lg me xl hl lh0].
  cbn in Hic, Hc, Hct, Hkey, Hnote, Hids, Hopen, Hlig, Hlayer, Hlh.
  subst ic cl lg xl dl.
  assert (Hk : (K =? ik) = false).
  { unfold key_resolved in Hkey. cbn in Hkey. cbn in HK.
    destruct Hkey as [-> | ->];
      repeat (destruct HK as [<- | HK]; [reflexivity|]); contradiction. }
  cbn in HK.
  repeat (destruct HK as [<- | HK];
    [try (exfalso; apply Hnli; reflexivity)|]); try contradiction.
  all: clear Hnli.
  all: unfold Note, process_symbol; st_norm;
    unfold symbol_eqb; cbn [s_type s_pitch]; rewrite Hct, Hk; eval_tests; st_norm.
  all: unfold mens_block, dot_block, rest_block, note_block, bar_block,
         custos_block, emit_line;
    cbn [s_type s_pitch]; eval_tests; st_norm; rewrite Hnote; st_norm.
  all: match goal with
       | |- context [sub_element ids ?t ?pf ?k ?st] =>
           destruct (sub_element_ok t pf k st) as [i ->]; [st_norm; lia|]
       end; st_norm; rewrite ?edit_last_snoc.
  all: destruct humdrum; [destruct (Hlh eq_refl) as [lh ->]|]; st_norm;
    eval_tests; st_norm; rewrite ?edit_last_snoc;
    unfold move_note_to_ligature; st_norm;
    rewrite rev_unit; st_norm.
  all: destruct sh; destruct fl;
    repeat (st_norm; cbn [elem_append rev];
            first [ rewrite rev_involutive | rewrite Nat.eqb_refl
                  | rewrite edit_nth_snoc | rewrite edit_last_snoc
                  | progress unfold edit_note ]).
  all: st_norm;
    try match goal with
        | |- context [contains ?a ?b] => destruct (contains a b)
        end;
    eexists; eexists; (split; [reflexivity|]); st_norm;
    (split; [reflexivity|]); (split; [reflexivity|]); split; reflexivity.
Qed.

(** C7 (amended): for two adjacent symbols [Note("li", P)] and
    [Note(K, Q)] of a staff, with [K] any note kind other than ["li"], the
    two steps add exactly one element to the layer, a ligature element with
    exactly two children, both notes, and the second note has the duration
    "semibrevis"; the ligature is closed afterwards. *)
Theorem ligature_pair (ix_staff ix_symbol : nat) (P Q K : string) (s : state)
    (o1 o2 : Z) (p1 p2 : string) :
  loop_inv humdrum s ->
  In K (map fst NOTES_MEI) -> K <> "li" ->
  analyse_note (clef s) P = Ok (o1, p1) ->
  analyse_note (clef s) Q = Ok (o2, p2) ->
  (id_counter s + 3 < List.length ids)%nat ->
  exists s1 s2 lig n1 n2,
    process_symbol ids isodate humdrum stafflist metadata ix_staff ix_symbol
      (Note "li" P) s = Continue s1 /\
    process_symbol ids isodate humdrum stafflist metadata ix_staff (S ix_symbol)
      (Note K Q) s1 = Next s2 /\
    layer s2 = layer s ++ [lig] /\
    elem_tag lig = "ligature" /\
    elem_children lig = [n1; n2] /\
    elem_tag n1 = "note" /\ elem_tag n2 = "note" /\
    attr "dur" n2 = Some "semibrevis" /\
    ligature s2 = false.
Proof.
  intros Hinv HK Hnli HP HQ Hids.
  destruct (ligature_opens ix_staff ix_symbol P s o1 p1 Hinv HP)
    as (s1 & i1 & i2 & Hstep1 & Hlayer1 & Hlig1 & Hopen1 & Hc1 & Hdn1 & Hinv1
        & Hclef1 & _); [lia|].
  rewrite <- Hclef1 in HQ. rewrite <- Hdn1 in Hlig1.
  assert (Hids1 : (S (id_counter s1) < List.length ids)%nat) by lia.
  destruct (ligature_closes ix_staff (S ix_symbol) K Q s1 o2 p2 _ _ _ _
              Hinv1 HK Hnli HQ Hids1 Hopen1 Hlig1 Hlayer1)
    as (s2 & n2 & Hstep2 & Hlayer2 & Htag2 & Hdur2 & Hclosed).
  exists s1, s2. eexists. eexists. exists n2.
  split; [exact Hstep1|]. split; [exact Hstep2|].
  split; [exact Hlayer2|]. cbn [elem_tag elem_children app].
  repeat split; assumption.
Qed.

(** ** What each block does to the writer and to the flat buffer *)

Lemma note_block_ok (sym : symbol) (s : state) :
  block_ok humdrum s (note_block ids humdrum sym s).
Proof.
  remember (note_block ids humdrum sym s) as f eqn:H. symmetry in H.
  unfold note_block, sub_element, move_note_to_ligature, edit_note in H. block_cases H.
Qed.

Lemma note_block_quiet (sym : symbol) (s : state) :
  quiet humdrum s (note_block ids humdrum sym s).
Proof. exact (proj1 (note_block_ok sym s)). Qed.

Lemma note_block_core (sym : symbol) (s : state) :
  core_inv humdrum s ->
  holds_after (core_inv humdrum) (note_block ids humdrum sym s).
Proof. exact (proj1 (proj2 (note_block_ok sym s))). Qed.

Lemma mens_block_ok (sym : symbol) (s : state) :
  block_ok humdrum s (mens_block ids humdrum sym s).
Proof.
  remember (mens_block ids humdrum sym s) as f eqn:H. symmetry in H.
  unfold mens_block, sub_element, last_item in H. block_cases H.
Qed.

Lemma mens_block_quiet (sym : symbol) (s : state) :
  quiet humdrum s (mens_block ids humdrum sym s).
Proof. exact (proj1 (mens_block_ok sym s)). Qed.

Lemma mens_block_core (sym : symbol) (s : state) :
  core_inv humdrum s ->
  holds_after (core_inv humdrum) (mens_block ids humdrum sym s).
Proof. exact (proj1 (proj2 (mens_block_ok sym s))). Qed.

Lemma dot_block_ok (sym : symbol) (s : state) :
  block_ok humdrum s (dot_block ids humdrum sym s).
Proof.
  remember (dot_block ids humdrum sym s) as f eqn:H. symmetry in H.
  unfold dot_block, sub_element, last_item in H. block_cases H.
Qed.

Lemma dot_block_quiet (sym : symbol) (s : state) :
  quiet humdrum s (dot_block ids humdrum sym s).
Proof. exact (proj1 (dot_block_ok sym s)). Qed.

Lemma dot_block_core (sym : symbol) (s : state) :
  core_inv humdrum s ->
  holds_after (core_inv humdrum) (dot_block ids humdrum sym s).
Proof. exact (proj1 (proj2 (dot_block_ok sym s))). Qed.

Lemma rest_block_ok (sym : symbol) (s : state) :
  block_ok humdrum s (rest_block ids humdrum sym s).
Proof.
  remember (rest_block ids humdrum sym s) as f eqn:H. symmetry in H.
  unfold rest_block, sub_element in H. block_cases H.
Qed.

Lemma rest_block_quiet (sym : symbol) (s : state) :
  quiet humdrum s (rest_block ids humdrum sym s).
Proof. exact (proj1 (rest_block_ok sym s)). Qed.

Lemma rest_block_core (sym : symbol) (s : state) :
  core_inv humdrum s ->
  holds_after (core_inv humdrum) (rest_block ids humdrum sym s).
Proof. exact (proj1 (proj2 (rest_block_ok sym s))). Qed.

Lemma custos_block_ok (ix_staff : nat) (sym : symbol) (s : state) :
  block_ok humdrum s (custos_block ids humdrum stafflist ix_staff sym s).
Proof.
  remember (custos_block ids humdrum stafflist ix_staff sym s) as f eqn:H. symmetry in H.
  unfold custos_block, sub_element in H. block_cases H.
Qed.

Lemma custos_block_quiet (ix_staff : nat) (sym : symbol) (s : state) :
  quiet humdrum s (custos_block ids humdrum stafflist ix_staff sym s).
Proof. exact (proj1 (custos_block_ok ix_staff sym s)). Qed.

Lemma custos_block_core (ix_staff : nat) (sym : symbol) (s : state) :
  core_inv humdrum s ->
  holds_after (core_inv humdrum) (custos_block ids humdrum stafflist ix_staff sym s).
Proof. exact (proj1 (proj2 (custos_block_ok ix_staff sym s))). Qed.

Lemma emit_line_ok (s : state) :
  block_ok humdrum s (emit_line humdrum s).
Proof.
  remember (emit_line humdrum s) as f eqn:H. symmetry in H.
  unfold emit_line in H. block_cases H.
Qed.

Lemma emit_line_quiet (s : state) :
  quiet humdrum s (emit_line humdrum s).
Proof. exact (proj1 (emit_line_ok s)). Qed.

Lemma emit_line_core (s : state) :
  core_inv humdrum s ->
  holds_after (core_inv humdrum) (emit_line humdrum s).
Proof. exact (proj1 (proj2 (emit_line_ok s))). Qed.

Lemma bar_block_effect (ix_staff : nat) (sym : symbol) (s : state) :
  step_effect humdrum metadata (List.length stafflist) ix_staff s
    (bar_block ids isodate humdrum stafflist metadata ix_staff sym s).
Proof.
  destruct (bar_block ids isodate humdrum stafflist metadata ix_staff sym s)
    as [s'|s'|e] eqn:H; [| |exact I];
    unfold bar_block, sub_element, save, new_document,
      create_mei_declarations in H;
    break_flow H; injection H as <-; unfold step_effect.
  - left. split; [repeat split | apply keeps_refl].
  - right. unfold finalizes. st_norm. eexists. exists (humdrum_string s).
    split; [apply keeps_refl|]. split; [reflexivity | eassumption].
  - right. unfold finalizes. st_norm. eexists. exists (humdrum_string s).
    split; [apply keeps_refl|]. split; [reflexivity | eassumption].
Qed.

Lemma same_writer_trans (a b c : state) :
  same_writer a b -> same_writer b c -> same_writer a c.
Proof.
  unfold same_writer. intros (H1 & H2 & H3 & H4) (G1 & G2 & G3 & G4).
  repeat split; congruence.
Qed.

Lemma keeps_trans (a b c : list string) :
  keeps_declaration a b -> keeps_declaration b c -> keeps_declaration a c.
Proof.
  intros H G x l E. destruct (H x l E) as (x' & l' & E'). exact (G x' l' E').
Qed.

(** A quiet step followed by any step has the effect of the second. *)
Lemma effect_after_quiet (ix_staff : nat) (s s1 : state) (f : flow) :
  same_writer s s1 ->
  keeps_declaration (humdrum_string s) (humdrum_string s1) ->
  step_effect humdrum metadata (List.length stafflist) ix_staff s1 f ->
  step_effect humdrum metadata (List.length stafflist) ix_staff s f.
Proof.
  intros Hw Hk. unfold step_effect.
  assert (G : forall s',
    (same_writer s1 s' /\
     keeps_declaration (humdrum_string s1) (humdrum_string s')) \/
    finalizes humdrum metadata (List.length stafflist) ix_staff s1 s' ->
    (same_writer s s' /\
     keeps_declaration (humdrum_string s) (humdrum_string s')) \/
    finalizes humdrum metadata (List.length stafflist) ix_staff s s').
  { intros s' [[Hw' Hk'] | (doc & hk & Hk' & Hhs & Hsave)].
    - left. split; [eapply same_writer_trans | eapply keeps_trans]; eassumption.
    - right. exists doc, hk. split; [eapply keeps_trans; eassumption|].
      split; [exact Hhs|].
      destruct Hw as (E1 & E2 & E3 & E4).
      rewrite E1, E2, E3, E4 in Hsave. exact Hsave. }
  destruct f; auto.
Qed.

Lemma quiet_effect (ix_staff : nat) (s : state) (f : flow) :
  quiet humdrum s f ->
  step_effect humdrum metadata (List.length stafflist) ix_staff s f.
Proof. destruct f; cbn; auto. Qed.

Lemma and_then_effect (ix_staff : nat) (s : state) (f : flow) (k : state -> flow) :
  quiet humdrum s f ->
  (forall s1, step_effect humdrum metadata (List.length stafflist) ix_staff s1 (k s1)) ->
  step_effect humdrum metadata (List.length stafflist) ix_staff s (and_then f k).
Proof.
  intros Hq Hk. destruct f as [s1|s1|e]; cbn [and_then].
  - destruct Hq as [Hw Hd]. eapply effect_after_quiet; eauto.
  - apply quiet_effect. exact Hq.
  - exact I.
Qed.

Lemma and_then_bar_effect (ix_staff : nat) (s : state) (f : flow) (k : state -> flow) :
  step_effect humdrum metadata (List.length stafflist) ix_staff s f ->
  (forall s1, f = Next s1 -> same_writer s s1 /\
      keeps_declaration (humdrum_string s) (humdrum_string s1)) ->
  (forall s1, quiet humdrum s1 (k s1)) ->
  step_effect humdrum metadata (List.length stafflist) ix_staff s (and_then f k).
Proof.
  intros Hf Hnext Hk. destruct f as [s1|s1|e]; cbn [and_then].
  - destruct (Hnext s1 eq_refl) as [Hw Hd].
    eapply effect_after_quiet; eauto. apply quiet_effect, Hk.
  - exact Hf.
  - exact I.
Qed.

(** Every step is either quiet or a Barline's finalization. *)
Lemma process_symbol_effect (ix_staff ix_symbol : nat) (sym : symbol) (s : state) :
  step_effect humdrum metadata (List.length stafflist) ix_staff s
    (process_symbol ids isodate humdrum stafflist metadata ix_staff ix_symbol sym s).
Proof.
  unfold process_symbol.
  destruct (local "initial_clef" (initial_clef s)) as [ic|]; cbn [try]; [|exact I].
  assert (Hs : forall v, quiet humdrum s (Continue v) ->
           step_effect humdrum metadata (List.length stafflist) ix_staff s (Continue v)).
  { intros v. apply quiet_effect. }
  destruct (match ic with PyDict c => _ | PyNone => None end).
  { apply Hs. quiet_solve. }
  repeat match goal with
  | |- context [if ?b then Continue _ else _] =>
      destruct b; [apply Hs; quiet_solve|]
  end.
  apply and_then_effect; [apply mens_block_quiet|]. intros s1.
  apply and_then_effect; [apply dot_block_quiet|]. intros s2.
  apply and_then_effect; [apply rest_block_quiet|]. intros s3.
  apply and_then_effect; [apply note_block_quiet|]. intros s4.
  apply and_then_bar_effect; [apply bar_block_effect| |].
  - intros s5 H. unfold bar_block, try in H.
    destruct (s_type sym =? "bar").
    + destruct (sub_element _ _ _ _ _) as [s6|]; [|discriminate H].
      destruct (save _ _ _ _ _) as [s7|]; [|discriminate H].
      destruct (new_document _ _ _) as [s8|]; discriminate H.
    + injection H as <-. split; [repeat split | apply keeps_refl].
  - intros s5.
    pose proof (custos_block_quiet ix_staff sym s5) as Hc.
    destruct (custos_block ids humdrum stafflist ix_staff sym s5) as [s6|s6|e];
      cbn [and_then]; [|exact Hc|exact I].
    pose proof (emit_line_quiet s6) as He.
    destruct (emit_line humdrum s6) as [s7|s7|e]; [| |exact I];
      destruct Hc as [Hw Hd]; destruct He as [Hw' Hd'];
      (split; [eapply same_writer_trans | eapply keeps_trans]; eassumption).
Qed.

(** ** Invariants of the loops *)

Lemma run_symbols_inv (P : state -> Prop) (ix_staff : nat) :
  (forall ix sym s s',
      P s ->
      process_symbol ids isodate humdrum stafflist metadata ix_staff ix sym s = Next s' \/
      process_symbol ids isodate humdrum stafflist metadata ix_staff ix sym s = Continue s' ->
      P s') ->
  forall syms ix s s',
    P s ->
    run_symbols ids isodate humdrum stafflist metadata ix_staff ix syms s = Ok s' ->
    P s'.
Proof.
  intros Hstep syms. induction syms as [|sym syms IH]; intros ix s s' HP H.
  - cbn in H. injection H as <-. exact HP.
  - cbn [run_symbols] in H.
    destruct (process_symbol ids isodate humdrum stafflist metadata ix_staff ix sym s)
      as [s1|s1|e] eqn:E; [| |discriminate H].
    + eapply IH; [|exact H]. eapply Hstep; [exact HP | left; exact E].
    + eapply IH; [|exact H]. eapply Hstep; [exact HP | right; exact E].
Qed.

Lemma save_mei_file_inv (fc fc' : Z) (ix n : nat) (doc : document) (fn fn' : string)
    (hs used used' : list string) (files files' : list output_file) :
  save_mei_file metadata fc ix doc fn n hs humdrum used files
    = Ok (fn', fc', used', files') ->
  exists name,
    files' = files ++ MeiFile name doc ::
      (if humdrum then [MensFile (drop_last 3 name ++ ".mens")%string hs] else []) /\
    ((existsb (String.eqb fn) used = false /\
      (exists label, metadata_get metadata ix = Ok label /\
                     name = (label ++ "_01.mei")%string) /\
      fc' = 1%Z /\ used' = used ++ [fn]) \/
     (existsb (String.eqb fn) used = true /\
      name = (fn ++ "_" ++ zfill 2 (str (fc + 1)) ++ ".mei")%string /\
      fc' = (fc + 1)%Z /\ used' = used)) /\
    (metadata_get metadata (ix + 1) = Ok fn' \/ fn' = fn).
Proof.
  unfold save_mei_file. intros H.
  destruct (existsb (String.eqb fn) used) eqn:E; cbn [negb] in H.
  - cbn [bind] in H.
    destruct (if negb _ then _ else _) as [f|] eqn:F; [|discriminate H].
    cbn [bind] in H. injection H as <- <- <- <-.
    eexists. split.
    { destruct humdrum; rewrite <- ?app_assoc; reflexivity. }
    split; [right; repeat split|].
    destruct (negb _); [left; exact F | right; congruence].
  - destruct (metadata_get metadata ix) as [label|] eqn:M; [|discriminate H].
    cbn [bind] in H.
    destruct (if negb _ then _ else _) as [f|] eqn:F; [|discriminate H].
    cbn [bind] in H. injection H as <- <- <- <-.
    eexists. split.
    { destruct humdrum; rewrite <- ?app_assoc; reflexivity. }
    split; [left; repeat split; exists label; split; reflexivity|].
    destruct (negb _); [left; exact F | right; congruence].
Qed.

Lemma mens_files_app (a b : list output_file) :
  mens_files (a ++ b) = mens_files a ++ mens_files b.
Proof. apply flat_map_app. Qed.

Lemma mei_names_app (a b : list output_file) :
  mei_names (a ++ b) = mei_names a ++ mei_names b.
Proof. apply flat_map_app. Qed.

(** The invariant of the flat encoding is kept by every step. *)
Lemma process_symbol_flat_inv (ix_staff ix_symbol : nat) (sym : symbol) (s s' : state) :
  humdrum = true ->
  flat_inv s ->
  process_symbol ids isodate humdrum stafflist metadata ix_staff ix_symbol sym s = Next s' \/
  process_symbol ids isodate humdrum stafflist metadata ix_staff ix_symbol sym s = Continue s' ->
  flat_inv s'.
Proof.
  intros Hh [(x & l & Hhs) Hfiles] Hstep.
  pose proof (process_symbol_effect ix_staff ix_symbol sym s) as He.
  assert (G : (same_writer s s' /\
               keeps_declaration (humdrum_string s) (humdrum_string s')) \/
              finalizes humdrum metadata (List.length stafflist) ix_staff s s').
  { destruct Hstep as [E | E]; rewrite E in He; exact He. }
  clear He Hstep.
  destruct G as [[(Hw & _) Hk] | (doc & hk & Hk & Hhs' & Hsave)].
  - split; [exact (Hk x l Hhs) | rewrite Hw; exact Hfiles].
  - destruct (Hk x l Hhs) as (x' & l' & ->).
    apply save_mei_file_inv in Hsave. destruct Hsave as (name & Hwr & _).
    rewrite Hh in *. unfold flat_inv. rewrite Hwr, Hhs'. split.
    + eexists; eexists; reflexivity.
    + rewrite mens_files_app. apply Forall_app. split; [exact Hfiles|].
      cbn. constructor; [|constructor].
      exists (x' :: l'). reflexivity.
Qed.

(** What precedes the symbol loop leaves the files alone, fixes the file
    name from the first label when the run starts, and only appends to the
    flat buffer (the clef line at least, at the first staff). *)
Lemma begin_staff_effect (ix_staff : nat) (st : staff) (s s' : state) :
  begin_staff ids isodate humdrum stafflist metadata ix_staff st s = Ok s' ->
  written s' = written s /\
  filename_counter s' = filename_counter s /\
  used_filenames s' = used_filenames s /\
  (if (ix_staff =? 0)%nat
   then metadata_get metadata 0 = Ok (filename s')
   else filename s' = filename s) /\
  exists more,
    humdrum_string s' = humdrum_string s ++ more /\
    (humdrum = true -> ix_staff = 0%nat -> more <> []).
Proof.
  intros H.
  unfold begin_staff, first_document, new_document, create_mei_declarations,
    resolve_clef in H.
  break_flow H; injection H as <-; st_norm;
    (split; [reflexivity|]); (split; [reflexivity|]); (split; [reflexivity|]);
    (split; [first [reflexivity | assumption]|]).
  all: first
    [ exists []; split;
      [ symmetry; apply app_nil_r
      | intros Hh Hix; first [discriminate Hh | rewrite Hix in *; discriminate] ]
    | eexists; split; [reflexivity | intros _ _; discriminate]
    | eexists; split; [rewrite <- app_assoc; reflexivity | intros _ _; discriminate] ].
Qed.

Lemma end_of_staff_effect (ix_staff : nat) (s s' : state) :
  end_of_staff ids stafflist ix_staff s = Ok s' ->
  same_writer s s' /\ humdrum_string s' = humdrum_string s /\ saved s' = saved s.
Proof.
  intros H. unfold end_of_staff, sub_element in H.
  break_flow H; injection H as <-; unfold same_writer; st_norm; repeat split.
Qed.

Lemma run_staff_flat (ix_staff : nat) (st : staff) (s s' : state) :
  humdrum = true ->
  (exists l, humdrum_string s = "**mens" :: l) ->
  Forall closed_flat (mens_files (written s)) ->
  (ix_staff <> 0%nat -> flat_inv s) ->
  run_staff ids isodate humdrum stafflist metadata ix_staff st s = Ok s' ->
  flat_inv s'.
Proof.
  intros Hh [l Hl] Hfiles Hlater H. unfold run_staff in H.
  destruct (begin_staff _ _ _ _ _ _ _ _) as [s1|] eqn:B; [|discriminate H].
  cbn [bind] in H.
  destruct (run_symbols _ _ _ _ _ _ _ _ _) as [s2|] eqn:R; [|discriminate H].
  cbn [bind] in H.
  apply begin_staff_effect in B.
  destruct B as (Hw & _ & _ & _ & more & Hmore & Hne).
  assert (J1 : flat_inv s1).
  { unfold flat_inv. rewrite Hw, Hmore. split; [|exact Hfiles].
    destruct (Nat.eq_dec ix_staff 0) as [E|E].
    - specialize (Hne Hh E). rewrite Hl.
      destruct l as [|x l'].
      + destruct more as [|x m]; [congruence|]. exists x, m. reflexivity.
      + exists x, (l' ++ more). reflexivity.
    - destruct (Hlater E) as [(x & l' & ->) _]. exists x, (l' ++ more). reflexivity. }
  assert (J2 : flat_inv s2).
  { revert J1 R. apply run_symbols_inv.
    intros ix sym a b Ha Hstep. exact (process_symbol_flat_inv _ _ _ _ _ Hh Ha Hstep). }
  apply end_of_staff_effect in H. destruct H as ((Hw' & _) & Hhs' & _).
  unfold flat_inv. rewrite Hw', Hhs'. exact J2.
Qed.

Lemma run_staves_flat (staves : list staff) :
  humdrum = true ->
  forall ix_staff s s',
    (exists l, humdrum_string s = "**mens" :: l) ->
    Forall closed_flat (mens_files (written s)) ->
    (ix_staff <> 0%nat -> flat_inv s) ->
    run_staves ids isodate humdrum stafflist metadata ix_staff staves s = Ok s' ->
    (exists l, humdrum_string s' = "**mens" :: l) /\
    Forall closed_flat (mens_files (written s')).
Proof.
  intros Hh. induction staves as [|st staves IH]; intros ix s s' Hl Hfiles Hlater H.
  - cbn in H. injection H as <-. split; assumption.
  - cbn [run_staves] in H.
    destruct (run_staff _ _ _ _ _ _ _ _) as [s1|] eqn:R; [|discriminate H].
    cbn [bind] in H.
    pose proof (run_staff_flat _ _ _ _ Hh Hl Hfiles Hlater R) as J.
    apply (IH (S ix) s1 s'); [| |intros _; exact J|exact H].
    + destruct J as [(x & l & E) _]. exists (x :: l). exact E.
    + exact (proj2 J).
Qed.

(** ** The loop invariant holds whenever the symbol loop runs *)

Lemma and_then_holds (P : state -> Prop) (f : flow) (k : state -> flow) :
  holds_after P f ->
  (forall s1, P s1 -> holds_after P (k s1)) ->
  holds_after P (and_then f k).
Proof. destruct f as [s1|s1|e]; cbn; auto. Qed.

Lemma bar_block_core (ix_staff : nat) (sym : symbol) (s : state) :
  core_inv humdrum s ->
  holds_after (core_inv humdrum)
    (bar_block ids isodate humdrum stafflist metadata ix_staff sym s).
Proof.
  remember (bar_block ids isodate humdrum stafflist metadata ix_staff sym s)
    as f eqn:H. symmetry in H.
  unfold bar_block, sub_element, save, new_document, create_mei_declarations in H.
  break_flow H; subst; first [intros _; exact I | core_solve].
Qed.

Lemma process_symbol_core (ix_staff ix_symbol : nat) (sym : symbol) (s : state) :
  core_inv humdrum s ->
  holds_after (core_inv humdrum)
    (process_symbol ids isodate humdrum stafflist metadata ix_staff ix_symbol sym s).
Proof.
  intros Hinv. unfold process_symbol.
  destruct (local "initial_clef" (initial_clef s)) as [ic|] eqn:L; cbn [try];
    [|exact I].
  destruct (match ic with PyDict c => _ | PyNone => None end) as [c'|] eqn:M.
  { destruct Hinv as ((c & Hic & Hc & Hct) & Hkey & Hlig & Hsaved).
    rewrite Hic in L. cbn in L. injection L as <-.
    destruct (symbol_eqb sym c); [|discriminate M]. injection M as <-.
    unfold holds_after, core_inv, clef_resolved, key_resolved, ligature_ready.
    st_norm. split; [exists c; repeat split; assumption|].
    split; [exact Hkey|]. split; [exact Hlig | exact Hsaved]. }
  repeat match goal with
  | |- context [if ?b then Continue _ else _] =>
      destruct b; [revert Hinv; core_solve|]
  end.
  apply and_then_holds; [apply mens_block_core, Hinv|]. intros s1 H1.
  apply and_then_holds; [apply dot_block_core, H1|]. intros s2 H2.
  apply and_then_holds; [apply rest_block_core, H2|]. intros s3 H3.
  apply and_then_holds; [apply note_block_core, H3|]. intros s4 H4.
  apply and_then_holds; [apply bar_block_core, H4|]. intros s5 H5.
  apply and_then_holds; [apply custos_block_core, H5|]. intros s6 H6.
  apply emit_line_core, H6.
Qed.

(** Every step keeps the loop invariant. *)
Lemma process_symbol_loop_inv (ix_staff ix_symbol : nat) (sym : symbol) (s s' : state) :
  loop_inv humdrum s ->
  process_symbol ids isodate humdrum stafflist metadata ix_staff ix_symbol sym s = Next s' \/
  process_symbol ids isodate humdrum stafflist metadata ix_staff ix_symbol sym s = Continue s' ->
  loop_inv humdrum s'.
Proof.
  intros (Hclef & Hkey & Hlig & Hdecl & Hsaved) Hstep.
  pose proof (process_symbol_core ix_staff ix_symbol sym s
                (conj Hclef (conj Hkey (conj Hlig Hsaved)))) as Hcore.
  pose proof (process_symbol_effect ix_staff ix_symbol sym s) as He.
  assert (G : core_inv humdrum s' /\
              ((same_writer s s' /\
                keeps_declaration (humdrum_string s) (humdrum_string s')) \/
               finalizes humdrum metadata (List.length stafflist) ix_staff s s')).
  { destruct Hstep as [E | E]; rewrite E in He, Hcore; split; assumption. }
  destruct G as [(Hclef' & Hkey' & Hlig' & Hsaved') Heff].
  unfold loop_inv. repeat (split; [assumption|]). split; [|assumption].
  unfold declared in *. intros Hh. destruct (Hdecl Hh) as (x & l & Hhs).
  destruct Heff as [[_ Hk] | (doc & hk & Hk & Hhs' & _)].
  - exact (Hk x l Hhs).
  - destruct (Hk x l Hhs) as (x' & l' & ->). rewrite Hhs', Hh.
    eexists; eexists; reflexivity.
Qed.

Lemma scan_clef_found (candidates : list staff) (found0 found : option pyval)
    (flat : bool) :
  scan_clef candidates found0 = Ok (found, flat) ->
  found = found0 \/ exists c, found = Some (PyDict c) /\ s_type c = "clef".
Proof.
  induction candidates as [|st rest IH]; cbn [scan_clef].
  - intros H. injection H as <- _. left. reflexivity.
  - destruct (item st 0) as [s0|]; [|discriminate]. cbn [bind].
    destruct (s_type s0 =? "clef") eqn:T.
    + destruct (item st 1) as [s1|]; [|discriminate]. cbn [bind].
      intros H. injection H as <- _. right. exists s0.
      split; [reflexivity | apply String.eqb_eq, T].
    + exact IH.
Qed.

Ltac clef_typed Hic Hct :=
  match goal with
  | E : (s_type ?c =? "clef") = true |- s_type ?c = "clef" =>
      apply String.eqb_eq; exact E
  | E : scan_clef _ _ = Ok (Some (PyDict ?c), _) |- s_type ?c = "clef" =>
      let E' := fresh "E" in
      let c' := fresh "c" in
      let T := fresh "T" in
      destruct (scan_clef_found _ _ _ _ E) as [E' | (c' & E' & T)];
      [ first [ discriminate E'
              | rewrite Hic in E'; injection E' as ->; exact Hct ]
      | injection E' as ->; exact T ]
  end.

Ltac staff_start_solve Hinv :=
  let c := fresh "c" in
  let Hic := fresh "Hic" in
  let Hc := fresh "Hc" in
  let Hct := fresh "Hct" in
  let Hkey := fresh "Hkey" in
  let Hlig := fresh "Hlig" in
  let Hdecl := fresh "Hdecl" in
  let Hsaved := fresh "Hsaved" in
  let Hl := fresh "Hl" in
  let Hh := fresh "Hh" in
  destruct Hinv as ((c & Hic & Hc & Hct) & Hkey & Hlig & Hdecl & Hsaved);
  unfold loop_inv, clef_resolved, key_resolved, ligature_ready, declared;
  unfold declared in Hdecl; unfold key_resolved in Hkey;
  unfold ligature_ready in Hlig;
  st_lazy Hic; st_lazy Hc; st_lazy Hkey; st_lazy Hdecl; st_lazy Hsaved;
  st_lazy Hlig;
  st_norm;
  split;
  [ first [ exists c; repeat split; assumption
          | eexists; split; [reflexivity|]; split; [reflexivity|];
            clef_typed Hic Hct ]
  | split;
    [ first [exact Hkey | left; reflexivity | right; reflexivity]
    | split;
      [ intros Hl; first [discriminate Hl | exact (Hlig Hl)]
      | split;
        [ intros Hh; first
            [ discriminate Hh
            | destruct (Hdecl Hh) as (? & ? & ->); eexists; eexists; reflexivity
            | exact (Hdecl Hh) ]
        | first [discriminate | exact Hsaved] ] ] ] ].

Lemma begin_staff_loop_inv (ix_staff : nat) (st : staff) (s s' : state) :
  loop_inv humdrum s ->
  begin_staff ids isodate humdrum stafflist metadata ix_staff st s = Ok s' ->
  loop_inv humdrum s'.
Proof.
  intros Hinv H.
  unfold begin_staff, first_document, new_document, create_mei_declarations,
    resolve_clef in H.
  break_flow H; injection H as <-; staff_start_solve Hinv.
Qed.

Lemma begin_first_staff (st : staff) (s' : state) :
  begin_staff ids isodate humdrum stafflist metadata 0 st initial_state = Ok s' ->
  loop_inv humdrum s'.
Proof.
  intros H.
  unfold begin_staff, first_document, new_document, create_mei_declarations,
    resolve_clef in H.
  cbn [Nat.eqb] in H.
  break_flow H; injection H as <-;
    unfold loop_inv, clef_resolved, key_resolved, ligature_ready, declared;
    st_norm.
  all: split;
    [ eexists; split; [reflexivity|]; split; [reflexivity|]; clef_typed I I
    | split;
      [ first [left; reflexivity | right; reflexivity]
      | split;
        [ intros Hl; discriminate Hl
        | split;
          [ intros Hh; first [discriminate Hh | eexists; eexists; reflexivity]
          | discriminate ] ] ] ].
Qed.

Lemma end_of_staff_loop_inv (ix_staff : nat) (s s' : state) :
  loop_inv humdrum s ->
  end_of_staff ids stafflist ix_staff s = Ok s' ->
  loop_inv humdrum s'.
Proof.
  intros Hinv H. unfold end_of_staff, sub_element in H.
  break_flow H; injection H as <-; staff_start_solve Hinv.
Qed.

Lemma run_symbols_loop_inv (ix_staff ix_symbol : nat) (syms : list symbol)
    (s s' : state) :
  loop_inv humdrum s ->
  run_symbols ids isodate humdrum stafflist metadata ix_staff ix_symbol syms s = Ok s' ->
  loop_inv humdrum s'.
Proof.
  apply run_symbols_inv. intros ix sym a b Ha Hstep.
  exact (process_symbol_loop_inv _ _ _ _ _ Ha Hstep).
Qed.

Lemma between_staves_inv (ix_staff : nat) (s : state) :
  between_staves ids isodate humdrum stafflist metadata ix_staff s ->
  (ix_staff = 0%nat /\ s = initial_state) \/ loop_inv humdrum s.
Proof.
  induction 1 as [|ix st s s' Hb IH Hrun].
  - left. split; reflexivity.
  - right. unfold run_staff in Hrun.
    destruct (begin_staff _ _ _ _ _ _ _ _) as [s1|] eqn:B; [|discriminate Hrun].
    cbn [bind] in Hrun.
    destruct (run_symbols _ _ _ _ _ _ _ _ _) as [s2|] eqn:R; [|discriminate Hrun].
    cbn [bind] in Hrun.
    apply (end_of_staff_loop_inv _ _ _) with (2 := Hrun).
    apply (run_symbols_loop_inv _ _ _ _ _) with (2 := R).
    destruct IH as [[-> ->] | IH].
    + exact (begin_first_staff _ _ B).
    + exact (begin_staff_loop_inv _ _ _ _ IH B).
Qed.

(** In every run, the loop invariant holds of the state each time the
    symbol loop is about to process a symbol. *)
Lemma in_loop_inv (s : state) :
  in_loop ids isodate humdrum stafflist metadata s -> loop_inv humdrum s.
Proof.
  induction 1 as [ix st s s' Hb Hbegin | ix_staff ix_symbol sym s s' _ IH Hstep].
  - destruct (between_staves_inv _ _ Hb) as [[-> ->] | Hinv].
    + exact (begin_first_staff _ _ Hbegin).
    + exact (begin_staff_loop_inv _ _ _ _ Hinv Hbegin).
  - exact (process_symbol_loop_inv _ _ _ _ _ IH Hstep).
Qed.

(** ** The explicit abort is never reached *)

Lemma and_then_no_exit (f : flow) (k : state -> flow) :
  ~ aborts_exit f -> (forall s1, ~ aborts_exit (k s1)) ->
  ~ aborts_exit (and_then f k).
Proof. destruct f as [s1|s1|e]; cbn [and_then]; auto. Qed.

Lemma bar_block_no_exit (ix_staff : nat) (sym : symbol) (s : state) :
  ~ aborts_exit (bar_block ids isodate humdrum stafflist metadata ix_staff sym s).
Proof.
  remember (bar_block ids isodate humdrum stafflist metadata ix_staff sym s)
    as f eqn:H. symmetry in H.
  unfold bar_block, sub_element, save, new_document, create_mei_declarations in H.
  break_flow H; subst; no_exit_solve.
Qed.

Lemma process_symbol_no_exit (ix_staff ix_symbol : nat) (sym : symbol) (s : state) :
  ~ aborts_exit
      (process_symbol ids isodate humdrum stafflist metadata ix_staff ix_symbol sym s).
Proof.
  unfold process_symbol.
  destruct (local "initial_clef" (initial_clef s)) as [ic|e] eqn:L; cbn [try].
  - destruct (match ic with PyDict c => _ | PyNone => None end);
      [exact (fun X => X)|].
    repeat match goal with
    | |- context [if ?b then Continue _ else _] =>
        destruct b; [exact (fun X => X)|]
    end.
    apply and_then_no_exit; [exact (proj2 (proj2 (mens_block_ok sym s)))|]. intros s1.
    apply and_then_no_exit; [exact (proj2 (proj2 (dot_block_ok sym s1)))|]. intros s2.
    apply and_then_no_exit; [exact (proj2 (proj2 (rest_block_ok sym s2)))|]. intros s3.
    apply and_then_no_exit; [exact (proj2 (proj2 (note_block_ok sym s3)))|]. intros s4.
    apply and_then_no_exit; [apply bar_block_no_exit|]. intros s5.
    apply and_then_no_exit;
      [exact (proj2 (proj2 (custos_block_ok ix_staff sym s5)))|]. intros s6.
    exact (proj2 (proj2 (emit_line_ok s6))).
  - unfold local in L. destruct (initial_clef s); [discriminate L|].
    injection L as <-. exact (fun X => X).
Qed.

Lemma run_symbols_no_exit (ix_staff : nat) (syms : list symbol) :
  forall ix_symbol s,
    ~ raises_exit
        (run_symbols ids isodate humdrum stafflist metadata ix_staff ix_symbol syms s).
Proof.
  induction syms as [|sym syms IH]; intros ix s; cbn [run_symbols].
  - exact (fun X => X).
  - pose proof (process_symbol_no_exit ix_staff ix sym s) as N.
    destruct (process_symbol ids isodate humdrum stafflist metadata ix_staff ix sym s)
      as [s1|s1|e]; [apply IH | apply IH | exact N].
Qed.

Lemma scan_clef_no_exit (candidates : list staff) (found0 : option pyval) :
  ~ raises_exit (scan_clef candidates found0).
Proof.
  induction candidates as [|st rest IH]; cbn [scan_clef].
  - exact (fun X => X).
  - pose proof (item_no_exit _ st 0) as N0. pose proof (item_no_exit _ st 1) as N1.
    destruct (item st 0) as [s0|e0]; cbn [bind]; [|exact N0].
    destruct (s_type s0 =? "clef"); [|exact IH].
    destruct (item st 1) as [s1|e1]; cbn [bind]; [exact (fun X => X) | exact N1].
Qed.

Lemma begin_staff_no_exit (ix_staff : nat) (st : staff) (s : state) :
  initial_clef s <> Some PyNone ->
  ~ raises_exit (begin_staff ids isodate humdrum stafflist metadata ix_staff st s).
Proof.
  intros Hclef.
  remember (begin_staff ids isodate humdrum stafflist metadata ix_staff st s)
    as r eqn:H. symmetry in H.
  unfold begin_staff, first_document, new_document, create_mei_declarations,
    resolve_clef in H.
  st_lazy Hclef.
  break_flow H; subst; unfold raises_exit; intros X;
    first
      [ exact X
      | match goal with
        | E : scan_clef _ _ = Ok (Some PyNone, _) |- _ =>
            destruct (scan_clef_found _ _ _ _ E) as [E' | (c' & E' & _)];
            [ exact (Hclef (eq_sym E')) | discriminate E' ]
        | E : scan_clef ?c ?f = Raise ?e |- _ =>
            pose proof (scan_clef_no_exit c f) as N; rewrite E in N; exact (N X)
        end
      | match type of X with
        | match ?e with _ => _ end => destruct e; first [exact X | exit_prim]
        end ].
Qed.

Lemma end_of_staff_no_exit (ix_staff : nat) (s : state) :
  ~ raises_exit (end_of_staff ids stafflist ix_staff s).
Proof.
  remember (end_of_staff ids stafflist ix_staff s) as r eqn:H. symmetry in H.
  unfold end_of_staff, sub_element in H.
  break_flow H; subst; exact (fun X => X).
Qed.

Lemma between_staves_clef (ix_staff : nat) (s : state) :
  between_staves ids isodate humdrum stafflist metadata ix_staff s ->
  initial_clef s <> Some PyNone.
Proof.
  intros Hb. destruct (between_staves_inv _ _ Hb) as [[_ ->] | Hinv].
  - discriminate.
  - destruct Hinv as ((c & Hic & _) & _). rewrite Hic. discriminate.
Qed.

Lemma run_staff_no_exit (ix_staff : nat) (st : staff) (s : state) :
  between_staves ids isodate humdrum stafflist metadata ix_staff s ->
  ~ raises_exit (run_staff ids isodate humdrum stafflist metadata ix_staff st s).
Proof.
  intros Hb. unfold run_staff.
  pose proof (begin_staff_no_exit ix_staff st s (between_staves_clef _ _ Hb)) as N.
  destruct (begin_staff ids isodate humdrum stafflist metadata ix_staff st s)
    as [s1|e]; cbn [bind]; [|exact N].
  pose proof (run_symbols_no_exit ix_staff st 0 s1) as N1.
  destruct (run_symbols ids isodate humdrum stafflist metadata ix_staff 0 st s1)
    as [s2|e]; cbn [bind]; [|exact N1].
  apply end_of_staff_no_exit.
Qed.

Lemma run_staves_no_exit (staves : list staff) :
  forall ix_staff s,
    between_staves ids isodate humdrum stafflist metadata ix_staff s ->
    ~ raises_exit
        (run_staves ids isodate humdrum stafflist metadata ix_staff staves s).
Proof.
  induction staves as [|st staves IH]; intros ix s Hb; cbn [run_staves].
  - exact (fun X => X).
  - pose proof (run_staff_no_exit ix st s Hb) as N.
    destruct (run_staff ids isodate humdrum stafflist metadata ix st s)
      as [s1|e] eqn:R; cbn [bind]; [|exact N].
    apply IH. exact (staff_done _ _ _ _ _ _ _ _ _ Hb R).
Qed.

End Steps.

(** Whatever the piece, the run does not end in the explicit abort of the
    missing-clef test. *)
Lemma missing_clef_abort_unreachable (ids : list string) (isodate : nat -> string)
    (symbols_and_pitches : list (string * list staff)) (humdrum : bool) :
  ~ raises_exit
      (convert_to_mei_and_humdrum ids isodate symbols_and_pitches humdrum).
Proof.
  unfold convert_to_mei_and_humdrum.
  destruct (convert_to_combined_list_with_metadata symbols_and_pitches)
    as [stafflist metadata].
  unfold run.
  pose proof (run_staves_no_exit ids isodate humdrum stafflist metadata stafflist
                0%nat initial_state
                (run_start ids isodate humdrum stafflist metadata)) as N.
  destruct (run_staves ids isodate humdrum stafflist metadata 0 stafflist initial_state)
    as [s|e]; cbn [bind]; [|exact N].
  destruct (saved s) as [[|]|]; cbn [local bind negb];
    try exact (fun X => X).
  unfold save.
  pose proof (save_mei_file_no_exit metadata (filename_counter s)
                (List.length stafflist - 1) (mei s) (filename s)
                (List.length stafflist) (humdrum_string s) humdrum
                (used_filenames s) (written s)) as N'.
  destruct (save_mei_file _ _ _ _ _ _ _ _ _ _) as [[[[fn fc] used] files]|e];
    cbn [bind]; [exact (fun X => X) | exact N'].
Qed.

(** The flat files of a run: when the flat encoding is requested, every
    flat file written when a Barline finalizes a document begins with the
    declaration line and ends with the double-barline line followed by the
    terminator line; the document finalized at the end of the stream, when
    there is one, is written last, as the buffer stands: it begins with the
    declaration line. *)
Theorem flat_files_closed (ids : list string) (isodate : nat -> string)
    (symbols_and_pitches : list (string * list staff)) (final : state) :
  convert_to_mei_and_humdrum ids isodate symbols_and_pitches true = Ok final ->
  let '(stafflist, metadata) :=
    convert_to_combined_list_with_metadata symbols_and_pitches in
  exists s,
    run_staves ids isodate true stafflist metadata 0 stafflist initial_state = Ok s /\
    Forall closed_flat (mens_files (written s)) /\
    (written final = written s \/
     exists name doc rest,
       written final = written s ++
         [MeiFile name doc;
          MensFile (drop_last 3 name ++ ".mens")%string ("**mens" :: rest)]).
Proof.
  unfold convert_to_mei_and_humdrum.
  destruct (convert_to_combined_list_with_metadata symbols_and_pitches)
    as [stafflist metadata].
  unfold run. intros H.
  destruct (run_staves ids isodate true stafflist metadata 0 stafflist initial_state)
    as [s|] eqn:R; [|discriminate H].
  cbn [bind] in H. exists s. split; [reflexivity|].
  destruct (run_staves_flat ids isodate true stafflist metadata stafflist eq_refl
              0%nat initial_state s) as [[l Hl] Hfiles].
  { exists []. reflexivity. }
  { constructor. }
  { intros E. congruence. }
  { exact R. }
  split; [exact Hfiles|].
  destruct (local "saved" (saved s)) as [sv|]; [|discriminate H].
  cbn [bind] in H. destruct sv; cbn [negb] in H.
  - injection H as <-. left. reflexivity.
  - right. unfold save in H.
    destruct (save_mei_file _ _ _ _ _ _ _ _ _ _) as [[[[fn fc] used] files]|] eqn:S;
      [|discriminate H].
    cbn [bind] in H. injection H as <-.
    apply save_mei_file_inv in S. destruct S as (name & -> & _).
    exists name, (mei s), l. st_norm. rewrite Hl. reflexivity.
Qed.

(** * The writer's names in a single-label run *)

Section Naming.

Variable ids : list string.
Variable isodate : nat -> string.
Variable humdrum : bool.
Variable stafflist : list staff.
Variable metadata : list string.
Variable label : string.
Hypothesis one_label : forall i l, metadata_get metadata i = Ok l -> l = label.

Lemma save_names (fc fc' : Z) (ix n : nat) (doc : document) (fn' : string)
    (hs used used' : list string) (files files' : list output_file) :
  save_mei_file metadata fc ix doc label n hs humdrum used files
    = Ok (fn', fc', used', files') ->
  names_ok label used fc files ->
  fn' = label /\ names_ok label used' fc' files'.
Proof.
  intros H Hok. apply (save_mei_file_inv humdrum metadata) in H.
  destruct H as (name & -> & Hname & Hfn). split.
  { destruct Hfn as [Hfn | Hfn]; [exact (one_label _ _ Hfn) | exact Hfn]. }
  assert (Hnames : forall names,
            mei_names files = names ->
            mei_names (files ++ MeiFile name doc ::
              (if humdrum then [MensFile (drop_last 3 name ++ ".mens")%string hs]
               else [])) = names ++ [name]).
  { intros names <-. rewrite mei_names_app. destruct humdrum; reflexivity. }
  right.
  destruct Hname as [(Hfresh & (l & Hl & ->) & -> & ->)
                    | (Hseen & -> & -> & ->)].
  - apply one_label in Hl. subst l.
    destruct Hok as [(-> & Hn) | (-> & _)].
    + split; [reflexivity|]. exists 1%nat. split; [lia|]. split; [reflexivity|].
      rewrite (Hnames [] Hn). reflexivity.
    + cbn in Hfresh. rewrite String.eqb_refl in Hfresh. discriminate Hfresh.
  - destruct Hok as [(-> & _) | (-> & k & Hk & -> & Hn)].
    + cbn in Hseen. discriminate Hseen.
    + assert (Hsucc : (Z.of_nat k + 1)%Z = Z.of_nat (S k)) by (clear; lia).
      rewrite Hsucc in *.
      split; [reflexivity|]. exists (S k). split; [lia|]. split; [reflexivity|].
      rewrite (Hnames _ Hn). rewrite seq_S, map_app. reflexivity.
Qed.

Lemma process_symbol_names (ix_staff ix_symbol : nat) (sym : symbol) (s s' : state) :
  name_inv label s ->
  process_symbol ids isodate humdrum stafflist metadata ix_staff ix_symbol sym s = Next s' \/
  process_symbol ids isodate humdrum stafflist metadata ix_staff ix_symbol sym s = Continue s' ->
  name_inv label s'.
Proof.
  intros [Hfn Hok] Hstep.
  pose proof (process_symbol_effect ids isodate humdrum stafflist metadata
                ix_staff ix_symbol sym s) as He.
  assert (G : (same_writer s s' /\
               keeps_declaration (humdrum_string s) (humdrum_string s')) \/
              finalizes humdrum metadata (List.length stafflist) ix_staff s s').
  { destruct Hstep as [E | E]; rewrite E in He; exact He. }
  clear He Hstep. unfold name_inv.
  destruct G as [[(Hw & Hf & Hc & Hu) _] | (doc & hk & _ & _ & Hsave)].
  - rewrite Hw, Hf, Hc, Hu. split; assumption.
  - rewrite Hfn in Hsave. exact (save_names _ _ _ _ _ _ _ _ _ _ _ Hsave Hok).
Qed.

Lemma run_staff_names (ix_staff : nat) (st : staff) (s s' : state) :
  names_ok label (used_filenames s) (filename_counter s) (written s) ->
  (ix_staff <> 0%nat -> filename s = label) ->
  run_staff ids isodate humdrum stafflist metadata ix_staff st s = Ok s' ->
  name_inv label s'.
Proof.
  intros Hok Hlater H. unfold run_staff in H.
  destruct (begin_staff _ _ _ _ _ _ _ _) as [s1|] eqn:B; [|discriminate H].
  cbn [bind] in H.
  destruct (run_symbols _ _ _ _ _ _ _ _ _) as [s2|] eqn:R; [|discriminate H].
  cbn [bind] in H.
  apply begin_staff_effect in B.
  destruct B as (Hw & Hc & Hu & Hf & _).
  assert (J1 : name_inv label s1).
  { unfold name_inv. rewrite Hw, Hc, Hu. split; [|exact Hok].
    destruct (Nat.eqb_spec ix_staff 0) as [E|E].
    - exact (one_label _ _ Hf).
    - rewrite Hf. exact (Hlater E). }
  assert (J2 : name_inv label s2).
  { revert J1 R. apply run_symbols_inv.
    intros ix sym a b Ha Hstep. exact (process_symbol_names _ _ _ _ _ Ha Hstep). }
  apply end_of_staff_effect in H. destruct H as ((Hw' & Hf' & Hc' & Hu') & _).
  unfold name_inv. rewrite Hw', Hf', Hc', Hu'. exact J2.
Qed.

Lemma run_staves_names (staves : list staff) :
  forall ix_staff s s',
    names_ok label (used_filenames s) (filename_counter s) (written s) ->
    (ix_staff <> 0%nat -> filename s = label) ->
    run_staves ids isodate humdrum stafflist metadata ix_staff staves s = Ok s' ->
    names_ok label (used_filenames s') (filename_counter s') (written s') /\
    (staves <> [] -> filename s' = label).
Proof.
  induction staves as [|st staves IH]; intros ix s s' Hok Hlater H.
  - cbn in H. injection H as <-. split; [exact Hok | congruence].
  - cbn [run_staves] in H.
    destruct (run_staff _ _ _ _ _ _ _ _) as [s1|] eqn:R; [|discriminate H].
    cbn [bind] in H.
    destruct (run_staff_names _ _ _ _ Hok Hlater R) as [Hf1 Hok1].
    destruct (IH (S ix) s1 s' Hok1 (fun _ => Hf1) H) as [Hok' Hf'].
    split; [exact Hok'|]. intros _.
    destruct staves as [|st' staves'].
    + cbn in H. injection H as <-. exact Hf1.
    + apply Hf'. discriminate.
Qed.

End Naming.

Lemma mei_names_docs_length (fs : list output_file) :
  List.length (mei_names fs) = List.length (mei_docs fs).
Proof.
  induction fs as [|[n d|n l] fs IH]; cbn; [reflexivity | f_equal; exact IH | exact IH].
Qed.

(** The names in a run of one label: the writer keeps one counter for the
    whole run, which it restarts at 1 when the pending label was not used
    before. In a run
    whose staves all carry one source label, the [N] documents finalized
    get the names [<label>_01] to [<label>_N] (the number zero-padded to two
    digits, extension [.mei]), in the order they are finalized, without a
    gap. *)
Theorem single_label_names (ids : list string) (isodate : nat -> string)
    (humdrum : bool) (label : string) (staves : list staff) (final : state) :
  convert_to_mei_and_humdrum ids isodate [(label, staves)] humdrum = Ok final ->
  mei_names (written final)
  = map (numbered_name label) (seq 1 (List.length (mei_docs (written final)))).
Proof.
  unfold convert_to_mei_and_humdrum, convert_to_combined_list_with_metadata.
  cbn [flat_map fst snd]. rewrite !app_nil_r.
  set (metadata := map (fun _ : staff => label) staves).
  assert (one_label : forall i l, metadata_get metadata i = Ok l -> l = label).
  { intros i l. unfold metadata_get.
    destruct (nth_error metadata i) as [l'|] eqn:E; [|discriminate].
    intros H. injection H as <-. apply nth_error_In in E.
    unfold metadata in E. apply in_map_iff in E. destruct E as (x & E & _).
    congruence. }
  unfold run. intros H.
  destruct (run_staves ids isodate humdrum staves metadata 0 staves initial_state)
    as [s|] eqn:R; [|discriminate H].
  cbn [bind] in H.
  destruct (run_staves_names ids isodate humdrum staves metadata label one_label
              staves 0%nat initial_state s) as [Hok Hfn].
  { left. split; reflexivity. }
  { intros E. congruence. }
  { exact R. }
  assert (Hend : names_ok label (used_filenames final) (filename_counter final)
                   (written final)).
  { destruct (local "saved" (saved s)) as [sv|] eqn:Sv; [|discriminate H].
    cbn [bind] in H. destruct sv; cbn [negb] in H.
    - injection H as <-. exact Hok.
    - unfold save in H.
      destruct (save_mei_file _ _ _ _ _ _ _ _ _ _) as [[[[fn fc] used] files]|] eqn:S;
        [|discriminate H].
      cbn [bind] in H. injection H as <-. st_norm.
      rewrite Hfn in S.
      + exact (proj2 (save_names humdrum metadata label one_label
                        _ _ _ _ _ _ _ _ _ _ _ S Hok)).
      + intros ->. cbn in R. injection R as <-. cbn in Sv. discriminate Sv. }
  rewrite <- mei_names_docs_length.
  destruct Hend as [(_ & ->) | (_ & k & _ & _ & ->)].
  - reflexivity.
  - rewrite length_map, length_seq. reflexivity.
Qed.

Lemma single_label_names_witness :
  exists final,
    convert_to_mei_and_humdrum counting_pool fixed_clock (scenario_piece "page1") true
      = Ok final /\
    mei_names (written final) = ["page1_01.mei"].
Proof.
  destruct (convert_to_mei_and_humdrum counting_pool fixed_clock
              (scenario_piece "page1") true) as [final|e] eqn:E.
  - exists final. split; [reflexivity|].
    rewrite (single_label_names _ _ _ _ _ _ E).
    vm_compute in E. injection E as <-. reflexivity.
  - vm_compute in E. discriminate E.
Defined.

(** C6, on the code: the writer tests the pending file name but names a
    first use after the label of the current staff, and records the pending
    name, not the one it used. In this run of two labels, the two documents
    that the Barlines of the staves labelled B finalize both get the name
    B_01, not B_01 and B_02: the second file replaces the first. *)
Lemma two_label_names_repeat :
  exists final,
    convert_to_mei_and_humdrum counting_pool fixed_clock two_label_piece false
      = Ok final /\
    mei_names (written final) = ["B_01.mei"; "B_01.mei"] /\
    mei_names (written final) <> ["B_01.mei"; "B_02.mei"].
Proof.
  destruct (convert_to_mei_and_humdrum counting_pool fixed_clock
              two_label_piece false) as [final|e] eqn:E;
    vm_compute in E; [|discriminate E].
  injection E as <-. eexists. split; [reflexivity|].
  split; [reflexivity | discriminate].
Qed.

(** * Runs replayed by evaluation *)

Lemma pool_take (k : nat) (ids : list string) :
  (k <= List.length ids)%nat ->
  exists front rest, ids = front ++ rest /\ List.length front = k.
Proof.
  intros H. exists (firstn k ids), (skipn k ids).
  split; [symmetry; apply firstn_skipn | apply firstn_length_le, H].
Qed.

(** Splits a pool of 10000 entries into its first [k] entries, named, and
    the rest. *)
Ltac open_pool ids H k :=
  let front := fresh "front" in
  let rest := fresh "rest" in
  let E := fresh "E" in
  let L := fresh "L" in
  destruct (pool_take k ids) as (front & rest & E & L);
  [ rewrite H; apply Nat.leb_le; reflexivity
  | subst ids; clear H;
    repeat (destruct front as [|? front]; [discriminate L|];
            cbn [List.length] in L; apply eq_add_S in L);
    destruct front; [clear L | discriminate L]; cbn [app] ].

(** C1 (amended): for the one-staff piece [Clef(c-c-g), Flat,
    Mensuration(met_c), Note(mi, g1), Barline] the run writes one document;
    its clef has shape "C" and line "2", its key signature is one flat, and
    its layer holds a mensuration element with sign "C" and no slash, one
    note with duration "minima", octave 4 and letter "c" (the step of the
    clef's own reference is the letter c), and a double barline. *)
Theorem scenario_document (ids : list string) (isodate : nat -> string)
    (humdrum : bool) (label : string) :
  List.length ids = 10000%nat ->
  exists final d,
    convert_to_mei_and_humdrum ids isodate (scenario_piece label) humdrum = Ok final /\
    mei_docs (written final) = [d] /\
    lookup "shape" (xml_clef d) = Some "C" /\
    lookup "line" (xml_clef d) = Some "2" /\
    lookup "sig" (xml_keySign d) = Some "1f" /\
    map strip_id (xml_layer d)
    = [ Elem "mensur" [("prolatio", "2"); ("sign", "C")] [];
        Elem "note" [("dur", "minima"); ("oct", "4"); ("pname", "c")] [];
        Elem "barLine" [("form", "dbl")] [] ].
Proof.
  intros H. open_pool ids H 22%nat.
  destruct (convert_to_mei_and_humdrum _ isodate (scenario_piece label) humdrum)
    as [final|e] eqn:E;
    destruct humdrum; vm_compute in E; try discriminate E;
    injection E as <-; eexists; eexists;
    (split; [reflexivity|]); (split; [reflexivity|]); repeat split.
Qed.

Lemma scenario_document_witness :
  exists final d,
    convert_to_mei_and_humdrum counting_pool fixed_clock (scenario_piece "page1") true
      = Ok final /\
    mei_docs (written final) = [d] /\
    lookup "shape" (xml_clef d) = Some "C".
Proof.
  destruct (scenario_document counting_pool fixed_clock true "page1")
    as (final & d & E & Hd & Hs & _).
  { vm_compute. reflexivity. }
  exists final, d. split; [exact E|]. split; [exact Hd | exact Hs].
Defined.

(** C1, as stated, fails: the one note of the document has the letter "c",
    not "g". *)
Lemma scenario_letter_is_c :
  exists final d,
    convert_to_mei_and_humdrum counting_pool fixed_clock (scenario_piece "page1") true
      = Ok final /\
    mei_docs (written final) = [d] /\
    map (attr "pname") (filter is_note (xml_layer d)) = [Some "c"] /\
    map (attr "pname") (filter is_note (xml_layer d)) <> [Some "g"].
Proof.
  destruct (convert_to_mei_and_humdrum counting_pool fixed_clock
              (scenario_piece "page1") true) as [final|e] eqn:E;
    vm_compute in E; [|discriminate E].
  injection E as <-. eexists; eexists.
  split; [reflexivity|]. split; [reflexivity|].
  split; [reflexivity | discriminate].
Qed.

(** C5, on the code: with no clef anywhere the run does not reach the
    explicit abort. [initial_clef] was never assigned when the test
    [initial_clef is None] reads it, and the run ends with
    [UnboundLocalError]; no file was written before. *)
Theorem no_clef_unbound (ids : list string) (isodate : nat -> string)
    (humdrum : bool) :
  List.length ids = 10000%nat ->
  convert_to_mei_and_humdrum ids isodate no_clef_piece humdrum
  = Raise (UnboundLocalError "initial_clef").
Proof.
  intros H. open_pool ids H 9%nat.
  destruct humdrum; vm_compute; reflexivity.
Qed.

Lemma no_clef_unbound_witness :
  convert_to_mei_and_humdrum counting_pool fixed_clock no_clef_piece true
  <> Raise (SystemExit NO_CLEF_MESSAGE).
Proof.
  rewrite (no_clef_unbound counting_pool fixed_clock true).
  - discriminate.
  - vm_compute. reflexivity.
Defined.

(** C3, as stated, fails: the sharp that is pending when the Barline in the
    middle of the first staff is processed is still pending in the document
    opened after it, whose first note receives it. *)
Lemma barline_keeps_pending_sharp :
  exists final d1 d2,
    convert_to_mei_and_humdrum counting_pool fixed_clock pending_sharp_piece false
      = Ok final /\
    mei_docs (written final) = [d1; d2] /\
    map strip_id (xml_layer d1) = [Elem "barLine" [("form", "dbl")] []] /\
    map strip_id (xml_layer d2)
    = [ Elem "note" [("dur", "minima"); ("oct", "4"); ("pname", "c");
                     ("accid", "s")] [];
        Elem "note" [("dur", "minima"); ("oct", "4"); ("pname", "d")] [] ].
Proof.
  destruct (convert_to_mei_and_humdrum counting_pool fixed_clock
              pending_sharp_piece false) as [final|e] eqn:E;
    vm_compute in E; [|discriminate E].
  injection E as <-. do 3 eexists.
  split; [reflexivity|]. split; [reflexivity|]. split; reflexivity.
Qed.

(** C4, on the code: the flat buffer is assigned once, before the staff
    loop, and a Barline, which builds a new tree, does not reset it; the
    save after the loop appends no closing lines. In this run the flat file
    of the second document, finalized at the end of the stream, repeats the
    lines of the first document, closing lines included, and does not end
    with the double-barline and terminator lines. *)
Lemma flat_file_accumulates :
  exists final,
    convert_to_mei_and_humdrum counting_pool fixed_clock open_ended_piece true
      = Ok final /\
    mens_files (written final)
    = [ ["**mens"; "*clefC2"; "Mc"; "=||"; "*-"];
        ["**mens"; "*clefC2"; "Mc"; "=||"; "*-"; "*clefC2"; "Md"] ] /\
    ~ closed_flat ["**mens"; "*clefC2"; "Mc"; "=||"; "*-"; "*clefC2"; "Md"].
Proof.
  destruct (convert_to_mei_and_humdrum counting_pool fixed_clock
              open_ended_piece true) as [final|e] eqn:E;
    vm_compute in E; [|discriminate E].
  injection E as <-. eexists.
  split; [reflexivity|]. split; [reflexivity|].
  intros [body H]. injection H as H.
  repeat (destruct body as [|? body];
          [discriminate H | cbn [app] in H; injection H as _ H]).
  destruct body; discriminate H.
Qed.

(** C7, as stated, fails for the kind ["li"]: two adjacent ["li"] notes
    produce two ligature elements, each holding one note. *)
Lemma double_li_two_ligatures :
  exists final d,
    convert_to_mei_and_humdrum counting_pool fixed_clock double_li_piece false
      = Ok final /\
    mei_docs (written final) = [d] /\
    map (fun e => List.length (elem_children e)) (filter is_ligature (xml_layer d))
    = [1%nat; 1%nat].
Proof.
  destruct (convert_to_mei_and_humdrum counting_pool fixed_clock
              double_li_piece false) as [final|e] eqn:E;
    vm_compute in E; [|discriminate E].
  injection E as <-. do 2 eexists.
  split; [reflexivity|]. split; reflexivity.
Qed.

(** * The step theorems at the state in which the scenario's loop starts *)

Lemma scenario_loop_inv : loop_inv true scenario_loop_state.
Proof.
  unfold loop_inv, clef_resolved, key_resolved, ligature_ready, declared.
  split. { exists (Clef "c-c-g"). repeat split. }
  split. { right. reflexivity. }
  split. { intros H. discriminate H. }
  split. { intros _. eexists; eexists; reflexivity. }
  discriminate.
Qed.

Lemma scenario_pool_left (n : nat) :
  (n <= 100)%nat ->
  (id_counter scenario_loop_state + n < List.length counting_pool)%nat.
Proof.
  intros H. apply Nat.lt_le_trans with (m := 200%nat).
  - cbn. lia.
  - apply Nat.leb_le. vm_compute. reflexivity.
Qed.

Lemma barline_finalizes_witness :
  exists s',
    process_symbol counting_pool fixed_clock true [scenario_staff] ["page1"]
      0 4 Barline scenario_loop_state = Continue s' /\
    layer s' = [] /\
    sharp_found s' = sharp_found scenario_loop_state.
Proof.
  destruct (barline_finalizes counting_pool fixed_clock true [scenario_staff]
              ["page1"] 0 4 Barline scenario_loop_state)
    as [(s' & name & bar & Hstep & _ & _ & _ & _ & Hl & _ & _ & _ & _ & _ & _
         & _ & Hs & _) _].
  - exact scenario_loop_inv.
  - reflexivity.
  - apply scenario_pool_left. lia.
  - reflexivity.
  - cbn. lia.
  - exists s'. split; [exact Hstep|]. split; [exact Hl | exact Hs].
Defined.

Lemma initial_flat_skipped_witness :
  process_symbol counting_pool fixed_clock true [scenario_staff] ["page1"]
    0 1 Flat scenario_loop_state = Continue scenario_loop_state.
Proof.
  apply initial_flat_skipped.
  - exact (proj1 scenario_loop_inv).
  - reflexivity.
  - reflexivity.
  - left. reflexivity.
Defined.

Lemma ligature_pair_witness :
  exists s1 s2 lig,
    process_symbol counting_pool fixed_clock true [scenario_staff] ["page1"]
      0 2 (Note "li" "g1") scenario_loop_state = Continue s1 /\
    process_symbol counting_pool fixed_clock true [scenario_staff] ["page1"]
      0 3 (Note "fu" "a1") s1 = Next s2 /\
    layer s2 = layer scenario_loop_state ++ [lig] /\
    List.length (elem_children lig) = 2%nat.
Proof.
  destruct (ligature_pair counting_pool fixed_clock true [scenario_staff]
              ["page1"] 0 2 "g1" "a1" "fu" scenario_loop_state 4 4 "c" "d")
    as (s1 & s2 & lig & n1 & n2 & H1 & H2 & Hl & _ & Hc & _).
  - exact scenario_loop_inv.
  - cbn. tauto.
  - discriminate.
  - reflexivity.
  - reflexivity.
  - apply scenario_pool_left. lia.
  - exists s1, s2, lig. split; [exact H1|]. split; [exact H2|].
    split; [exact Hl|]. rewrite Hc. reflexivity.
Defined.

Lemma flat_files_closed_witness :
  exists final s,
    convert_to_mei_and_humdrum counting_pool fixed_clock (scenario_piece "page1") true
      = Ok final /\
    run_staves counting_pool fixed_clock true [scenario_staff] ["page1"] 0
      [scenario_staff] initial_state = Ok s /\
    Forall closed_flat (mens_files (written s)).
Proof.
  destruct (convert_to_mei_and_humdrum counting_pool fixed_clock
              (scenario_piece "page1") true) as [final|e] eqn:E.
  - pose proof (flat_files_closed counting_pool fixed_clock
                  (scenario_piece "page1") final E) as H.
    change (exists s,
      run_staves counting_pool fixed_clock true [scenario_staff] ["page1"] 0
        [scenario_staff] initial_state = Ok s /\
      Forall closed_flat (mens_files (written s)) /\
      (written final = written s \/
       exists name doc rest,
         written final = written s ++
           [MeiFile name doc;
            MensFile (drop_last 3 name ++ ".mens")%string ("**mens" :: rest)]))
      in H.
    destruct H as (s & Hrun & Hclosed & _).
    exists final, s. split; [reflexivity|]. split; [exact Hrun | exact Hclosed].
  - exfalso. vm_compute in E. discriminate E.
Defined.
(** * Further properties of the code *)

(** ** Strings and tables *)

Lemma string_app_assoc (a b c : string) : ((a ++ b) ++ c = a ++ (b ++ c))%string.
Proof. induction a as [|x a IH]; cbn; [reflexivity | rewrite IH; reflexivity]. Qed.

Lemma string_app_nil_r (a : string) : (a ++ "")%string = a.
Proof. induction a as [|x a IH]; cbn; [reflexivity | rewrite IH; reflexivity]. Qed.

Lemma string_app_inv_head (a b c : string) : (a ++ b = a ++ c)%string -> b = c.
Proof.
  induction a as [|x a IH]; cbn; [auto|].
  intros H. injection H as H. exact (IH H).
Qed.

Lemma string_length_app (a b : string) :
  String.length (a ++ b) = (String.length a + String.length b)%nat.
Proof. induction a as [|x a IH]; cbn; [reflexivity | rewrite IH; reflexivity]. Qed.

Lemma substring_prefix (a b : string) : substring 0 (String.length a) (a ++ b) = a.
Proof.
  induction a as [|x a IH]; cbn.
  - destruct b; reflexivity.
  - rewrite IH. reflexivity.
Qed.

Lemma lookup_cons (V : Type) (k k' : string) (v' : V) (d : list (string * V)) :
  lookup k ((k', v') :: d) = if k =? k' then Some v' else lookup k d.
Proof. reflexivity. Qed.

Lemma lookup_in (V : Type) (k : string) (d : list (string * V)) :
  In k (map fst d) -> exists v, lookup k d = Some v.
Proof.
  induction d as [|[k' v'] d IH]; [intros []|].
  rewrite lookup_cons. cbn [map fst In]. intros [-> | H].
  - rewrite String.eqb_refl. exists v'. reflexivity.
  - destruct (k =? k'); [exists v'; reflexivity | exact (IH H)].
Qed.

Lemma lookup_not_in (V : Type) (k : string) (d : list (string * V)) :
  ~ In k (map fst d) -> lookup k d = None.
Proof.
  induction d as [|[k' v'] d IH]; [reflexivity|].
  rewrite lookup_cons. cbn [map fst In].
  intros H. destruct (String.eqb_spec k k') as [->|_].
  - exfalso. apply H. left. reflexivity.
  - apply IH. intros H'. apply H. right. exact H'.
Qed.

Lemma lookup_some_in (V : Type) (k : string) (d : list (string * V)) (v : V) :
  lookup k d = Some v -> In k (map fst d).
Proof.
  induction d as [|[k' v'] d IH]; [discriminate|].
  rewrite lookup_cons. cbn [map fst In].
  destruct (String.eqb_spec k k') as [->|_]; [left; reflexivity|].
  intros H. right. exact (IH H).
Qed.

(** ** utils.py: the combined list and its metadata *)

Lemma combined_nth (d : list (string * list staff)) :
  forall i,
    match nth_error (flat_map snd d) i with
    | Some st =>
        exists pre label staves post j,
          d = pre ++ (label, staves) :: post /\
          i = (count_elements (map snd pre) + j)%nat /\
          nth_error staves j = Some st /\
          nth_error (flat_map (fun kv => map (fun _ : staff => fst kv) (snd kv)) d) i
          = Some label
    | None =>
        nth_error (flat_map (fun kv => map (fun _ : staff => fst kv) (snd kv)) d) i
        = None
    end.
Proof.
  induction d as [|[k v] d IH]; intros i; cbn [flat_map fst snd].
  - destruct i; reflexivity.
  - destruct (Nat.lt_ge_cases i (List.length v)) as [Hlt | Hge].
    + rewrite !nth_error_app1 by (rewrite ?length_map; exact Hlt).
      destruct (nth_error v i) as [st|] eqn:E.
      * exists [], k, v, d, i. rewrite nth_error_map, E.
        repeat split; reflexivity.
      * apply nth_error_None in E. lia.
    + rewrite !nth_error_app2 by (rewrite ?length_map; exact Hge).
      rewrite length_map. specialize (IH (i - List.length v)%nat).
      destruct (nth_error (flat_map snd d) (i - List.length v)) as [st|].
      * destruct IH as (pre & label & staves & post & j & -> & Hi & Hst & Hn).
        exists ((k, v) :: pre), label, staves, post, j.
        split; [reflexivity|]. split; [|split; assumption].
        unfold count_elements in *. cbn [map snd concat].
        rewrite length_app. lia.
      * exact IH.
Qed.

Lemma combined_lengths (d : list (string * list staff)) :
  List.length (snd (convert_to_combined_list_with_metadata d))
  = List.length (fst (convert_to_combined_list_with_metadata d)).
Proof.
  unfold convert_to_combined_list_with_metadata. cbn [fst snd].
  induction d as [|[k v] d IH]; cbn [flat_map fst snd]; [reflexivity|].
  rewrite !length_app, length_map, IH. reflexivity.
Qed.

(** [convert_to_combined_list_with_metadata]: the metadata has exactly the
    keys [0 .. n-1], [n] the number of staves of the combined list, and any
    other key raises [KeyError]. The entry of a staff is the key of the
    dictionary item the staff comes from, by position: staff [i] of the
    combined list is staff [j] of the item before which the dictionary
    holds [i - j] staves, and entry [i] is the key of that item. *)
Theorem metadata_labels_staves (d : list (string * list staff)) (i : nat) :
  List.length (snd (convert_to_combined_list_with_metadata d))
  = List.length (fst (convert_to_combined_list_with_metadata d)) /\
  match nth_error (fst (convert_to_combined_list_with_metadata d)) i with
  | Some st =>
      exists pre label staves post j,
        d = pre ++ (label, staves) :: post /\
        i = (count_elements (map snd pre) + j)%nat /\
        nth_error staves j = Some st /\
        metadata_get (snd (convert_to_combined_list_with_metadata d)) i = Ok label
  | None =>
      metadata_get (snd (convert_to_combined_list_with_metadata d)) i
      = Raise (KeyError (KInt (Z.of_nat i)))
  end.
Proof.
  split; [apply combined_lengths|].
  unfold convert_to_combined_list_with_metadata, metadata_get. cbn [fst snd].
  pose proof (combined_nth d i) as H.
  destruct (nth_error (flat_map snd d) i) as [st|].
  - destruct H as (pre & label & staves & post & j & Hd & Hi & Hst & ->).
    exists pre, label, staves, post, j. repeat split; assumption.
  - rewrite H. reflexivity.
Qed.

Lemma set_add_In (x y : string) (s : list string) :
  In x (set_add y s) <-> x = y \/ In x s.
Proof.
  unfold set_add. destruct (existsb (String.eqb y) s) eqn:E.
  - split; [auto|]. intros [-> | H]; [|exact H].
    apply existsb_exists in E. destruct E as (z & Hz & Heq).
    apply String.eqb_eq in Heq. subst z. exact Hz.
  - rewrite in_app_iff. cbn. split.
    + intros [H | [<- | []]]; auto.
    + intros [-> | H]; auto.
Qed.

Lemma generate_loop_returns (draw : nat -> string) (n : nat) (l : list string) :
  NoDup l -> List.length l = n ->
  forall fuel k numbers,
    incl l (map draw (seq 0 (k + fuel))) ->
    incl (map draw (seq 0 k)) numbers ->
    incl numbers (map draw (seq 0 k)) ->
    exists pool,
      generate_loop draw fuel k n numbers = Some pool /\
      incl pool (map draw (seq 0 (k + fuel))).
Proof.
  intros Hnd Hlen. induction fuel as [|fuel IH]; intros k numbers Hl Hsup Hsub;
    cbn [generate_loop].
  - rewrite Nat.add_0_r in *.
    destruct (Nat.ltb_spec (List.length numbers) n) as [Hlt|_].
    + exfalso.
      assert (Hle : (List.length l <= List.length numbers)%nat).
      { apply NoDup_incl_length; [exact Hnd|].
        intros x Hx. apply Hsup, Hl, Hx. }
      lia.
    + exists numbers. split; [reflexivity | exact Hsub].
  - destruct (Nat.ltb_spec (List.length numbers) n) as [_|_].
    + replace (k + S fuel)%nat with (S k + fuel)%nat in * by lia.
      apply IH; [exact Hl | |].
      * rewrite seq_S, map_app. cbn [map Nat.add].
        intros x Hx. apply set_add_In. apply in_app_iff in Hx.
        destruct Hx as [Hx | [<- | []]]; [right; apply Hsup, Hx | left; reflexivity].
      * rewrite seq_S, map_app. cbn [map Nat.add].
        intros x Hx. apply set_add_In in Hx. apply in_app_iff.
        destruct Hx as [-> | Hx]; [right; left; reflexivity | left; apply Hsub, Hx].
    + exists numbers. split; [reflexivity|].
      intros x Hx. apply Hsub in Hx. apply in_map_iff in Hx.
      destruct Hx as (j & <- & Hj). apply in_map, in_seq. apply in_seq in Hj. lia.
Qed.

(** [generate_random_numbers] returns as soon as the draws contain
    [num_elements] distinct values, however many repetitions come in
    between; every entry of the pool is one of the strings drawn. *)
Theorem generate_random_numbers_returns (draw : nat -> string) (fuel n : nat)
    (l : list string) :
  NoDup l -> List.length l = n -> incl l (map draw (seq 0 fuel)) ->
  exists pool,
    generate_random_numbers draw fuel n = Some pool /\
    incl pool (map draw (seq 0 fuel)).
Proof.
  intros Hnd Hlen Hl. unfold generate_random_numbers.
  apply (generate_loop_returns draw n l Hnd Hlen fuel 0%nat []).
  - exact Hl.
  - intros x [].
  - intros x [].
Qed.

Lemma generate_random_numbers_returns_witness :
  exists pool, generate_random_numbers repeating_draw 6 3 = Some pool.
Proof.
  destruct (generate_random_numbers_returns repeating_draw 6 3
              ["0000000000"; "0000000001"; "0000000002"]) as (pool & H & _).
  - repeat constructor; cbn; intuition discriminate.
  - reflexivity.
  - vm_compute. intros x H. tauto.
  - exists pool. exact H.
Defined.

(** ** detect_pitches.py: the kinds it hands to the converter *)

Lemma in_list_In (x : string) (l : list string) : In x l -> in_list x l = true.
Proof.
  intros H. apply existsb_exists. exists x. split; [exact H | apply String.eqb_refl].
Qed.

(** The symbol [detect_pitches] builds for a region whose class is in
    [PITCH_DETECT_LIST] is one the converter treats as a note: its type,
    the class cut at the first hyphen, is a key of [NOTES_MEI] and of
    [NOTES_HUMDRUM], and is none of the other kinds the symbol loop
    dispatches on; its pitch is the answer of the all-symbols model. *)
Theorem detected_notes_are_notes (models : sessions) (sourcefile : string) (r : roi) :
  In (roi_class r) PITCH_DETECT_LIST ->
  has_key (s_type (classify_roi models sourcefile r)) NOTES_MEI = true /\
  has_key (s_type (classify_roi models sourcefile r)) NOTES_HUMDRUM = true /\
  has_key (s_type (classify_roi models sourcefile r)) RESTS_MEI = false /\
  ~ In (s_type (classify_roi models sourcefile r))
       ["clef"; "flat"; "sharp"; "mens"; "dot"; "bar"; "custos"] /\
  s_pitch (classify_roi models sourcefile r) = session_all_symbols models sourcefile r.
Proof.
  destruct r as [x1 y1 x2 y2 c]. cbn [roi_class]. intros H.
  unfold classify_roi. cbn [roi_class].
  assert (H1 : in_list c CLASSIFICATION_LIST = true).
  { apply in_list_In. unfold CLASSIFICATION_LIST. apply in_app_iff. left. exact H. }
  rewrite H1, (in_list_In _ _ H). cbn [s_type s_pitch].
  unfold PITCH_DETECT_LIST in H. cbn [In] in H.
  repeat (destruct H as [<- | H];
    [ split; [reflexivity|]; split; [reflexivity|]; split; [reflexivity|];
      split; [|reflexivity];
      cbn; intuition discriminate |]).
  contradiction.
Qed.

Lemma detected_notes_are_notes_witness :
  classify_roi (mkSessions (fun _ _ => "g1") (fun _ _ => "c-c-g") (fun _ _ => "met_c"))
    "page1" (mkRoi 10 20 30 40 "sb-min")
  = mkSymbol "sb" "g1".
Proof.
  pose proof (detected_notes_are_notes
                (mkSessions (fun _ _ => "g1") (fun _ _ => "c-c-g") (fun _ _ => "met_c"))
                "page1" (mkRoi 10 20 30 40 "sb-min")) as H.
  destruct H as (_ & _ & _ & _ & H).
  - vm_compute. tauto.
  - reflexivity.
Defined.

(** A region whose class is a rest kind, or one of the kinds the converter
    handles without a pitch, is not classified: the symbol keeps the class
    as its type, hyphen included, and has the empty pitch; a clef or a
    mensuration region keeps its class as type and gets the answer of its
    own model. *)
Theorem detected_kinds_kept (models : sessions) (sourcefile : string) (r : roi) :
  In (roi_class r)
     (map fst RESTS_MEI ++ ["flat"; "sharp"; "dot"; "bar"; "custos"; "clef"; "mens"]) ->
  classify_roi models sourcefile r
  = mkSymbol (roi_class r)
      (if roi_class r =? "clef" then session_clef models sourcefile r
       else if roi_class r =? "mens" then session_mens models sourcefile r
       else "").
Proof.
  destruct r as [x1 y1 x2 y2 c]. cbn [roi_class]. intros H.
  cbn [map fst RESTS_MEI app In] in H.
  repeat (destruct H as [<- | H]; [reflexivity|]).
  contradiction.
Qed.

Lemma detected_kinds_kept_witness :
  classify_roi (mkSessions (fun _ _ => "g1") (fun _ _ => "c-c-g") (fun _ _ => "met_c"))
    "page1" (mkRoi 10 20 30 40 "r-sb")
  = mkSymbol "r-sb" "".
Proof.
  apply (detected_kinds_kept
           (mkSessions (fun _ _ => "g1") (fun _ _ => "c-c-g") (fun _ _ => "met_c"))
           "page1" (mkRoi 10 20 30 40 "r-sb")).
  vm_compute. tauto.
Defined.

(** ** The clef and pitch analysis *)

Lemma not_in_code (c x : string) (codes : list string) :
  ~ In c codes -> In x codes -> (c =? x) = false.
Proof.
  intros Hc Hx. destruct (String.eqb_spec c x) as [->|_]; [contradiction | reflexivity].
Qed.

Lemma clefline_of_unknown (c : string) :
  ~ In c CLEF_CODES -> clefline_of c = Ok None.
Proof.
  intros Hc. unfold clefline_of.
  rewrite !(not_in_code c _ CLEF_CODES Hc) by (vm_compute; tauto).
  reflexivity.
Qed.

Lemma clefline_of_known (c : string) :
  In c CLEF_CODES -> exists v, clefline_of c = Ok (Some v).
Proof.
  unfold CLEF_CODES. cbn [map fst CLEFS_HUMDRUM In]. intros H.
  repeat (destruct H as [<- | H]; [eexists; reflexivity|]). contradiction.
Qed.

(** [analyse_clef], the table [CLEFS_HUMDRUM] and the clef chain of
    [analyse_note] know the same seven codes: for each of them
    [analyse_clef] returns a shape and a line, the flat encoding's clef
    line is ["*clef"] followed by that shape and line, and [analyse_note]
    has a reference step; for any other code [analyse_clef] raises
    [UnboundLocalError] on [shape] and [analyse_note] has no reference
    step. *)
Theorem clef_tables_agree (clef : symbol) :
  match analyse_clef clef with
  | Ok (shape, line) =>
      In (s_pitch clef) CLEF_CODES /\
      getitem CLEFS_HUMDRUM (s_pitch clef) = Ok ("*clef" ++ shape ++ line)%string /\
      exists v, clefline_of (s_pitch clef) = Ok (Some v)
  | Raise e =>
      e = UnboundLocalError "shape" /\
      ~ In (s_pitch clef) CLEF_CODES /\
      getitem CLEFS_HUMDRUM (s_pitch clef) = Raise (KeyError (KStr (s_pitch clef))) /\
      clefline_of (s_pitch clef) = Ok None
  end.
Proof.
  destruct clef as [t c]. cbn [s_pitch].
  destruct (in_dec string_dec c CLEF_CODES) as [Hc | Hc].
  - pose proof Hc as Hc'. unfold CLEF_CODES in Hc. cbn [map fst CLEFS_HUMDRUM In] in Hc.
    repeat (destruct Hc as [<- | Hc];
      [ split; [exact Hc'|]; split; [reflexivity | eexists; reflexivity] |]).
    contradiction.
  - unfold analyse_clef. cbn [s_pitch].
    rewrite !(not_in_code c _ CLEF_CODES Hc) by (vm_compute; tauto).
    cbn [local]. split; [reflexivity|]. split; [exact Hc|].
    split; [|apply clefline_of_unknown, Hc].
    unfold getitem. rewrite lookup_not_in; [reflexivity | exact Hc].
Qed.

(** The ways [analyse_note] can end. *)
Lemma analyse_note_cases (clef : symbol) (pitch : string) :
  match analyse_note clef pitch with
  | Ok _ => In (s_pitch clef) CLEF_CODES /\ In pitch STEP_CODES
  | Raise (KeyError (KStr k)) => k = pitch /\ ~ In pitch STEP_CODES
  | Raise (UnboundLocalError name) =>
      name = "clefline" /\ In pitch STEP_CODES /\ ~ In (s_pitch clef) CLEF_CODES
  | Raise (KeyError (KInt rel)) =>
      In (s_pitch clef) CLEF_CODES /\ In pitch STEP_CODES /\ (rel < -14)%Z
  | Raise _ => False
  end.
Proof.
  destruct clef as [t c]. cbn [s_pitch].
  destruct (in_dec string_dec pitch STEP_CODES) as [Hp | Hp].
  - destruct (in_dec string_dec c CLEF_CODES) as [Hc | Hc].
    + pose proof Hc as Hc'. pose proof Hp as Hp'.
      unfold CLEF_CODES in Hc. cbn [map fst CLEFS_HUMDRUM In] in Hc.
      unfold STEP_CODES in Hp. cbn [map fst MENSURAL_NOTE_STEPS In] in Hp.
      repeat (destruct Hc as [<- | Hc]; [|]); try contradiction;
        repeat (destruct Hp as [<- | Hp]; [|]); try contradiction;
        vm_compute; first [ split; [exact Hc' | exact Hp']
                          | split; [exact Hc' | split; [exact Hp' | reflexivity]] ].
    + unfold analyse_note. cbn [s_pitch].
      rewrite (clefline_of_unknown c Hc). cbn [bind].
      destruct (lookup_in _ pitch MENSURAL_NOTE_STEPS Hp) as [v Hv].
      unfold getitem. rewrite Hv. cbn [bind local].
      split; [reflexivity|]. split; assumption.
  - unfold analyse_note. cbn [s_pitch].
    assert (Hcl : exists o, clefline_of c = Ok o).
    { destruct (in_dec string_dec c CLEF_CODES) as [Hc | Hc].
      - destruct (clefline_of_known c Hc) as [v ->]. eexists; reflexivity.
      - rewrite (clefline_of_unknown c Hc). eexists; reflexivity. }
    destruct Hcl as [o ->]. cbn [bind].
    unfold getitem. rewrite (lookup_not_in _ pitch MENSURAL_NOTE_STEPS Hp).
    cbn [bind]. split; [reflexivity | exact Hp].
Qed.

(** [analyse_note] ends in exactly one of four ways. It returns only for a
    known clef code and a step code of the table; an unknown step code
    raises [KeyError] on that code, whatever the clef; a known step code
    under an unknown clef code raises [UnboundLocalError] on [clefline];
    and the remaining error is the [KeyError] on a relative step below
    -14. *)
Theorem analyse_note_outcomes (clef : symbol) (pitch : string) :
  match analyse_note clef pitch with
  | Ok _ => In (s_pitch clef) CLEF_CODES /\ In pitch STEP_CODES
  | Raise (KeyError (KStr k)) => k = pitch /\ ~ In pitch STEP_CODES
  | Raise (UnboundLocalError name) =>
      name = "clefline" /\ In pitch STEP_CODES /\ ~ In (s_pitch clef) CLEF_CODES
  | Raise (KeyError (KInt rel)) =>
      In (s_pitch clef) CLEF_CODES /\ In pitch STEP_CODES /\ (rel < -14)%Z
  | Raise _ => False
  end.
Proof. exact (analyse_note_cases clef pitch). Qed.

Lemma analyse_note_clef_code (t c : string) (pitch : string) :
  analyse_note (mkSymbol t c) pitch = analyse_note (mkSymbol "clef" c) pitch.
Proof. reflexivity. Qed.

Lemma analyse_note_returns_known (clef : symbol) (pitch : string) (r : Z * string) :
  analyse_note clef pitch = Ok r ->
  In (s_pitch clef) CLEF_CODES /\ In pitch STEP_CODES.
Proof.
  intros H. pose proof (analyse_note_cases clef pitch) as G.
  rewrite H in G. exact G.
Qed.

Lemma analyse_note_injective_check :
  forallb (fun c =>
    forallb (fun p1 =>
      forallb (fun p2 =>
        match analyse_note (mkSymbol "clef" c) p1,
              analyse_note (mkSymbol "clef" c) p2 with
        | Ok (o1, l1), Ok (o2, l2) =>
            negb ((o1 =? o2)%Z && (l1 =? l2)) || (p1 =? p2)
        | _, _ => true
        end) STEP_CODES) STEP_CODES) CLEF_CODES = true.
Proof. vm_compute. reflexivity. Qed.

(** Under one clef, [analyse_note] sends different step codes to different
    pitches: two step codes with the same octave and letter are the same
    code. *)
Theorem analyse_note_injective (clef : symbol) (p1 p2 : string) (r : Z * string) :
  analyse_note clef p1 = Ok r ->
  analyse_note clef p2 = Ok r ->
  p1 = p2.
Proof.
  intros H1 H2.
  destruct (analyse_note_returns_known _ _ _ H1) as [Hc Hp1].
  destruct (analyse_note_returns_known _ _ _ H2) as [_ Hp2].
  destruct clef as [t c]. cbn [s_pitch] in Hc.
  rewrite analyse_note_clef_code in H1, H2.
  pose proof analyse_note_injective_check as G.
  rewrite forallb_forall in G. specialize (G c Hc).
  rewrite forallb_forall in G. specialize (G p1 Hp1).
  rewrite forallb_forall in G. specialize (G p2 Hp2).
  rewrite H1, H2 in G. destruct r as [o l].
  rewrite Z.eqb_refl, String.eqb_refl in G. cbn in G.
  apply String.eqb_eq. exact G.
Qed.

Lemma analyse_note_injective_witness :
  "g1" = "g1".
Proof.
  apply (analyse_note_injective (mkSymbol "clef" "c-c-g") "g1" "g1" (4%Z, "c"));
    reflexivity.
Defined.

Lemma analyse_note_octave_check :
  forallb (fun c =>
    forallb (fun p =>
      forallb (fun q =>
        match analyse_note (mkSymbol "clef" c) p,
              lookup p MENSURAL_NOTE_STEPS, lookup q MENSURAL_NOTE_STEPS with
        | Ok (o, l), Some k, Some k' =>
            negb (k' =? k + 7)%Z ||
            match analyse_note (mkSymbol "clef" c) q with
            | Ok (o', l') => (o' =? o + 1)%Z && (l' =? l)
            | Raise _ => false
            end
        | _, _, _ => true
        end) STEP_CODES) STEP_CODES) CLEF_CODES = true.
Proof. vm_compute. reflexivity. Qed.

(** A step code one register above another (seven positions higher in the
    step table: [c0] and [c1], [a1] and [a2], ...) resolves, whenever the
    lower one resolves, to the same letter one octave higher. *)
Theorem analyse_note_register (clef : symbol) (p q : string) (o : Z) (l : string)
    (k : Z) :
  analyse_note clef p = Ok (o, l) ->
  lookup p MENSURAL_NOTE_STEPS = Some k ->
  lookup q MENSURAL_NOTE_STEPS = Some (k + 7)%Z ->
  analyse_note clef q = Ok ((o + 1)%Z, l).
Proof.
  intros H Hp Hq.
  destruct (analyse_note_returns_known _ _ _ H) as [Hc Hp'].
  pose proof (lookup_some_in _ _ _ _ Hq) as Hq'.
  destruct clef as [t c]. cbn [s_pitch] in Hc.
  rewrite analyse_note_clef_code in H. rewrite analyse_note_clef_code.
  pose proof analyse_note_octave_check as G.
  rewrite forallb_forall in G. specialize (G c Hc).
  rewrite forallb_forall in G. specialize (G p Hp').
  rewrite forallb_forall in G. specialize (G q Hq').
  rewrite H, Hp, Hq, Z.eqb_refl in G. cbn [negb orb] in G.
  destruct (analyse_note (mkSymbol "clef" c) q) as [[o' l']|]; [|discriminate G].
  apply andb_prop in G. destruct G as [Go Gl].
  apply Z.eqb_eq in Go. apply String.eqb_eq in Gl. subst. reflexivity.
Qed.

Lemma analyse_note_register_witness :
  analyse_note (mkSymbol "clef" "c-g") "e2" = Ok (5%Z, "e").
Proof.
  apply (analyse_note_register (mkSymbol "clef" "c-g") "e1" "e2" 4 "e" 9);
    reflexivity.
Defined.

(** ** The flat encoding of a pitch *)

Lemma get_humdrum_pitch_suffix (oct : Z) (pname line : string) :
  get_humdrum_pitch oct pname line = (line ++ get_humdrum_pitch oct pname "")%string.
Proof.
  unfold get_humdrum_pitch.
  destruct (oct =? 2)%Z; [reflexivity|].
  destruct (oct =? 3)%Z; [reflexivity|].
  destruct (oct =? 4)%Z; [reflexivity|].
  destruct (oct =? 5)%Z; [reflexivity|].
  symmetry. apply string_app_nil_r.
Qed.

Lemma humdrum_suffix_check :
  forallb (fun o1 => forallb (fun n1 => forallb (fun o2 => forallb (fun n2 =>
    negb (get_humdrum_pitch o1 n1 "" =? get_humdrum_pitch o2 n2 "")
    || ((o1 =? o2)%Z && (n1 =? n2)))
    DIATONIC_CYCLE) [2; 3; 4; 5]%Z) DIATONIC_CYCLE) [2; 3; 4; 5]%Z = true.
Proof. vm_compute. reflexivity. Qed.

Lemma analyse_note_range (clef : symbol) (pitch : string) (oct : Z) (pname : string) :
  analyse_note clef pitch = Ok (oct, pname) ->
  In oct [2; 3; 4; 5]%Z /\ In pname DIATONIC_CYCLE.
Proof.
  intros H.
  destruct (analyse_note_returns_known _ _ _ H) as [Hc Hp].
  destruct clef as [t c]. cbn [s_pitch] in Hc.
  rewrite analyse_note_clef_code in H.
  assert (G : forallb (fun c => forallb (fun p =>
                match analyse_note (mkSymbol "clef" c) p with
                | Ok (o, l) => in_list l DIATONIC_CYCLE
                               && existsb (Z.eqb o) [2; 3; 4; 5]%Z
                | Raise _ => true
                end) STEP_CODES) CLEF_CODES = true)
    by (vm_compute; reflexivity).
  rewrite forallb_forall in G. specialize (G c Hc).
  rewrite forallb_forall in G. specialize (G pitch Hp).
  rewrite H in G. apply andb_prop in G. destruct G as [Gl Go].
  split.
  - apply existsb_exists in Go. destruct Go as (x & Hx & E).
    apply Z.eqb_eq in E. subst x. exact Hx.
  - apply existsb_exists in Gl. destruct Gl as (x & Hx & E).
    apply String.eqb_eq in E. subst x. exact Hx.
Qed.

(** The flat encoding of pitches loses nothing: two pitches that
    [analyse_note] returned and that [get_humdrum_pitch] appends to the
    same line in the same way have the same octave and the same letter. *)
Theorem humdrum_pitch_injective (c1 c2 : symbol) (p1 p2 : string) (o1 o2 : Z)
    (n1 n2 line : string) :
  analyse_note c1 p1 = Ok (o1, n1) ->
  analyse_note c2 p2 = Ok (o2, n2) ->
  get_humdrum_pitch o1 n1 line = get_humdrum_pitch o2 n2 line ->
  o1 = o2 /\ n1 = n2.
Proof.
  intros H1 H2 E.
  destruct (analyse_note_range _ _ _ _ H1) as [Ho1 Hn1].
  destruct (analyse_note_range _ _ _ _ H2) as [Ho2 Hn2].
  rewrite (get_humdrum_pitch_suffix o1), (get_humdrum_pitch_suffix o2) in E.
  apply string_app_inv_head in E.
  pose proof humdrum_suffix_check as G.
  rewrite forallb_forall in G. specialize (G o1 Ho1).
  rewrite forallb_forall in G. specialize (G n1 Hn1).
  rewrite forallb_forall in G. specialize (G o2 Ho2).
  rewrite forallb_forall in G. specialize (G n2 Hn2).
  rewrite E, String.eqb_refl in G. cbn [negb orb] in G.
  apply andb_prop in G. destruct G as [Go Gn].
  apply Z.eqb_eq in Go. apply String.eqb_eq in Gn. split; assumption.
Qed.

Lemma humdrum_pitch_injective_witness :
  3%Z = 3%Z /\ "d" = "d".
Proof.
  apply (humdrum_pitch_injective (mkSymbol "clef" "c-c-g") (mkSymbol "clef" "c-c-e")
           "a0" "f0" 3 3 "d" "d" "M"); reflexivity.
Defined.

(** ** The writer *)

Lemma drop_extension (base : string) :
  drop_last 3 (base ++ ".mei") = (base ++ ".")%string.
Proof.
  unfold drop_last. rewrite string_length_app. cbn [String.length].
  replace (String.length base + 4 - 3)%nat with (String.length (base ++ "."))
    by (rewrite string_length_app; cbn [String.length]; lia).
  change ".mei" with ("." ++ "mei")%string.
  rewrite <- string_app_assoc. apply substring_prefix.
Qed.

(** What one successful call of [save_mei_file] writes: the document,
    under a name that ends in [.mei], and nothing else unless the flat
    encoding is requested; then the flat buffer follows, under the name of
    the document with its last three characters dropped and [.mens]
    appended, that is, the base name followed by two dots and [mens]. The
    base name is the label of the current staff followed by [_01] when the
    pending file name is new, and the pending file name followed by the
    incremented counter, padded to two digits, otherwise. *)
Theorem save_mei_file_writes (metadata : list string) (fc fc' : Z) (ix n : nat)
    (doc : document) (fn fn' : string) (hs used used' : list string)
    (humdrum : bool) (files files' : list output_file) :
  save_mei_file metadata fc ix doc fn n hs humdrum used files
    = Ok (fn', fc', used', files') ->
  exists base,
    files' = files ++ MeiFile (base ++ ".mei") doc ::
      (if humdrum then [MensFile (base ++ "..mens") hs] else []) /\
    ((existsb (String.eqb fn) used = false /\
      (exists label, metadata_get metadata ix = Ok label /\
                     base = (label ++ "_01")%string) /\
      fc' = 1%Z /\ used' = used ++ [fn]) \/
     (existsb (String.eqb fn) used = true /\
      base = (fn ++ "_" ++ zfill 2 (str (fc + 1)))%string /\
      fc' = (fc + 1)%Z /\ used' = used)).
Proof.
  intros H. apply save_mei_file_inv in H.
  destruct H as (name & -> & [(Hnew & (label & Hl & ->) & -> & ->)
                             | (Hold & -> & -> & ->)] & _).
  - exists (label ++ "_01")%string. split.
    + change "_01.mei" with ("_01" ++ ".mei")%string.
      rewrite <- !string_app_assoc, drop_extension.
      rewrite !string_app_assoc. reflexivity.
    + left. split; [exact Hnew|]. split; [|split; reflexivity].
      exists label. split; [exact Hl | reflexivity].
  - exists (fn ++ "_" ++ zfill 2 (str (fc + 1)))%string. split.
    + replace (fn ++ "_" ++ zfill 2 (str (fc + 1)) ++ ".mei")%string
        with ((fn ++ "_" ++ zfill 2 (str (fc + 1))) ++ ".mei")%string
        by (rewrite !string_app_assoc; reflexivity).
      rewrite drop_extension, !string_app_assoc. reflexivity.
    + right. repeat split. exact Hold.
Qed.

Lemma save_mei_file_writes_witness :
  exists base r,
    save_mei_file ["page1"] 0 0 (mei initial_state) "page1" 1 ["**mens"] true [] []
      = Ok r /\
    snd r = [MeiFile (base ++ ".mei") (mei initial_state);
             MensFile (base ++ "..mens") ["**mens"]].
Proof.
  destruct (save_mei_file_writes ["page1"] 0 1 0 1 (mei initial_state) "page1" "page1"
              ["**mens"] [] ["page1"] true []
              [MeiFile "page1_01.mei" (mei initial_state);
               MensFile "page1_01..mens" ["**mens"]])
    as (base & H & _).
  - reflexivity.
  - exists base. eexists. split; [reflexivity|]. exact H.
Defined.

(** ** The declarations of a document *)

Lemma next_id_cases (ids : list string) (s : state) :
  (exists i, nth_error ids (S (id_counter s)) = Some i /\
             next_id ids s = Ok (i, set_id_counter (S (id_counter s)) s)) \/
  ((List.length ids <= S (id_counter s))%nat /\ next_id ids s = Raise IndexError).
Proof.
  rewrite next_id_eq.
  destruct (nth_error ids (S (id_counter s))) as [i|] eqn:E.
  - left. exists i. split; reflexivity.
  - right. apply nth_error_None in E. split; [exact E | reflexivity].
Qed.

Lemma create_mei_declarations_cases (ids : list string) (head : element) (s : state) :
  match create_mei_declarations ids head s with
  | Ok (d, s') =>
      (id_counter s + 8 < List.length ids)%nat /\
      s' = set_id_counter (id_counter s + 8) s /\
      exists i1 i2 i3 i4 i5 i6 i7 i8,
        firstn 8 (skipn (S (id_counter s)) ids) = [i1; i2; i3; i4; i5; i6; i7; i8] /\
        d = mkDocument head ("mdiv-" ++ i1) ("score-" ++ i2) ("scoreDef-" ++ i3)
              ("staffGrp-" ++ i4) ("staffDef-" ++ i5) ("section-" ++ i6)
              ("staff-" ++ i7) ("layer-" ++ i8) [] [] []
  | Raise e => e = IndexError /\ (List.length ids <= id_counter s + 8)%nat
  end.
Proof.
  unfold create_mei_declarations.
  repeat match goal with
  | |- context [next_id ids ?st] =>
      let i := fresh "i" in
      let E := fresh "E" in
      let L := fresh "L" in
      destruct (next_id_cases ids st) as [(i & E & ->) | (L & ->)];
      [ st_norm; st_norm in E
      | st_norm; st_norm in L; split; [reflexivity | lia] ]
  end.
  assert (Hlen : (id_counter s + 8 < List.length ids)%nat).
  { apply nth_error_Some. replace (id_counter s + 8)%nat
      with (S (S (S (S (S (S (S (S (id_counter s))))))))) by lia.
    congruence. }
  split; [exact Hlen|]. split.
  { rewrite !set_id_counter_twice. f_equal. lia. }
  exists i, i0, i1, i2, i3, i4, i5, i6. split; [|reflexivity].
  repeat match goal with
  | H : nth_error ids _ = Some _ |- _ => apply nth_error_slice in H
  end.
  rewrite E. cbn [firstn]. rewrite E0. rewrite E1. rewrite E2. rewrite E3.
  rewrite E4. rewrite E5. rewrite E6. reflexivity.
Qed.

(** [create_mei_declarations] takes the eight pool entries that follow
    the counter, in the order mdiv, score, scoreDef, staffGrp, staffDef,
    section, staff, layer, and returns a document whose clef and key
    signature have no attribute and whose layer has no child; when fewer
    than eight entries are left it raises [IndexError]. *)
Theorem create_mei_declarations_bounds (ids : list string) (head : element) (s : state) :
  match create_mei_declarations ids head s with
  | Ok (d, s') =>
      (id_counter s + 8 < List.length ids)%nat /\
      s' = set_id_counter (id_counter s + 8) s /\
      exists i1 i2 i3 i4 i5 i6 i7 i8,
        firstn 8 (skipn (S (id_counter s)) ids) = [i1; i2; i3; i4; i5; i6; i7; i8] /\
        d = mkDocument head ("mdiv-" ++ i1) ("score-" ++ i2) ("scoreDef-" ++ i3)
              ("staffGrp-" ++ i4) ("staffDef-" ++ i5) ("section-" ++ i6)
              ("staff-" ++ i7) ("layer-" ++ i8) [] [] []
  | Raise e => e = IndexError /\ (List.length ids <= id_counter s + 8)%nat
  end.
Proof. exact (create_mei_declarations_cases ids head s). Qed.

(** ** Runs that end before the first symbol *)

Lemma combined_metadata_first (d : list (string * list staff)) (st : staff)
    (rest : list staff) :
  fst (convert_to_combined_list_with_metadata d) = st :: rest ->
  exists fn, metadata_get (snd (convert_to_combined_list_with_metadata d)) 0 = Ok fn.
Proof.
  intros H. apply metadata_get_ok. rewrite combined_lengths, H. cbn. lia.
Qed.

(** What precedes the clef search at the first staff of a run. *)
Lemma begin_first_staff_eq (ids : list string) (isodate : nat -> string)
    (humdrum : bool) (stafflist : list staff) (metadata : list string)
    (st : staff) (fn : string) :
  metadata_get metadata 0 = Ok fn ->
  begin_staff ids isodate humdrum stafflist metadata 0 st initial_state
  = match create_mei_declarations ids (create_meihead (isodate 1))
            (set_saved (Some false) initial_state) with
    | Ok (d, s) =>
        s2 <- resolve_clef ids humdrum stafflist st
                (set_first_staff true (set_filename fn (set_mei d (set_doc_no 1 s)))) ;;
        Ok (set_ligature false (set_flat_found false (set_sharp_found false s2)))
    | Raise e => Raise e
    end.
Proof.
  intros Hfn. unfold begin_staff, first_document, new_document. cbn [Nat.eqb].
  change (doc_no (set_saved (Some false) initial_state)) with 0%nat.
  destruct (create_mei_declarations ids (create_meihead (isodate 1))
              (set_saved (Some false) initial_state)) as [[d s]|e];
    cbn [bind]; [|reflexivity].
  rewrite Hfn. reflexivity.
Qed.

(** A run on no staff at all (an empty dictionary, or one whose lists are
    all empty) does not return: the test [if not saved] after the loop
    reads [saved], which only the body of the staff loop assigns. *)
Theorem empty_input_unbound (ids : list string) (isodate : nat -> string)
    (d : list (string * list staff)) (humdrum : bool) :
  fst (convert_to_combined_list_with_metadata d) = [] ->
  convert_to_mei_and_humdrum ids isodate d humdrum
  = Raise (UnboundLocalError "saved").
Proof.
  unfold convert_to_mei_and_humdrum.
  destruct (convert_to_combined_list_with_metadata d) as [stafflist metadata].
  cbn [fst]. intros ->. reflexivity.
Qed.

Lemma empty_input_unbound_witness :
  convert_to_mei_and_humdrum counting_pool fixed_clock [("page1", [])] true
  = Raise (UnboundLocalError "saved").
Proof.
  apply (empty_input_unbound counting_pool fixed_clock [("page1", [])] true).
  reflexivity.
Defined.

(** A run whose first staff is empty, or consists of a clef alone, ends
    with [IndexError]: the clef test reads [staff[0]] and, after a clef,
    the key test reads [staff[1]]. *)
Theorem short_first_staff (ids : list string) (isodate : nat -> string)
    (d : list (string * list staff)) (humdrum : bool) (st : staff)
    (rest : list staff) :
  fst (convert_to_combined_list_with_metadata d) = st :: rest ->
  st = [] \/ (exists c, st = [c] /\ s_type c = "clef") ->
  convert_to_mei_and_humdrum ids isodate d humdrum = Raise IndexError.
Proof.
  intros Hsl Hst.
  destruct (combined_metadata_first d st rest Hsl) as [fn Hfn].
  unfold convert_to_mei_and_humdrum.
  destruct (convert_to_combined_list_with_metadata d) as [stafflist metadata].
  cbn [fst snd] in Hsl, Hfn. subst stafflist.
  unfold run. cbn [run_staves]. unfold run_staff.
  rewrite (begin_first_staff_eq _ _ _ _ _ _ fn Hfn).
  pose proof (create_mei_declarations_cases ids (create_meihead (isodate 1))
                (set_saved (Some false) initial_state)) as Hdecl.
  destruct (create_mei_declarations ids (create_meihead (isodate 1))
              (set_saved (Some false) initial_state)) as [[doc s]|e].
  - unfold resolve_clef. st_norm.
    destruct Hst as [-> | (c & -> & Hc)].
    + reflexivity.
    + unfold item. cbn [nth_error]. st_norm. rewrite Hc. reflexivity.
  - destruct Hdecl as [-> _]. reflexivity.
Qed.

Lemma short_first_staff_witness :
  convert_to_mei_and_humdrum counting_pool fixed_clock
    [("page1", [[Clef "c-c-g"]; [Note "mi" "g1"]])] true
  = Raise IndexError.
Proof.
  apply (short_first_staff counting_pool fixed_clock
           [("page1", [[Clef "c-c-g"]; [Note "mi" "g1"]])] true
           [Clef "c-c-g"] [[Note "mi" "g1"]]).
  - reflexivity.
  - right. exists (Clef "c-c-g"). split; reflexivity.
Defined.

Lemma scan_clef_none (candidates : list staff) (found : option pyval) :
  Forall head_not_clef candidates ->
  scan_clef candidates found = Ok (found, false).
Proof.
  induction 1 as [|st rest (s0 & tl & -> & Hs0) _ IH]; cbn [scan_clef].
  - reflexivity.
  - unfold item. cbn [nth_error bind].
    apply String.eqb_neq in Hs0. rewrite Hs0. exact IH.
Qed.

(** The search for the clef reads the first staff and the staves of index
    1 to n-2: the last staff is not searched. When none of the staves
    before the last begins with a clef, the run ends with
    [UnboundLocalError] on [initial_clef], whatever the last staff begins
    with. *)
Theorem clef_search_skips_last_staff (ids : list string) (isodate : nat -> string)
    (d : list (string * list staff)) (humdrum : bool) (first : staff)
    (others : list staff) :
  fst (convert_to_combined_list_with_metadata d) = first :: others ->
  head_not_clef first ->
  Forall head_not_clef (removelast others) ->
  (8 < List.length ids)%nat ->
  convert_to_mei_and_humdrum ids isodate d humdrum
  = Raise (UnboundLocalError "initial_clef").
Proof.
  intros Hsl (s0 & tl & -> & Hs0) Hothers Hids.
  destruct (combined_metadata_first d _ _ Hsl) as [fn Hfn].
  unfold convert_to_mei_and_humdrum.
  destruct (convert_to_combined_list_with_metadata d) as [stafflist metadata].
  cbn [fst snd] in Hsl, Hfn. subst stafflist.
  unfold run. cbn [run_staves]. unfold run_staff.
  rewrite (begin_first_staff_eq _ _ _ _ _ _ fn Hfn).
  destruct (create_mei_declarations_ok ids (create_meihead (isodate 1))
              (set_saved (Some false) initial_state)) as (doc & -> & _);
    [cbn; lia|].
  unfold resolve_clef. st_norm. unfold item. cbn [nth_error bind].
  apply String.eqb_neq in Hs0. rewrite Hs0.
  cbn [List.length skipn].
  replace (S (List.length others) - 2)%nat with (pred (List.length others)) by lia.
  rewrite <- removelast_firstn_len.
  rewrite (scan_clef_none _ _ Hothers). reflexivity.
Qed.

Lemma clef_search_skips_last_staff_witness :
  convert_to_mei_and_humdrum counting_pool fixed_clock
    [("page1", [[Note "mi" "g1"]; [Note "mi" "a1"]; [Clef "c-c-g"; Note "mi" "g1"]])]
    false
  = Raise (UnboundLocalError "initial_clef").
Proof.
  apply (clef_search_skips_last_staff counting_pool fixed_clock
           [("page1", [[Note "mi" "g1"]; [Note "mi" "a1"];
                       [Clef "c-c-g"; Note "mi" "g1"]])]
           false [Note "mi" "g1"] [[Note "mi" "a1"]; [Clef "c-c-g"; Note "mi" "g1"]]).
  - reflexivity.
  - eexists; eexists. split; [reflexivity | discriminate].
  - cbn [removelast]. constructor; [|constructor].
    eexists; eexists. split; [reflexivity | discriminate].
  - apply Nat.ltb_lt. vm_compute. reflexivity.
Defined.

(** ** Steps of the symbol loop *)

Section MoreSteps.

Variable ids : list string.
Variable isodate : nat -> string.
Variable stafflist : list staff.
Variable metadata : list string.

Lemma has_key_unknown (V : Type) (k : string) (d : list (string * V)) :
  ~ In k (map fst d) -> has_key k d = false.
Proof. intros H. unfold has_key. rewrite (lookup_not_in _ _ _ H). reflexivity. Qed.

(** A symbol of none of the kinds the loop dispatches on, and which is not
    the initial clef - a second, different clef for one. When its type
    equals the key variable and it stands at index 1 (or at index 2 under
    the clef code ["c-c-g"]), it is skipped like a flat of the key: with the
    key none, that is the symbol of empty type. Otherwise it adds nothing
    to the document and changes no variable, so the clef in force stays the
    initial clef; with the flat encoding off that is all, and with the flat
    encoding on the step appends the line of the previous symbol once more
    (and, when that line was a custos line, the two lines that follow a
    custos), or raises [UnboundLocalError] when no line was produced yet. *)
Theorem unknown_symbol_step (humdrum : bool) (ix_staff ix_symbol : nat)
    (sym c : symbol) (s : state) :
  initial_clef s = Some (PyDict c) ->
  symbol_eqb sym c = false ->
  ~ In (s_type sym) DISPATCHED_TYPES ->
  process_symbol ids isodate humdrum stafflist metadata ix_staff ix_symbol sym s
  = (if ((s_type sym =? initial_key s) && (ix_symbol =? 1)%nat)
        || ((s_type sym =? initial_key s) && (ix_symbol =? 2)%nat
            && (s_pitch (clef s) =? "c-c-g"))
     then Continue s
     else if humdrum then
       match humdrum_line s with
       | Some hl =>
           Next (if contains "custos" hl
                 then append_lines ["!!LO:LB:g=z"; "=-"] (append_lines [hl] s)
                 else append_lines [hl] s)
       | None => Abort (UnboundLocalError "humdrum_line")
       end
     else Next s) /\
  (key_resolved s -> s_type sym <> "" ->
   (s_type sym =? initial_key s) = false).
Proof.
  intros Hic Hne Ht.
  assert (Hk : forall k, In k DISPATCHED_TYPES -> (s_type sym =? k) = false).
  { intros k. apply not_in_code, Ht. }
  assert (Hrest : has_key (s_type sym) RESTS_MEI = false).
  { apply has_key_unknown. intros H. apply Ht. unfold DISPATCHED_TYPES.
    apply in_app_iff. right. apply in_app_iff. left. exact H. }
  assert (Hnote : has_key (s_type sym) NOTES_MEI = false).
  { apply has_key_unknown. intros H. apply Ht. unfold DISPATCHED_TYPES.
    apply in_app_iff. right. apply in_app_iff. right. exact H. }
  split.
  - unfold process_symbol. rewrite Hic. st_norm. rewrite Hne.
    destruct ((s_type sym =? initial_key s) && (ix_symbol =? 1)%nat);
      [reflexivity|].
    destruct ((s_type sym =? initial_key s) && (ix_symbol =? 2)%nat
              && (s_pitch (clef s) =? "c-c-g")); [reflexivity|].
    cbn [orb].
    unfold mens_block, dot_block, rest_block, note_block, bar_block, custos_block,
      emit_line.
    rewrite Hrest, Hnote.
    rewrite !Hk by (vm_compute; tauto). st_norm.
    destruct humdrum; [|reflexivity].
    destruct (humdrum_line s) as [hl|]; st_norm; [|reflexivity].
    destruct (contains "custos" hl); reflexivity.
  - intros [-> | ->] Hempty.
    + apply String.eqb_neq. exact Hempty.
    + apply Hk. vm_compute. tauto.
Qed.

(** The kinds that reach the dispatch: neither the initial clef nor of the
    key's type. *)
Lemma process_symbol_dispatch (humdrum : bool) (ix_staff ix_symbol : nat)
    (sym : symbol) (s : state) :
  clef_resolved s -> key_resolved s ->
  s_type sym <> "clef" -> s_type sym <> "" -> s_type sym <> "flat" ->
  s_type sym <> "sharp" ->
  process_symbol ids isodate humdrum stafflist metadata ix_staff ix_symbol sym s
  = and_then (mens_block ids humdrum sym s) (fun s =>
    and_then (dot_block ids humdrum sym s) (fun s =>
    and_then (rest_block ids humdrum sym s) (fun s =>
    and_then (note_block ids humdrum sym s) (fun s =>
    and_then (bar_block ids isodate humdrum stafflist metadata ix_staff sym s) (fun s =>
    and_then (custos_block ids humdrum stafflist ix_staff sym s)
      (emit_line humdrum)))))).
Proof.
  intros (c & Hic & Hc & Hct) Hkey Hclef Hempty Hflat Hsharp.
  unfold process_symbol. rewrite Hic. st_norm.
  assert (Hne : symbol_eqb sym c = false).
  { unfold symbol_eqb. rewrite Hct.
    apply String.eqb_neq in Hclef. rewrite Hclef. reflexivity. }
  rewrite Hne.
  assert (Hk : (s_type sym =? initial_key s) = false).
  { apply String.eqb_neq. destruct Hkey as [-> | ->]; assumption. }
  rewrite Hk. cbn [andb].
  apply String.eqb_neq in Hflat, Hsharp. rewrite Hflat, Hsharp. reflexivity.
Qed.

(** A mensuration symbol the converter cannot read ends the run: the
    proportion [met_3_2] before any mensuration sign raises
    [UnboundLocalError] on [mensur], and a code that is none of [met_3_2],
    [met_c], [al-br], [met_o_cut] raises [UnboundLocalError] on [sign]
    (after the mensuration element was added to the layer). *)
Theorem unreadable_mensuration_aborts (humdrum : bool) (ix_staff ix_symbol : nat)
    (code : string) (s : state) :
  clef_resolved s -> key_resolved s ->
  (S (id_counter s) < List.length ids)%nat ->
  (code = "met_3_2" -> mensur s = None ->
   process_symbol ids isodate humdrum stafflist metadata ix_staff ix_symbol
     (Mensuration code) s = Abort (UnboundLocalError "mensur")) /\
  (~ In code ("met_3_2" :: MENSURATION_CODES) ->
   process_symbol ids isodate humdrum stafflist metadata ix_staff ix_symbol
     (Mensuration code) s = Abort (UnboundLocalError "sign")).
Proof.
  intros Hclef Hkey Hids.
  rewrite (process_symbol_dispatch humdrum ix_staff ix_symbol (Mensuration code) s
             Hclef Hkey) by (cbn; discriminate).
  split.
  - intros -> Hm.
    unfold mens_block. cbn [Mensuration s_type s_pitch]. eval_tests.
    rewrite Hm. reflexivity.
  - intros Hout.
    unfold mens_block. cbn [Mensuration s_type s_pitch]. eval_tests.
    rewrite (not_in_code code "met_3_2" _ Hout) by (left; reflexivity).
    destruct (sub_element_ok ids "mensur" "mens" []
                (set_mensur (Some (doc_no s, List.length (layer s))) s))
      as [i ->]; [st_norm; exact Hids|].
    st_norm. unfold analyse_mensuration. cbn [s_pitch].
    unfold MENSURATION_CODES in Hout.
    rewrite !(not_in_code code _ _ Hout) by (vm_compute; tauto).
    reflexivity.
Qed.

(** A plain note (any note kind but ["li"], outside a ligature): the step
    adds one note element to the layer, with its identifier, the duration
    of the kind, the octave and the letter [analyse_note] returns, the
    [colored] mark for the two coloured kinds, and the pending accidental
    - the flat when both a sharp and a flat are pending. Both pending
    flags are cleared. With the flat encoding on, one line is appended:
    the kind's token, the pitch, then [#] for a pending sharp and [-] for
    a pending flat. *)
Theorem plain_note_step (humdrum : bool) (ix_staff ix_symbol : nat) (K P : string)
    (s : state) (o : Z) (p : string) :
  clef_resolved s -> key_resolved s ->
  In K (map fst NOTES_MEI) -> K <> "li" ->
  ligature s = false ->
  analyse_note (clef s) P = Ok (o, p) ->
  (S (id_counter s) < List.length ids)%nat ->
  exists s' i dur lh,
    process_symbol ids isodate humdrum stafflist metadata ix_staff ix_symbol
      (Note K P) s = Next s' /\
    nth_error ids (S (id_counter s)) = Some i /\
    lookup K NOTES_MEI = Some dur /\ lookup K NOTES_HUMDRUM = Some lh /\
    layer s' = layer s ++
      [Elem "note"
         (note_attributes i dur o p ((K =? "br") || (K =? "sb"))
            (sharp_found s) (flat_found s)) []] /\
    sharp_found s' = false /\ flat_found s' = false /\ ligature s' = false /\
    id_counter s' = S (id_counter s) /\
    humdrum_string s'
    = humdrum_string s ++
        (if humdrum then
           let line := (get_humdrum_pitch o p lh
                        ++ (if sharp_found s then "#" else "")
                        ++ (if flat_found s then "-" else ""))%string in
           line :: (if contains "custos" line then ["!!LO:LB:g=z"; "=-"] else [])
         else []).
Proof.
  intros Hclef Hkey HK Hnli Hlig Hnote Hids.
  rewrite (process_symbol_dispatch humdrum ix_staff ix_symbol (Note K P) s Hclef Hkey);
    try (cbn [Note s_type] in *; intros ->; cbn in HK; intuition discriminate).
  destruct (next_id_cases ids s) as [(i & Hi & Hnext) | (Hlen & _)]; [|lia].
  destruct s as [idc used wr fc hs sv dn [dh d1 d2 d3 d4 d5 d6 d7 d8 dc dk dl]
                 fn fs ic cl ik sh fl lg me xl hl lh0].
  clear Hnext Hclef Hkey Hids. cbn in Hlig, Hnote. st_norm in Hi. subst lg.
  cbn in HK.
  repeat (destruct HK as [<- | HK];
    [try (exfalso; apply Hnli; reflexivity)|]); try contradiction.
  all: clear Hnli.
  all: unfold mens_block, dot_block, rest_block, note_block, bar_block,
         custos_block, emit_line, sub_element;
    cbn [Note s_type s_pitch]; eval_tests; st_norm; rewrite Hnote; st_norm;
    rewrite next_id_eq; st_norm; rewrite Hi; st_norm; rewrite ?edit_last_snoc.
  all: destruct humdrum; st_norm; eval_tests; st_norm; rewrite ?edit_last_snoc;
    destruct sh; destruct fl;
    repeat (st_norm;
            first [ rewrite edit_last_snoc | progress unfold edit_note ]).
  all: st_norm;
    try match goal with
        | |- context [contains ?a ?b] => destruct (contains a b) eqn:Hcus
        end;
    eexists; exists i; eexists; eexists;
    (split; [reflexivity|]); (split; [reflexivity|]);
    (split; [reflexivity|]); (split; [reflexivity|]);
    st_norm;
    (split; [reflexivity|]); (split; [reflexivity|]); (split; [reflexivity|]);
    (split; [reflexivity|]); (split; [reflexivity|]);
    cbn [append]; try rewrite !string_app_assoc in Hcus;
    try (cbn [append] in Hcus);
    rewrite ?string_app_assoc; cbn [append];
    rewrite ?string_app_nil_r, ?Hcus, ?app_nil_r, <- ?app_assoc; reflexivity.
Qed.

Lemma contains_custos (x : string) : contains "custos" ("*custos" ++ x) = true.
Proof. destruct x; reflexivity. Qed.

(** A custos adds one custos element to the layer. On a staff that is not
    the last, the element takes the octave and the letter of the first
    note of the next staff, resolved under the clef in force on the
    current staff, and the flat encoding gets the custos line with that
    pitch, followed by the line-break comment and the invisible barline.
    On the last staff, or when the next staff has no note, the element has
    no pitch, and the flat encoding repeats the line of the previous
    symbol instead of a custos line. *)
Theorem custos_step (humdrum : bool) (ix_staff ix_symbol : nat) (pc hl : string)
    (s : state) :
  clef_resolved s -> key_resolved s ->
  (S (id_counter s) < List.length ids)%nat ->
  (humdrum = true -> humdrum_line s = Some hl) ->
  match custos_target stafflist ix_staff with
  | Some sy =>
      forall o p,
        analyse_note (clef s) (s_pitch sy) = Ok (o, p) ->
        exists s' i,
          process_symbol ids isodate humdrum stafflist metadata ix_staff ix_symbol
            (mkSymbol "custos" pc) s = Next s' /\
          layer s' = layer s ++
            [Elem "custos" [(XML_ID, ("custos-" ++ i)%string); ("oct", str o);
                            ("pname", p)] []] /\
          humdrum_string s'
          = humdrum_string s ++
              (if humdrum
               then [get_humdrum_pitch o p "*custos"; "!!LO:LB:g=z"; "=-"]
               else [])
  | None =>
      exists s' i,
        process_symbol ids isodate humdrum stafflist metadata ix_staff ix_symbol
          (mkSymbol "custos" pc) s = Next s' /\
        layer s' = layer s ++ [Elem "custos" [(XML_ID, ("custos-" ++ i)%string)] []] /\
        humdrum_string s'
        = humdrum_string s ++
            (if humdrum
             then hl :: (if contains "custos" hl then ["!!LO:LB:g=z"; "=-"] else [])
             else [])
  end.
Proof.
  intros Hclef Hkey Hids Hline.
  rewrite (process_symbol_dispatch humdrum ix_staff ix_symbol (mkSymbol "custos" pc) s
             Hclef Hkey) by (cbn; discriminate).
  destruct (next_id_cases ids s) as [(i & Hi & _) | (Hlen & _)]; [|lia].
  unfold mens_block, dot_block, rest_block, note_block, bar_block, custos_block,
    emit_line, sub_element.
  cbn [s_type s_pitch]. eval_tests. st_norm.
  rewrite next_id_eq, Hi. st_norm.
  unfold custos_target.
  destruct (Z.ltb_spec (Z.of_nat ix_staff) (Z.of_nat (List.length stafflist) - 1))
    as [Hlt | Hge].
  - unfold item.
    destruct (nth_error stafflist (ix_staff + 1)) as [following|] eqn:E;
      [|apply nth_error_None in E; lia].
    st_norm.
    destruct (find (fun sy => has_key (s_type sy) NOTES_MEI) following) as [sy|].
    + intros o p Hn.
      destruct humdrum; st_norm; rewrite Hn; st_norm; rewrite edit_last_snoc;
        st_norm.
      * rewrite (get_humdrum_pitch_suffix o p "*custos"), contains_custos.
        eexists; exists i. split; [reflexivity|]. st_norm.
        split; [reflexivity|]. rewrite <- app_assoc. reflexivity.
      * eexists; exists i. split; [reflexivity|]. st_norm.
        split; [reflexivity|]. symmetry. apply app_nil_r.
    + destruct humdrum; st_norm.
      * rewrite (Hline eq_refl). st_norm.
        destruct (contains "custos" hl); eexists; exists i;
          (split; [reflexivity|]); st_norm; (split; [reflexivity|]);
          rewrite <- ?app_assoc; reflexivity.
      * eexists; exists i. split; [reflexivity|]. st_norm.
        split; [reflexivity|]. symmetry. apply app_nil_r.
  - destruct humdrum; st_norm.
    + rewrite (Hline eq_refl). st_norm.
      destruct (contains "custos" hl); eexists; exists i;
        (split; [reflexivity|]); st_norm; (split; [reflexivity|]);
        rewrite <- ?app_assoc; reflexivity.
    + eexists; exists i. split; [reflexivity|]. st_norm.
      split; [reflexivity|]. symmetry. apply app_nil_r.
Qed.

End MoreSteps.

Lemma unknown_symbol_step_witness :
  process_symbol counting_pool fixed_clock true [scenario_staff] ["page1"] 0 3
    (Clef "c-g") (set_humdrum_line (Some "Mc") scenario_loop_state)
  = Next (append_lines ["Mc"] (set_humdrum_line (Some "Mc") scenario_loop_state)).
Proof.
  destruct (unknown_symbol_step counting_pool fixed_clock [scenario_staff] ["page1"]
              true 0 3 (Clef "c-g") (Clef "c-c-g")
              (set_humdrum_line (Some "Mc") scenario_loop_state))
    as [H _].
  - reflexivity.
  - reflexivity.
  - vm_compute. intuition discriminate.
  - rewrite H. reflexivity.
Defined.

Lemma unreadable_mensuration_aborts_witness :
  process_symbol counting_pool fixed_clock true [scenario_staff] ["page1"] 0 2
    (Mensuration "met_3_2") scenario_loop_state
  = Abort (UnboundLocalError "mensur") /\
  process_symbol counting_pool fixed_clock true [scenario_staff] ["page1"] 0 2
    (Mensuration "met_o") scenario_loop_state
  = Abort (UnboundLocalError "sign").
Proof.
  split.
  - apply (unreadable_mensuration_aborts counting_pool fixed_clock [scenario_staff]
             ["page1"] true 0 2 "met_3_2" scenario_loop_state).
    + exact (proj1 scenario_loop_inv).
    + exact (proj1 (proj2 scenario_loop_inv)).
    + apply (scenario_pool_left 1). lia.
    + reflexivity.
    + reflexivity.
  - apply (unreadable_mensuration_aborts counting_pool fixed_clock [scenario_staff]
             ["page1"] true 0 2 "met_o" scenario_loop_state).
    + exact (proj1 scenario_loop_inv).
    + exact (proj1 (proj2 scenario_loop_inv)).
    + apply (scenario_pool_left 1). lia.
    + vm_compute. intuition discriminate.
Defined.

Lemma plain_note_step_witness :
  exists s',
    process_symbol counting_pool fixed_clock true [scenario_staff] ["page1"] 0 3
      (Note "mi" "g1") scenario_loop_state = Next s' /\
    humdrum_string s' = humdrum_string scenario_loop_state ++ ["Mc"].
Proof.
  destruct (plain_note_step counting_pool fixed_clock [scenario_staff] ["page1"]
              true 0 3 "mi" "g1" scenario_loop_state 4 "c")
    as (s' & i & dur & lh & Hstep & _ & _ & Hlh & _ & _ & _ & _ & _ & Hhs).
  - exact (proj1 scenario_loop_inv).
  - exact (proj1 (proj2 scenario_loop_inv)).
  - cbn. tauto.
  - discriminate.
  - reflexivity.
  - reflexivity.
  - apply (scenario_pool_left 1). lia.
  - exists s'. split; [exact Hstep|]. rewrite Hhs.
    vm_compute in Hlh. injection Hlh as <-. reflexivity.
Defined.

Lemma custos_step_witness :
  exists s' i,
    process_symbol counting_pool fixed_clock false [scenario_staff] ["page1"] 0 3
      (mkSymbol "custos" "") scenario_loop_state = Next s' /\
    layer s' = layer scenario_loop_state
               ++ [Elem "custos" [(XML_ID, ("custos-" ++ i)%string)] []].
Proof.
  pose proof (custos_step counting_pool fixed_clock [scenario_staff] ["page1"]
                false 0 3 "" "" scenario_loop_state) as H.
  destruct H as (s' & i & Hstep & Hl & _).
  - exact (proj1 scenario_loop_inv).
  - exact (proj1 (proj2 scenario_loop_inv)).
  - apply (scenario_pool_left 1). lia.
  - discriminate.
  - exists s', i. split; [exact Hstep | exact Hl].
Defined.

(** ** The documents do not depend on the flat encoding *)

Ltac st_eval :=
  lazy beta iota zeta delta
    [id_counter used_filenames written filename_counter humdrum_string saved
     doc_no mei filename first_staff initial_clef clef initial_key sharp_found
     flat_found ligature mensur xml_lig humdrum_line line_humdrum
     set_id_counter set_used_filenames set_written set_filename_counter
     set_humdrum_string set_saved set_doc_no set_mei set_filename
     set_first_staff set_initial_clef set_clef set_initial_key set_sharp_found
     set_flat_found set_ligature set_mensur set_xml_lig set_humdrum_line
     set_line_humdrum
     d_head d_mdiv d_score d_scoreDef d_staffGrp d_staffDef d_section d_staff
     d_layer xml_clef xml_keySign xml_layer set_xml_clef set_xml_keySign
     set_xml_layer layer set_layer append_lines
     bind try and_then local fst snd negb andb orb
     without_flat same_mei same_mei_step same_mei_result].

Ltac break_pair H :=
  repeat (st_lazy H; rewrite ?next_id_eq in H; st_lazy H;
          first [ discriminate H | break_inner H ]).

Ltac sim_cases H :=
  break_pair H; subst; st_eval;
  first [ exact I
        | unfold mei_only; rewrite ?flat_map_app; cbn [flat_map app];
          rewrite ?app_nil_r;
          first [ reflexivity | left; reflexivity | right; reflexivity
                | repeat f_equal; congruence ] ].

(** Proves [same_mei a b] (or one of its two variants) by examining the
    two runs together, so that the tests they share are decided once. *)
Ltac sim_pair R unfolder :=
  match goal with
  | |- R ?a ?b =>
      let G := fresh "G" in
      assert (G : forall fg, (a, b) = fg -> R (fst fg) (snd fg));
      [ let fg := fresh "fg" in
        let H := fresh "H" in
        intros fg H; unfolder H; sim_cases H
      | exact (G _ eq_refl) ]
  end.

Section Sim.

Variable ids : list string.
Variable isodate : nat -> string.
Variable stafflist : list staff.
Variable metadata : list string.

Lemma mens_block_sim (sym : symbol) (s : state) :
  same_mei (mens_block ids true sym s) (mens_block ids false sym (without_flat s)).
Proof.
  sim_pair same_mei
    ltac:(fun H => unfold mens_block, sub_element, last_item, without_flat in H).
Qed.

Lemma rest_block_sim (sym : symbol) (s : state) :
  same_mei (rest_block ids true sym s) (rest_block ids false sym (without_flat s)).
Proof.
  sim_pair same_mei ltac:(fun H => unfold rest_block, sub_element, without_flat in H).
Qed.

Lemma note_block_sim (sym : symbol) (s : state) :
  same_mei (note_block ids true sym s) (note_block ids false sym (without_flat s)).
Proof.
  sim_pair same_mei
    ltac:(fun H => unfold note_block, sub_element, move_note_to_ligature, edit_note,
                     without_flat in H).
Qed.

Lemma bar_block_sim (ix_staff : nat) (sym : symbol) (s : state) :
  same_mei (bar_block ids isodate true stafflist metadata ix_staff sym s)
    (bar_block ids isodate false stafflist metadata ix_staff sym (without_flat s)).
Proof.
  sim_pair same_mei
    ltac:(fun H => unfold bar_block, sub_element, save, save_mei_file, new_document,
                     create_mei_declarations, without_flat in H).
Qed.

Lemma custos_block_sim (ix_staff : nat) (sym : symbol) (s : state) :
  same_mei (custos_block ids true stafflist ix_staff sym s)
    (custos_block ids false stafflist ix_staff sym (without_flat s)).
Proof.
  sim_pair same_mei
    ltac:(fun H => unfold custos_block, sub_element, without_flat in H).
Qed.

Lemma emit_line_sim (s : state) :
  same_mei (emit_line true s) (emit_line false (without_flat s)).
Proof.
  sim_pair same_mei ltac:(fun H => unfold emit_line, without_flat in H).
Qed.

Lemma and_then_sim (f g : flow) (k k' : state -> flow) :
  same_mei f g ->
  (forall s1, same_mei (k s1) (k' (without_flat s1))) ->
  same_mei (and_then f k) (and_then g k').
Proof.
  intros Hf Hk. destruct f as [s1|s1|e]; cbn [same_mei and_then] in *.
  - subst g. cbn [and_then]. apply Hk.
  - subst g. reflexivity.
  - exact I.
Qed.

Lemma same_mei_lax (f g : flow) : same_mei f g -> same_mei_step f g.
Proof. destruct f; cbn; auto. Qed.

Lemma dot_block_skip (humdrum : bool) (sym : symbol) (s : state) :
  (s_type sym =? "dot") = false -> dot_block ids humdrum sym s = Next s.
Proof. intros H. unfold dot_block. rewrite H. reflexivity. Qed.

(** A dot ends the iteration with [continue] when the flat encoding is on
    and falls through the remaining tests, none of which applies,
    otherwise. *)
Lemma dot_step_sim (ix_staff : nat) (p : string) (s : state) :
  same_mei_step
    (and_then (mens_block ids true (mkSymbol "dot" p) s) (fun s =>
     and_then (dot_block ids true (mkSymbol "dot" p) s) (fun s =>
     and_then (rest_block ids true (mkSymbol "dot" p) s) (fun s =>
     and_then (note_block ids true (mkSymbol "dot" p) s) (fun s =>
     and_then (bar_block ids isodate true stafflist metadata ix_staff
                 (mkSymbol "dot" p) s) (fun s =>
     and_then (custos_block ids true stafflist ix_staff (mkSymbol "dot" p) s)
       (emit_line true)))))))
    (and_then (mens_block ids false (mkSymbol "dot" p) (without_flat s)) (fun s =>
     and_then (dot_block ids false (mkSymbol "dot" p) s) (fun s =>
     and_then (rest_block ids false (mkSymbol "dot" p) s) (fun s =>
     and_then (note_block ids false (mkSymbol "dot" p) s) (fun s =>
     and_then (bar_block ids isodate false stafflist metadata ix_staff
                 (mkSymbol "dot" p) s) (fun s =>
     and_then (custos_block ids false stafflist ix_staff (mkSymbol "dot" p) s)
       (emit_line false))))))).
Proof.
  unfold mens_block, dot_block, rest_block, note_block, bar_block, custos_block,
    emit_line.
  cbn [s_type s_pitch]. eval_tests. st_norm.
  sim_pair same_mei_step
    ltac:(fun H => unfold sub_element, last_item, without_flat in H).
Qed.

Lemma process_symbol_sim (ix_staff ix_symbol : nat) (sym : symbol) (s : state) :
  same_mei_step
    (process_symbol ids isodate true stafflist metadata ix_staff ix_symbol sym s)
    (process_symbol ids isodate false stafflist metadata ix_staff ix_symbol sym
       (without_flat s)).
Proof.
  unfold process_symbol.
  change (initial_clef (without_flat s)) with (initial_clef s).
  change (initial_key (without_flat s)) with (initial_key s).
  change (clef (without_flat s)) with (clef s).
  destruct (local "initial_clef" (initial_clef s)) as [ic|e]; cbn [try]; [|exact I].
  destruct (match ic with PyDict c => _ | PyNone => None end) as [c|].
  { right. reflexivity. }
  repeat match goal with
  | |- context [if ?b then Continue _ else _] =>
      destruct b; [right; reflexivity|]
  end.
  destruct (s_type sym =? "dot") eqn:Hdot.
  - apply String.eqb_eq in Hdot. destruct sym as [t p]. cbn [s_type] in Hdot.
    subst t. apply dot_step_sim.
  - apply same_mei_lax.
    apply and_then_sim; [apply mens_block_sim|]. intros s1.
    rewrite !(dot_block_skip _ _ _ Hdot). cbn [and_then].
    apply and_then_sim; [apply rest_block_sim|]. intros s2.
    apply and_then_sim; [apply note_block_sim|]. intros s3.
    apply and_then_sim; [apply bar_block_sim|]. intros s4.
    apply and_then_sim; [apply custos_block_sim|]. intros s5.
    apply emit_line_sim.
Qed.

Lemma run_symbols_sim (ix_staff : nat) (syms : list symbol) :
  forall ix_symbol s,
    same_mei_result
      (run_symbols ids isodate true stafflist metadata ix_staff ix_symbol syms s)
      (run_symbols ids isodate false stafflist metadata ix_staff ix_symbol syms
         (without_flat s)).
Proof.
  induction syms as [|sym syms IH]; intros ix s; cbn [run_symbols].
  - reflexivity.
  - pose proof (process_symbol_sim ix_staff ix sym s) as H.
    destruct (process_symbol ids isodate true stafflist metadata ix_staff ix sym s)
      as [s1|s1|e]; cbn [same_mei_step] in H; [| |exact I];
      destruct H as [-> | ->]; apply IH.
Qed.

Lemma begin_staff_sim (ix_staff : nat) (st : staff) (s : state) :
  same_mei_result
    (begin_staff ids isodate true stafflist metadata ix_staff st s)
    (begin_staff ids isodate false stafflist metadata ix_staff st (without_flat s)).
Proof.
  sim_pair same_mei_result
    ltac:(fun H => unfold begin_staff, first_document, new_document,
                     create_mei_declarations, resolve_clef, without_flat in H).
Qed.

Lemma end_of_staff_sim (ix_staff : nat) (s : state) :
  same_mei_result
    (end_of_staff ids stafflist ix_staff s)
    (end_of_staff ids stafflist ix_staff (without_flat s)).
Proof.
  sim_pair same_mei_result
    ltac:(fun H => unfold end_of_staff, sub_element, without_flat in H).
Qed.

Lemma save_sim (ix_staff : nat) (s : state) :
  same_mei_result
    (save true stafflist metadata ix_staff s)
    (save false stafflist metadata ix_staff (without_flat s)).
Proof.
  sim_pair same_mei_result
    ltac:(fun H => unfold save, save_mei_file, without_flat in H).
Qed.

Lemma bind_sim (r r' : result state) (k k' : state -> result state) :
  same_mei_result r r' ->
  (forall s1, same_mei_result (k s1) (k' (without_flat s1))) ->
  same_mei_result (bind r k) (bind r' k').
Proof.
  intros Hr Hk. destruct r as [s1|e]; cbn [same_mei_result bind] in *; [|exact I].
  subst r'. cbn [bind]. apply Hk.
Qed.

Lemma run_staff_sim (ix_staff : nat) (st : staff) (s : state) :
  same_mei_result
    (run_staff ids isodate true stafflist metadata ix_staff st s)
    (run_staff ids isodate false stafflist metadata ix_staff st (without_flat s)).
Proof.
  unfold run_staff.
  apply bind_sim; [apply begin_staff_sim|]. intros s1.
  apply bind_sim; [apply run_symbols_sim|]. intros s2.
  apply end_of_staff_sim.
Qed.

Lemma run_staves_sim (staves : list staff) :
  forall ix_staff s,
    same_mei_result
      (run_staves ids isodate true stafflist metadata ix_staff staves s)
      (run_staves ids isodate false stafflist metadata ix_staff staves
         (without_flat s)).
Proof.
  induction staves as [|st staves IH]; intros ix s; cbn [run_staves].
  - reflexivity.
  - apply bind_sim; [apply run_staff_sim|]. intros s1. apply IH.
Qed.

Lemma run_sim (s : state) :
  same_mei_result
    (run ids isodate true stafflist metadata s)
    (run ids isodate false stafflist metadata (without_flat s)).
Proof.
  unfold run.
  apply bind_sim; [apply run_staves_sim|]. intros s1.
  change (saved (without_flat s1)) with (saved s1).
  destruct (local "saved" (saved s1)) as [sv|e]; cbn [bind]; [|exact I].
  destruct sv; cbn [negb]; [reflexivity | apply save_sim].
Qed.

End Sim.

Lemma mei_only_names (fs : list output_file) :
  mei_names (mei_only fs) = mei_names fs.
Proof.
  induction fs as [|[n d|n l] fs IH]; cbn; [reflexivity | f_equal; exact IH | exact IH].
Qed.

Lemma mei_only_docs (fs : list output_file) :
  mei_docs (mei_only fs) = mei_docs fs.
Proof.
  induction fs as [|[n d|n l] fs IH]; cbn; [reflexivity | f_equal; exact IH | exact IH].
Qed.

Lemma mei_only_no_flat (fs : list output_file) : mens_files (mei_only fs) = [].
Proof. induction fs as [|[n d|n l] fs IH]; cbn; assumption || reflexivity. Qed.

(** The documents do not depend on the flat encoding: when a run with the
    flat encoding on returns, the run on the same input, pool and clock
    with the encoding off returns too, writes the same documents under the
    same names, in the same order, and writes no flat file; its final state
    differs only in the flat buffer, the two line variables and the list
    of files. Asking for the flat encoding can make a run fail, never
    change a document. *)
Theorem documents_without_flat (ids : list string) (isodate : nat -> string)
    (symbols_and_pitches : list (string * list staff)) (final : state) :
  convert_to_mei_and_humdrum ids isodate symbols_and_pitches true = Ok final ->
  exists final',
    convert_to_mei_and_humdrum ids isodate symbols_and_pitches false = Ok final' /\
    final' = without_flat final /\
    mei_names (written final') = mei_names (written final) /\
    mei_docs (written final') = mei_docs (written final) /\
    mens_files (written final') = [].
Proof.
  unfold convert_to_mei_and_humdrum.
  destruct (convert_to_combined_list_with_metadata symbols_and_pitches)
    as [stafflist metadata].
  intros H.
  pose proof (run_sim ids isodate stafflist metadata initial_state) as G.
  rewrite H in G. cbn [same_mei_result] in G.
  change (without_flat initial_state) with initial_state in G.
  exists (without_flat final). split; [exact G|]. split; [reflexivity|].
  unfold without_flat. st_norm.
  split; [apply mei_only_names|]. split; [apply mei_only_docs | apply mei_only_no_flat].
Qed.

Lemma documents_without_flat_witness :
  exists final final',
    convert_to_mei_and_humdrum counting_pool fixed_clock (scenario_piece "page1") true
      = Ok final /\
    convert_to_mei_and_humdrum counting_pool fixed_clock (scenario_piece "page1") false
      = Ok final' /\
    mei_docs (written final') = mei_docs (written final).
Proof.
  destruct (convert_to_mei_and_humdrum counting_pool fixed_clock
              (scenario_piece "page1") true) as [final|e] eqn:E.
  - destruct (documents_without_flat counting_pool fixed_clock
                (scenario_piece "page1") final E) as (final' & H & _ & _ & Hd & _).
    exists final, final'. split; [reflexivity|]. split; [exact H | exact Hd].
  - exfalso. vm_compute in E. discriminate E.
Defined.
(** ** One document for each Barline *)

Ltac frame_cases H :=
  break_flow H; subst; cbn [holds_after];
  first [ exact I | unfold frame; st_norm; repeat split; reflexivity ].

Section Count.

Variable ids : list string.
Variable isodate : nat -> string.
Variable humdrum : bool.
Variable stafflist : list staff.
Variable metadata : list string.

Lemma mens_block_frame (sym : symbol) (s : state) :
  holds_after (frame s) (mens_block ids humdrum sym s).
Proof.
  remember (mens_block ids humdrum sym s) as f eqn:H. symmetry in H.
  unfold mens_block, sub_element, last_item in H. frame_cases H.
Qed.

Lemma dot_block_frame (sym : symbol) (s : state) :
  holds_after (frame s) (dot_block ids humdrum sym s).
Proof.
  remember (dot_block ids humdrum sym s) as f eqn:H. symmetry in H.
  unfold dot_block, sub_element, last_item in H. frame_cases H.
Qed.

Lemma rest_block_frame (sym : symbol) (s : state) :
  holds_after (frame s) (rest_block ids humdrum sym s).
Proof.
  remember (rest_block ids humdrum sym s) as f eqn:H. symmetry in H.
  unfold rest_block, sub_element in H. frame_cases H.
Qed.

Lemma note_block_frame (sym : symbol) (s : state) :
  holds_after (frame s) (note_block ids humdrum sym s).
Proof.
  remember (note_block ids humdrum sym s) as f eqn:H. symmetry in H.
  unfold note_block, sub_element, move_note_to_ligature, edit_note in H.
  frame_cases H.
Qed.

Lemma custos_block_frame (ix_staff : nat) (sym : symbol) (s : state) :
  holds_after (frame s) (custos_block ids humdrum stafflist ix_staff sym s).
Proof.
  remember (custos_block ids humdrum stafflist ix_staff sym s) as f eqn:H.
  symmetry in H. unfold custos_block, sub_element in H. frame_cases H.
Qed.

Lemma emit_line_frame (s : state) :
  holds_after (frame s) (emit_line humdrum s).
Proof.
  remember (emit_line humdrum s) as f eqn:H. symmetry in H.
  unfold emit_line in H. frame_cases H.
Qed.

Lemma frame_refl (s : state) : frame s s.
Proof. unfold frame. repeat split; reflexivity. Qed.

Lemma frame_trans (a b c : state) : frame a b -> frame b c -> frame a c.
Proof.
  unfold frame. intros (A1 & A2 & A3 & A4 & A5 & A6) (B1 & B2 & B3 & B4 & B5 & B6).
  repeat split; congruence.
Qed.

Lemma and_then_frame (s : state) (f : flow) (k : state -> flow) :
  holds_after (frame s) f ->
  (forall s1, holds_after (frame s1) (k s1)) ->
  holds_after (frame s) (and_then f k).
Proof.
  intros Hf Hk. destruct f as [s1|s1|e]; cbn [and_then holds_after] in *.
  - specialize (Hk s1). destruct (k s1); cbn [holds_after] in *;
      [eapply frame_trans; eassumption | eapply frame_trans; eassumption | exact I].
  - exact Hf.
  - exact I.
Qed.

Lemma bar_block_skip (ix_staff : nat) (sym : symbol) (s : state) :
  (s_type sym =? "bar") = false ->
  bar_block ids isodate humdrum stafflist metadata ix_staff sym s = Next s.
Proof. intros H. unfold bar_block. rewrite H. reflexivity. Qed.

(** A symbol that is not a Barline writes no file and leaves [saved]
    alone. *)
Lemma process_symbol_other (ix_staff ix_symbol : nat) (sym : symbol) (s : state) :
  is_bar sym = false ->
  holds_after (frame s)
    (process_symbol ids isodate humdrum stafflist metadata ix_staff ix_symbol sym s).
Proof.
  unfold is_bar. intros Hbar. unfold process_symbol.
  destruct (local "initial_clef" (initial_clef s)) as [ic|e]; cbn [try]; [|exact I].
  destruct (match ic with PyDict c => _ | PyNone => None end) as [c|].
  { cbn [holds_after]. unfold frame. st_norm. repeat split; reflexivity. }
  repeat match goal with
  | |- context [if ?b then Continue _ else _] =>
      destruct b;
      [cbn [holds_after]; unfold frame; st_norm; repeat split; reflexivity|]
  end.
  apply and_then_frame; [apply mens_block_frame|]. intros s1.
  apply and_then_frame; [apply dot_block_frame|]. intros s2.
  apply and_then_frame; [apply rest_block_frame|]. intros s3.
  apply and_then_frame; [apply note_block_frame|]. intros s4.
  rewrite (bar_block_skip _ _ _ Hbar). cbn [and_then].
  apply and_then_frame; [apply custos_block_frame|]. intros s5.
  apply emit_line_frame.
Qed.

(** A Barline reaches its block, whatever the state of the loop. *)
Lemma process_symbol_bar (ix_staff ix_symbol : nat) (sym : symbol) (s : state) :
  clef_resolved s -> key_resolved s ->
  is_bar sym = true ->
  process_symbol ids isodate humdrum stafflist metadata ix_staff ix_symbol sym s
  = bar_block ids isodate humdrum stafflist metadata ix_staff sym s.
Proof.
  unfold is_bar. intros Hclef Hkey Hbar. apply String.eqb_eq in Hbar.
  rewrite (process_symbol_dispatch ids isodate stafflist metadata humdrum
             ix_staff ix_symbol sym s Hclef Hkey)
    by (rewrite Hbar; discriminate).
  destruct sym as [t p]. cbn [s_type] in Hbar. subst t.
  unfold mens_block, dot_block, rest_block, note_block.
  cbn [s_type s_pitch]. eval_tests. st_norm.
  destruct (bar_block ids isodate humdrum stafflist metadata ix_staff
              (mkSymbol "bar" p) s) as [s1|s1|e] eqn:E; cbn [and_then];
    [|reflexivity|reflexivity].
  exfalso. unfold bar_block in E. cbn [s_type] in E.
  change ("bar" =? "bar") with true in E. cbv iota in E.
  unfold try in E.
  destruct (sub_element _ _ _ _ _) as [s6|]; [|discriminate E].
  destruct (save _ _ _ _ _) as [s7|]; [|discriminate E].
  destruct (new_document _ _ _) as [s8|]; discriminate E.
Qed.

(** What a Barline's block leaves: one more document, one more flat file
    when the flat encoding is on, and [saved] set. *)
Lemma bar_block_count (ix_staff : nat) (sym : symbol) (s s' : state) :
  is_bar sym = true ->
  bar_block ids isodate humdrum stafflist metadata ix_staff sym s = Continue s' ->
  n_docs s' = S (n_docs s) /\
  n_flat s' = (if humdrum then S (n_flat s) else n_flat s) /\
  saved s' = Some true.
Proof.
  unfold is_bar. intros Hbar H.
  unfold bar_block, sub_element, save, new_document, create_mei_declarations in H.
  rewrite Hbar in H.
  break_flow H; injection H as <-; unfold n_docs, n_flat; st_norm;
    match goal with
    | E : save_mei_file _ _ _ _ _ _ _ _ _ _ = Ok _ |- _ =>
        apply save_mei_file_inv in E; destruct E as (name & -> & _)
    end;
    unfold mei_docs, mens_files; rewrite !flat_map_app; cbn [flat_map app];
    rewrite !length_app; cbn [List.length];
    rewrite ?Nat.add_1_r, ?Nat.add_0_r; repeat split; reflexivity.
Qed.

Lemma run_symbols_count (ix_staff : nat) (syms : list symbol) :
  forall ix_symbol s s',
    loop_inv humdrum s ->
    run_symbols ids isodate humdrum stafflist metadata ix_staff ix_symbol syms s
      = Ok s' ->
    n_docs s' = (n_docs s + count_bars syms)%nat /\
    n_flat s' = (n_flat s + (if humdrum then count_bars syms else 0))%nat /\
    saved s' = (if existsb is_bar syms then Some true else saved s).
Proof.
  induction syms as [|sym syms IH]; intros ix s s' Hinv H.
  - cbn in H. injection H as <-. unfold count_bars. cbn.
    rewrite !Nat.add_0_r. destruct humdrum; repeat split; lia.
  - cbn [run_symbols] in H.
    assert (Hstep : exists s1,
              (process_symbol ids isodate humdrum stafflist metadata ix_staff ix sym s
                 = Next s1 \/
               process_symbol ids isodate humdrum stafflist metadata ix_staff ix sym s
                 = Continue s1) /\
              run_symbols ids isodate humdrum stafflist metadata ix_staff (S ix) syms s1
                = Ok s').
    { destruct (process_symbol ids isodate humdrum stafflist metadata ix_staff ix sym s)
        as [s1|s1|e]; [| |discriminate H]; exists s1; split; auto. }
    destruct Hstep as (s1 & Hstep & Hrest). clear H.
    pose proof (process_symbol_loop_inv ids isodate humdrum stafflist metadata
                  ix_staff ix sym s s1 Hinv Hstep) as Hinv1.
    destruct (IH (S ix) s1 s' Hinv1 Hrest) as (Hd & Hf & Hs).
    unfold count_bars in *. cbn [filter existsb].
    destruct (is_bar sym) eqn:Hbar; cbn [orb List.length].
    + assert (Hb : bar_block ids isodate humdrum stafflist metadata ix_staff sym s
                   = Continue s1).
      { rewrite <- (process_symbol_bar ix_staff ix sym s
                      (proj1 Hinv) (proj1 (proj2 Hinv)) Hbar).
        destruct Hstep as [E | E]; [|exact E].
        exfalso.
        rewrite (process_symbol_bar ix_staff ix sym s
                   (proj1 Hinv) (proj1 (proj2 Hinv)) Hbar) in E.
        unfold bar_block in E. unfold is_bar in Hbar. rewrite Hbar in E.
        unfold try in E.
        destruct (sub_element _ _ _ _ _) as [s6|]; [|discriminate E].
        destruct (save _ _ _ _ _) as [s7|]; [|discriminate E].
        destruct (new_document _ _ _) as [s8|]; discriminate E. }
      destruct (bar_block_count ix_staff sym s s1 Hbar Hb) as (Bd & Bf & Bs).
      rewrite Hd, Hf, Hs, Bd, Bf, Bs.
      destruct humdrum; destruct (existsb is_bar syms); repeat split; lia.
    + pose proof (process_symbol_other ix_staff ix sym s Hbar) as Hfr.
      assert (Hframe : frame s s1).
      { destruct Hstep as [E | E]; rewrite E in Hfr; exact Hfr. }
      destruct Hframe as (F1 & _ & _ & _ & _ & F6).
      unfold n_docs, n_flat in *. rewrite Hd, Hf, Hs, F1, F6.
      repeat split.
Qed.

Lemma begin_staff_saved (ix_staff : nat) (st : staff) (s s' : state) :
  begin_staff ids isodate humdrum stafflist metadata ix_staff st s = Ok s' ->
  saved s' = Some false /\ written s' = written s.
Proof.
  intros H.
  unfold begin_staff, first_document, new_document, create_mei_declarations,
    resolve_clef in H.
  break_flow H; injection H as <-; st_norm; split; reflexivity.
Qed.

Lemma end_of_staff_cases (ix_staff : nat) (s s' : state) (sv : bool) :
  saved s = Some sv ->
  end_of_staff ids stafflist ix_staff s = Ok s' ->
  saved s' = Some sv /\ written s' = written s /\
  if negb sv && not_last_staff stafflist ix_staff
  then exists i, layer s' = layer s ++ [invisible_barline i]
  else s' = s.
Proof.
  intros Hsv H. unfold end_of_staff in H. rewrite Hsv in H. cbn [local bind] in H.
  destruct (negb sv && not_last_staff stafflist ix_staff).
  - unfold sub_element in H. rewrite next_id_eq in H.
    destruct (nth_error ids (S (id_counter s))) as [i|]; [|discriminate H].
    cbn [bind] in H. injection H as <-. st_norm.
    split; [exact Hsv|]. split; [reflexivity|]. exists i. reflexivity.
  - injection H as <-. split; [exact Hsv|]. split; reflexivity.
Qed.

Lemma begin_staff_in_loop (ix_staff : nat) (st : staff) (s s1 : state) :
  between_staves ids isodate humdrum stafflist metadata ix_staff s ->
  begin_staff ids isodate humdrum stafflist metadata ix_staff st s = Ok s1 ->
  loop_inv humdrum s1.
Proof.
  intros Hb Hbegin. apply (in_loop_inv ids isodate humdrum stafflist metadata).
  exact (loop_entered _ _ _ _ _ _ _ _ _ Hb Hbegin).
Qed.

Lemma run_staff_count (ix_staff : nat) (st : staff) (s s' : state) :
  between_staves ids isodate humdrum stafflist metadata ix_staff s ->
  run_staff ids isodate humdrum stafflist metadata ix_staff st s = Ok s' ->
  n_docs s' = (n_docs s + count_bars st)%nat /\
  n_flat s' = (n_flat s + (if humdrum then count_bars st else 0))%nat /\
  saved s' = Some (existsb is_bar st) /\
  exists s1 s2,
    begin_staff ids isodate humdrum stafflist metadata ix_staff st s = Ok s1 /\
    run_symbols ids isodate humdrum stafflist metadata ix_staff 0 st s1 = Ok s2 /\
    if negb (existsb is_bar st) && not_last_staff stafflist ix_staff
    then exists i, layer s' = layer s2 ++ [invisible_barline i]
    else s' = s2.
Proof.
  intros Hb H. unfold run_staff in H.
  destruct (begin_staff ids isodate humdrum stafflist metadata ix_staff st s)
    as [s1|] eqn:B; [|discriminate H].
  cbn [bind] in H.
  destruct (run_symbols ids isodate humdrum stafflist metadata ix_staff 0 st s1)
    as [s2|] eqn:R; [|discriminate H].
  cbn [bind] in H.
  pose proof (begin_staff_in_loop _ _ _ _ Hb B) as Hinv.
  destruct (begin_staff_saved _ _ _ _ B) as [Bs Bw].
  destruct (run_symbols_count _ _ _ _ _ Hinv R) as (Rd & Rf & Rs).
  assert (Hsv : saved s2 = Some (existsb is_bar st)).
  { rewrite Rs, Bs. destruct (existsb is_bar st); reflexivity. }
  destruct (end_of_staff_cases _ _ _ _ Hsv H) as (Es & Ew & Ecase).
  unfold n_docs, n_flat in *. rewrite Ew, Rd, Rf, Bw.
  split; [reflexivity|]. split; [reflexivity|]. split; [exact Es|].
  exists s1, s2. split; [reflexivity|]. split; [exact R | exact Ecase].
Qed.

Lemma run_staves_count (staves : list staff) :
  forall ix_staff s s',
    between_staves ids isodate humdrum stafflist metadata ix_staff s ->
    run_staves ids isodate humdrum stafflist metadata ix_staff staves s = Ok s' ->
    n_docs s' = (n_docs s + total_bars staves)%nat /\
    n_flat s' = (n_flat s + (if humdrum then total_bars staves else 0))%nat /\
    (staves <> [] -> saved s' = Some (existsb is_bar (last staves []))).
Proof.
  unfold total_bars.
  induction staves as [|st staves IH]; intros ix s s' Hb H.
  - cbn in H. injection H as <-. cbn [map list_sum].
    split; [symmetry; apply Nat.add_0_r|].
    split; [destruct humdrum; symmetry; apply Nat.add_0_r|].
    intros E. exfalso. apply E. reflexivity.
  - cbn [run_staves] in H.
    destruct (run_staff ids isodate humdrum stafflist metadata ix st s)
      as [s1|] eqn:R; [|discriminate H].
    cbn [bind] in H.
    destruct (run_staff_count _ _ _ _ Hb R) as (Rd & Rf & Rs & _).
    destruct (IH (S ix) s1 s' (staff_done _ _ _ _ _ _ _ _ _ Hb R) H)
      as (Id & If & Is).
    cbn [map].
    change (list_sum (count_bars st :: map count_bars staves))
      with (count_bars st + list_sum (map count_bars staves))%nat.
    rewrite Id, If, Rd, Rf.
    split; [lia|]. split; [destruct humdrum; lia|].
    intros _. destruct staves as [|st' staves'].
    + cbn in H. injection H as <-. exact Rs.
    + change (last (st :: st' :: staves') []) with (last (st' :: staves') []).
      apply Is. discriminate.
Qed.

End Count.

(** A run that returns has written one document for each Barline of the
    piece, and one more, at the end, when the last staff has no Barline:
    Barlines on earlier staves close a document, a missing Barline on an
    earlier staff does not. With the flat encoding on, it has written as
    many flat files, and none otherwise. *)
Theorem documents_per_barline (ids : list string) (isodate : nat -> string)
    (symbols_and_pitches : list (string * list staff)) (humdrum : bool)
    (final : state) :
  convert_to_mei_and_humdrum ids isodate symbols_and_pitches humdrum = Ok final ->
  List.length (mei_docs (written final))
  = documents_due (fst (convert_to_combined_list_with_metadata symbols_and_pitches)) /\
  List.length (mens_files (written final))
  = if humdrum
    then documents_due (fst (convert_to_combined_list_with_metadata symbols_and_pitches))
    else 0%nat.
Proof.
  unfold convert_to_mei_and_humdrum.
  destruct (convert_to_combined_list_with_metadata symbols_and_pitches)
    as [stafflist metadata].
  cbn [fst]. unfold run. intros H.
  destruct (run_staves ids isodate humdrum stafflist metadata 0 stafflist initial_state)
    as [s|] eqn:R; [|discriminate H].
  cbn [bind] in H.
  destruct (run_staves_count ids isodate humdrum stafflist metadata stafflist
              0%nat initial_state s
              (run_start ids isodate humdrum stafflist metadata) R)
    as (Hd & Hf & Hs).
  change (n_docs initial_state) with 0%nat in Hd.
  change (n_flat initial_state) with 0%nat in Hf.
  cbn [Nat.add] in Hd, Hf.
  destruct stafflist as [|st0 rest].
  { cbn in R. injection R as <-. cbn in H. discriminate H. }
  specialize (Hs ltac:(discriminate)).
  rewrite Hs in H. cbn [local bind] in H.
  unfold documents_due.
  unfold n_docs, n_flat in *.
  destruct (existsb is_bar (last (st0 :: rest) [])); cbn [negb] in H.
  - injection H as <-. rewrite Hd, Hf, Nat.add_0_r.
    destruct humdrum; split; reflexivity.
  - unfold save in H.
    destruct (save_mei_file _ _ _ _ _ _ _ _ _ _) as [[[[fn fc] used] files]|] eqn:S;
      [|discriminate H].
    cbn [bind] in H. injection H as <-.
    apply save_mei_file_inv in S. destruct S as (name & -> & _).
    st_norm. unfold mei_docs, mens_files in *. rewrite !flat_map_app.
    cbn [flat_map app]. rewrite !length_app, Hd, Hf.
    destruct humdrum; cbn [flat_map app List.length]; split; lia.
Qed.

Lemma documents_per_barline_witness :
  exists final,
    convert_to_mei_and_humdrum counting_pool fixed_clock open_ended_piece true
      = Ok final /\
    List.length (mei_docs (written final)) = 2%nat.
Proof.
  destruct (convert_to_mei_and_humdrum counting_pool fixed_clock
              open_ended_piece true) as [final|e] eqn:E.
  - destruct (documents_per_barline counting_pool fixed_clock open_ended_piece
                true final E) as [Hd _].
    exists final. split; [reflexivity|]. rewrite Hd. reflexivity.
  - exfalso. vm_compute in E. discriminate E.
Defined.

(** At the end of a staff that is not the last of the piece and on which
    no Barline was processed, an invisible barline is added to the layer;
    after a staff with a Barline, and after the last staff, nothing is
    added. [saved] then tells whether the staff had a Barline. *)
Theorem staff_end_barline (ids : list string) (isodate : nat -> string)
    (humdrum : bool) (stafflist : list staff) (metadata : list string)
    (ix_staff : nat) (st : staff) (s s' : state) :
  between_staves ids isodate humdrum stafflist metadata ix_staff s ->
  run_staff ids isodate humdrum stafflist metadata ix_staff st s = Ok s' ->
  saved s' = Some (existsb is_bar st) /\
  exists s1 s2,
    begin_staff ids isodate humdrum stafflist metadata ix_staff st s = Ok s1 /\
    run_symbols ids isodate humdrum stafflist metadata ix_staff 0 st s1 = Ok s2 /\
    if negb (existsb is_bar st) && not_last_staff stafflist ix_staff
    then exists i, layer s' = layer s2 ++ [invisible_barline i]
    else s' = s2.
Proof.
  intros Hb H.
  destruct (run_staff_count ids isodate humdrum stafflist metadata ix_staff st s s'
              Hb H) as (_ & _ & Hs & Hrest).
  split; [exact Hs | exact Hrest].
Qed.

Lemma staff_end_barline_witness :
  exists s' s2 i,
    run_staff counting_pool fixed_clock false
      [[Clef "c-c-g"; Note "mi" "g1"]; [Note "mi" "a1"]] ["page1"; "page1"] 0
      [Clef "c-c-g"; Note "mi" "g1"] initial_state = Ok s' /\
    saved s' = Some false /\
    layer s' = layer s2 ++ [invisible_barline i].
Proof.
  destruct (run_staff counting_pool fixed_clock false
              [[Clef "c-c-g"; Note "mi" "g1"]; [Note "mi" "a1"]] ["page1"; "page1"] 0
              [Clef "c-c-g"; Note "mi" "g1"] initial_state) as [s'|e] eqn:E.
  - destruct (staff_end_barline counting_pool fixed_clock false
                [[Clef "c-c-g"; Note "mi" "g1"]; [Note "mi" "a1"]] ["page1"; "page1"] 0
                [Clef "c-c-g"; Note "mi" "g1"] initial_state s'
                (run_start _ _ _ _ _) E) as (Hs & s1 & s2 & _ & _ & Hl).
    cbn in Hl. destruct Hl as [i Hl].
    exists s', s2, i. split; [reflexivity|]. split; [exact Hs | exact Hl].
  - exfalso. vm_compute in E. discriminate E.
Defined.

(** ** The names of a single-label run do not repeat *)

Lemma string_app_inv_tail (a b c : string) : (a ++ c = b ++ c)%string -> a = b.
Proof.
  revert b. induction a as [|x a IH]; intros [|y b] H; cbn in H.
  - reflexivity.
  - exfalso. apply (f_equal String.length) in H.
    cbn in H. rewrite string_length_app in H. lia.
  - exfalso. apply (f_equal String.length) in H.
    cbn in H. rewrite string_length_app in H. lia.
  - injection H as -> H. f_equal. exact (IH _ H).
Qed.

Lemma zeros_value (n : nat) (s : string) :
  option_map Z.of_uint (NilEmpty.uint_of_string (zeros n ++ s))
  = option_map Z.of_uint (NilEmpty.uint_of_string s).
Proof.
  induction n as [|n IH]; [reflexivity|].
  cbn [zeros append]. rewrite <- IH.
  cbn [NilEmpty.uint_of_string].
  destruct (NilEmpty.uint_of_string (zeros n ++ s)); reflexivity.
Qed.

Lemma str_value (z : Z) :
  (0 <= z)%Z ->
  option_map Z.of_uint (NilEmpty.uint_of_string (str z)) = Some z.
Proof.
  intros Hz. destruct z as [|p|p]; [reflexivity | | lia].
  unfold str. cbn [Z.to_int NilZero.string_of_int].
  assert (E : NilZero.string_of_uint (Pos.to_uint p)
              = NilEmpty.string_of_uint (Pos.to_uint p)).
  { pose proof (DecimalPos.Unsigned.to_uint_nonnil p) as Hn.
    destruct (Pos.to_uint p); [contradiction|reflexivity..]. }
  rewrite E, NilEmpty.usu. cbn [option_map]. f_equal.
  exact (DecimalZ.of_to (Z.pos p)).
Qed.

Lemma numbered_name_injective (label : string) (a b : nat) :
  numbered_name label a = numbered_name label b -> a = b.
Proof.
  unfold numbered_name. intros H.
  apply string_app_inv_head in H. apply string_app_inv_head in H.
  apply string_app_inv_tail in H.
  assert (G : forall k : nat,
            option_map Z.of_uint
              (NilEmpty.uint_of_string (zfill 2 (str (Z.of_nat k))))
            = Some (Z.of_nat k)).
  { intros k. unfold zfill. rewrite zeros_value. apply str_value. lia. }
  pose proof (G a) as Ga. rewrite H, G in Ga. injection Ga as Ga. lia.
Qed.

Lemma NoDup_map_injective (A B : Type) (f : A -> B) (l : list A) :
  (forall a b, f a = f b -> a = b) -> NoDup l -> NoDup (map f l).
Proof.
  intros Hf. induction 1 as [|x l Hx _ IH]; cbn; constructor; [|exact IH].
  intros Hin. apply in_map_iff in Hin. destruct Hin as (y & Hy & Hin).
  apply Hf in Hy. subst y. contradiction.
Qed.

(** The writer's invariant at the end of a single-label run. *)
Lemma single_label_names_ok (ids : list string) (isodate : nat -> string)
    (humdrum : bool) (label : string) (staves : list staff) (final : state) :
  convert_to_mei_and_humdrum ids isodate [(label, staves)] humdrum = Ok final ->
  names_ok label (used_filenames final) (filename_counter final) (written final).
Proof.
  unfold convert_to_mei_and_humdrum, convert_to_combined_list_with_metadata.
  cbn [flat_map fst snd]. rewrite !app_nil_r.
  set (metadata := map (fun _ : staff => label) staves).
  assert (one_label : forall i l, metadata_get metadata i = Ok l -> l = label).
  { intros i l. unfold metadata_get.
    destruct (nth_error metadata i) as [l'|] eqn:E; [|discriminate].
    intros H. injection H as <-. apply nth_error_In in E.
    unfold metadata in E. apply in_map_iff in E. destruct E as (x & E & _).
    congruence. }
  unfold run. intros H.
  destruct (run_staves ids isodate humdrum staves metadata 0 staves initial_state)
    as [s|] eqn:R; [|discriminate H].
  cbn [bind] in H.
  destruct (run_staves_names ids isodate humdrum staves metadata label one_label
              staves 0%nat initial_state s) as [Hok Hfn].
  { left. split; reflexivity. }
  { intros E. congruence. }
  { exact R. }
  destruct (local "saved" (saved s)) as [sv|] eqn:Sv; [|discriminate H].
  cbn [bind] in H. destruct sv; cbn [negb] in H.
  - injection H as <-. exact Hok.
  - unfold save in H.
    destruct (save_mei_file _ _ _ _ _ _ _ _ _ _) as [[[[fn fc] used] files]|] eqn:S;
      [|discriminate H].
    cbn [bind] in H. injection H as <-. st_norm.
    rewrite Hfn in S.
    + exact (proj2 (save_names humdrum metadata label one_label
                      _ _ _ _ _ _ _ _ _ _ _ S Hok)).
    + intros ->. cbn in R. injection R as <-. cbn in Sv. discriminate Sv.
Qed.

(** In a run whose staves all carry one source label, no two documents get
    the same file name: the names are pairwise distinct, so that no
    document written by the run overwrites another. *)
Theorem single_label_names_distinct (ids : list string) (isodate : nat -> string)
    (humdrum : bool) (label : string) (staves : list staff) (final : state) :
  convert_to_mei_and_humdrum ids isodate [(label, staves)] humdrum = Ok final ->
  NoDup (mei_names (written final)).
Proof.
  intros H. apply single_label_names_ok in H.
  destruct H as [(_ & ->) | (_ & k & _ & _ & ->)]; [constructor|].
  apply NoDup_map_injective; [|apply seq_NoDup].
  intros a b. apply numbered_name_injective.
Qed.

Lemma single_label_names_distinct_witness :
  exists final,
    convert_to_mei_and_humdrum counting_pool fixed_clock open_ended_piece false
      = Ok final /\
    NoDup (mei_names (written final)).
Proof.
  destruct (convert_to_mei_and_humdrum counting_pool fixed_clock
              open_ended_piece false) as [final|e] eqn:E.
  - exists final. split; [reflexivity|].
    exact (single_label_names_distinct counting_pool fixed_clock false "page1" _
             final E).
  - exfalso. vm_compute in E. discriminate E.
Defined.
(** ** Rests, dots, accidentals and mensuration signs *)

Lemma last_item_snoc (A : Type) (l : list A) (x : A) : last_item (l ++ [x]) = Ok x.
Proof. unfold last_item. rewrite rev_unit. reflexivity. Qed.

Lemma set_last_snoc (A : Type) (l : list A) (x v : A) :
  set_last v (l ++ [x]) = Ok (l ++ [v]).
Proof. unfold set_last. rewrite rev_unit, rev_involutive. reflexivity. Qed.

Section SilentSteps.

Variable ids : list string.
Variable isodate : nat -> string.
Variable stafflist : list staff.
Variable metadata : list string.

(** A rest adds one rest element to the layer, with its identifier and the
    duration of its kind, and, with the flat encoding on, one line, the
    token of its kind. It leaves the pending accidentals and an open
    ligature as they are: the accidental before a rest goes to the note
    after it, and the note after a rest closes the ligature opened before
    it. *)
Theorem rest_step (humdrum : bool) (ix_staff ix_symbol : nat) (K pr : string)
    (s : state) :
  clef_resolved s -> key_resolved s ->
  In K (map fst RESTS_MEI) ->
  (S (id_counter s) < List.length ids)%nat ->
  exists s' i dur tok,
    process_symbol ids isodate humdrum stafflist metadata ix_staff ix_symbol
      (mkSymbol K pr) s = Next s' /\
    nth_error ids (S (id_counter s)) = Some i /\
    lookup K RESTS_MEI = Some dur /\ lookup K RESTS_HUMDRUM = Some tok /\
    layer s' = layer s ++ [Elem "rest" [(XML_ID, ("rest-" ++ i)%string); ("dur", dur)] []] /\
    sharp_found s' = sharp_found s /\ flat_found s' = flat_found s /\
    ligature s' = ligature s /\ xml_lig s' = xml_lig s /\
    id_counter s' = S (id_counter s) /\
    humdrum_string s' = humdrum_string s ++ (if humdrum then [tok] else []).
Proof.
  intros Hclef Hkey HK Hids.
  rewrite (process_symbol_dispatch ids isodate stafflist metadata humdrum ix_staff
             ix_symbol (mkSymbol K pr) s Hclef Hkey);
    try (cbn [s_type] in *; intros ->; cbn in HK; intuition discriminate).
  destruct (next_id_cases ids s) as [(i & Hi & _) | (Hlen & _)]; [|lia].
  cbn in HK.
  repeat (destruct HK as [<- | HK]); try contradiction.
  all: unfold mens_block, dot_block, rest_block, note_block, bar_block,
         custos_block, emit_line, sub_element;
    cbn [s_type s_pitch]; eval_tests; st_norm;
    rewrite next_id_eq, Hi; st_norm; eval_tests; st_norm;
    rewrite ?edit_last_snoc.
  all: destruct humdrum; st_norm; eval_tests; st_norm;
    eexists; exists i; eexists; eexists;
    (split; [reflexivity|]); (split; [reflexivity|]);
    (split; [reflexivity|]); (split; [reflexivity|]);
    st_norm; rewrite ?app_nil_r; repeat split; reflexivity.
Qed.

(** A dot adds one dot element to the layer and no line of its own. With
    the flat encoding on, it puts a colon after the first character of the
    last line of the flat buffer and ends the iteration; with the encoding
    off it falls through the remaining tests, none of which applies. *)
Theorem dot_step (humdrum : bool) (ix_staff ix_symbol : nat) (pd : string)
    (s : state) (before : list string) (c : ascii) (rest : string) :
  clef_resolved s -> key_resolved s ->
  (S (id_counter s) < List.length ids)%nat ->
  (humdrum = true -> humdrum_string s = before ++ [String c rest]) ->
  exists s' i,
    process_symbol ids isodate humdrum stafflist metadata ix_staff ix_symbol
      (mkSymbol "dot" pd) s = (if humdrum then Continue s' else Next s') /\
    nth_error ids (S (id_counter s)) = Some i /\
    layer s' = layer s ++ [Elem "dot" [(XML_ID, ("dot-" ++ i)%string)] []] /\
    humdrum_line s' = humdrum_line s /\
    humdrum_string s'
    = (if humdrum then before ++ [String c (":" ++ rest)] else humdrum_string s).
Proof.
  intros Hclef Hkey Hids Hbuf.
  rewrite (process_symbol_dispatch ids isodate stafflist metadata humdrum ix_staff
             ix_symbol (mkSymbol "dot" pd) s Hclef Hkey) by (cbn; discriminate).
  destruct (next_id_cases ids s) as [(i & Hi & _) | (Hlen & _)]; [|lia].
  unfold mens_block, dot_block, rest_block, note_block, bar_block, custos_block,
    emit_line, sub_element.
  cbn [s_type s_pitch]. eval_tests. st_norm.
  rewrite next_id_eq, Hi. st_norm.
  destruct humdrum; st_norm.
  - rewrite (Hbuf eq_refl), last_item_snoc. st_norm.
    rewrite set_last_snoc. st_norm.
    eexists; exists i. split; [reflexivity|]. st_norm.
    repeat split; reflexivity.
  - eval_tests. st_norm.
    eexists; exists i. split; [reflexivity|]. st_norm.
    repeat split; reflexivity.
Qed.

(** A mensuration sign followed by the proportion [met_3_2]: the sign adds
    one mensur element with its identifier, the prolatio, the sign and,
    for a cut sign, the slash; the proportion adds no element but sets
    [num] and [numbase] on that element. In the flat encoding the two
    symbols give one line: the proportion replaces the closing parenthesis
    of the sign's line by [3/2)]. *)
Theorem mensuration_pair (humdrum : bool) (ix_staff ix_symbol : nat) (code : string)
    (s : state) (sign slash : string) :
  clef_resolved s -> key_resolved s ->
  analyse_mensuration (Mensuration code) = Ok (sign, slash) ->
  (S (id_counter s) < List.length ids)%nat ->
  exists s1 s2 i,
    process_symbol ids isodate humdrum stafflist metadata ix_staff ix_symbol
      (Mensuration code) s = Next s1 /\
    process_symbol ids isodate humdrum stafflist metadata ix_staff (S ix_symbol)
      (Mensuration "met_3_2") s1 = Continue s2 /\
    nth_error ids (S (id_counter s)) = Some i /\
    layer s1 = layer s ++ [Elem "mensur" (mensur_attributes i sign slash) []] /\
    layer s2 = layer s ++
      [Elem "mensur"
         (mensur_attributes i sign slash ++ [("num", "3"); ("numbase", "2")]) []] /\
    id_counter s2 = S (id_counter s) /\
    humdrum_string s1
    = humdrum_string s ++ (if humdrum then [mensur_line sign slash ")"] else []) /\
    humdrum_string s2
    = humdrum_string s ++ (if humdrum then [mensur_line sign slash "3/2)"] else []).
Proof.
  intros Hclef Hkey Hm Hids.
  destruct (next_id_cases ids s) as [(i & Hi & _) | (Hlen & _)]; [|lia].
  assert (Hcode : (code = "met_c" /\ sign = "C" /\ slash = "") \/
                  (code = "al-br" /\ sign = "C" /\ slash = "1") \/
                  (code = "met_o_cut" /\ sign = "O" /\ slash = "1")).
  { unfold analyse_mensuration in Hm. cbn [Mensuration s_pitch] in Hm.
    destruct (code =? "met_c") eqn:E1.
    { apply String.eqb_eq in E1. injection Hm as <- <-. left. tauto. }
    destruct (code =? "al-br") eqn:E2.
    { apply String.eqb_eq in E2. injection Hm as <- <-. right; left. tauto. }
    destruct (code =? "met_o_cut") eqn:E3.
    { apply String.eqb_eq in E3. injection Hm as <- <-. right; right. tauto. }
    discriminate Hm. }
  clear Hm.
  assert (Hstep : forall s1,
            clef_resolved s1 -> key_resolved s1 ->
            process_symbol ids isodate humdrum stafflist metadata ix_staff
              (S ix_symbol) (Mensuration "met_3_2") s1
            = mens_block ids humdrum (Mensuration "met_3_2") s1).
  { intros s1 H1 H2.
    rewrite (process_symbol_dispatch ids isodate stafflist metadata humdrum ix_staff
               (S ix_symbol) (Mensuration "met_3_2") s1 H1 H2) by (cbn; discriminate).
    unfold mens_block. cbn [Mensuration s_type s_pitch]. eval_tests.
    destruct (local "mensur" (mensur s1)) as [m|]; st_norm; [|reflexivity].
    destruct humdrum; [|reflexivity].
    destruct (last_item _); st_norm; [|reflexivity].
    destruct (set_last _ _); reflexivity. }
  rewrite (process_symbol_dispatch ids isodate stafflist metadata humdrum ix_staff
             ix_symbol (Mensuration code) s Hclef Hkey) by (cbn; discriminate).
  unfold mens_block at 1, dot_block, rest_block, note_block, bar_block,
    custos_block, emit_line, sub_element.
  destruct humdrum;
    destruct Hcode as [(-> & -> & ->) | [(-> & -> & ->) | (-> & -> & ->)]];
    cbn [Mensuration s_type s_pitch]; eval_tests; st_norm;
    rewrite next_id_eq; st_norm; rewrite Hi; st_norm;
    unfold analyse_mensuration; cbn [s_pitch]; eval_tests; st_norm;
    rewrite ?edit_last_snoc; st_norm; eval_tests; st_norm.
  all: eexists; eexists; exists i;
    (split; [reflexivity|]);
    (split;
       [ rewrite Hstep;
         [ unfold mens_block; cbn [Mensuration s_type s_pitch]; eval_tests;
           repeat (st_norm;
                   progress rewrite ?Nat.eqb_refl, ?edit_nth_snoc,
                     ?last_item_snoc, ?set_last_snoc);
           st_norm; reflexivity
         | exact Hclef | exact Hkey ]
       | ]);
    st_norm; rewrite ?app_nil_r; repeat split; reflexivity.
Qed.

(** The flat encoding's clef line, from the shape and the line of the
    clef. *)
Lemma clef_line_of_shape (c : symbol) (shape line : string) :
  analyse_clef c = Ok (shape, line) ->
  getitem CLEFS_HUMDRUM (s_pitch c) = Ok ("*clef" ++ shape ++ line)%string.
Proof.
  unfold analyse_clef. intros H.
  repeat match type of H with
         | context [String.eqb (s_pitch c) ?k] =>
             let E := fresh "E" in
             destruct (String.eqb (s_pitch c) k) eqn:E;
             [ apply String.eqb_eq in E; rewrite E; injection H as <- <-;
               reflexivity | ]
         end.
  discriminate H.
Qed.

(** The resolution of the clef and of the key, at the first staff and at
    every staff that follows a Barline. The clef is the first symbol of the
    staff when that is a clef; otherwise it is the result of the search
    through the staves of index 1 to n-2 of the whole piece, which starts
    from the clef in force. The key is one flat exactly when the staff the
    clef is taken from has a flat right after the clef, and none otherwise
    - also when the search found no clef and the clef in force is kept.
    The clef element of the document gets its identifier, shape and line,
    the key signature its identifier and [1f], and the flat encoding the
    clef line and, for the flat, the key line. *)
Theorem clef_resolution (humdrum : bool) (st : staff) (s s' : state) :
  first_staff s = true ->
  resolve_clef ids humdrum stafflist st s = Ok s' ->
  exists c flat shape line i,
    ((exists s1 tl, st = c :: s1 :: tl /\ s_type c = "clef" /\
                    flat = (s_type s1 =? "flat")) \/
     (head_not_clef st /\
      scan_clef (firstn (List.length stafflist - 2) (skipn 1 stafflist))
        (initial_clef s) = Ok (Some (PyDict c), flat))) /\
    analyse_clef c = Ok (shape, line) /\
    nth_error ids (S (id_counter s)) = Some i /\
    initial_clef s' = Some (PyDict c) /\ clef s' = c /\
    initial_key s' = (if flat then "flat" else "") /\
    first_staff s' = false /\
    xml_clef (mei s')
    = set_attr "line" line
        (set_attr "shape" shape
           (set_attr XML_ID ("clef-" ++ i) (xml_clef (mei s)))) /\
    (if flat
     then exists j,
            nth_error ids (S (S (id_counter s))) = Some j /\
            xml_keySign (mei s')
            = set_attr "sig" "1f"
                (set_attr XML_ID ("keySig-" ++ j) (xml_keySign (mei s)))
     else xml_keySign (mei s') = xml_keySign (mei s)) /\
    layer s' = layer s /\
    humdrum_string s'
    = humdrum_string s ++
        (if humdrum
         then ("*clef" ++ shape ++ line)%string :: (if flat then ["*k[b-]"] else [])
         else []).
Proof.
  intros Hfs H. unfold resolve_clef in H. rewrite Hfs in H.
  unfold item in H.
  destruct st as [|s0 tl]; [discriminate H|].
  cbn [nth_error] in H. st_norm in H.
  destruct (s_type s0 =? "clef") eqn:E0.
  - destruct tl as [|s1 tl]; [discriminate H|].
    cbn [nth_error] in H. st_norm in H.
    destruct (analyse_clef s0) as [[shape line]|] eqn:Ec; [|discriminate H].
    pose proof (clef_line_of_shape s0 shape line Ec) as Hline.
    st_norm in H. rewrite next_id_eq in H. st_norm in H.
    destruct (nth_error ids (S (id_counter s))) as [i|] eqn:Hi; [|discriminate H].
    st_norm in H.
    exists s0, (s_type s1 =? "flat"), shape, line, i.
    split.
    { left. exists s1, tl. split; [reflexivity|].
      split; [apply String.eqb_eq; exact E0 | reflexivity]. }
    split; [exact Ec|]. split; [first [exact Hi | reflexivity]|].
    destruct humdrum; st_norm in H; rewrite ?Hline in H; st_norm in H;
      destruct (s_type s1 =? "flat"); rewrite ?next_id_eq in H; st_norm in H;
      try (destruct (nth_error ids (S (S (id_counter s)))) as [j|] eqn:Hj;
           [|discriminate H]; st_norm in H);
      injection H as <-; st_norm;
      rewrite <- ?app_assoc, ?app_nil_r;
      repeat split; try reflexivity;
      exists j; split; reflexivity.
  - destruct (scan_clef (firstn (List.length stafflist - 2) (skipn 1 stafflist))
                (initial_clef s)) as [[found flat]|] eqn:Es; [|discriminate H].
    st_norm in H.
    destruct found as [[|c]|]; try discriminate H.
    st_norm in H.
    destruct (analyse_clef c) as [[shape line]|] eqn:Ec; [|discriminate H].
    pose proof (clef_line_of_shape c shape line Ec) as Hline.
    st_norm in H. rewrite next_id_eq in H. st_norm in H.
    destruct (nth_error ids (S (id_counter s))) as [i|] eqn:Hi; [|discriminate H].
    st_norm in H.
    exists c, flat, shape, line, i.
    split.
    { right. split; [|reflexivity].
      exists s0, tl. split; [reflexivity|]. apply String.eqb_neq. exact E0. }
    split; [exact Ec|]. split; [first [exact Hi | reflexivity]|].
    destruct humdrum; st_norm in H; rewrite ?Hline in H; st_norm in H;
      destruct flat; rewrite ?next_id_eq in H; st_norm in H;
      try (destruct (nth_error ids (S (S (id_counter s)))) as [j|] eqn:Hj;
           [|discriminate H]; st_norm in H);
      injection H as <-; st_norm;
      rewrite <- ?app_assoc, ?app_nil_r;
      repeat split; try reflexivity;
      exists j; split; reflexivity.
Qed.

End SilentSteps.

Lemma rest_step_witness :
  exists s',
    process_symbol counting_pool fixed_clock true [scenario_staff] ["page1"] 0 3
      (mkSymbol "r-mi" "") scenario_loop_state = Next s' /\
    humdrum_string s' = humdrum_string scenario_loop_state ++ ["Mr"].
Proof.
  destruct (rest_step counting_pool fixed_clock [scenario_staff] ["page1"]
              true 0 3 "r-mi" "" scenario_loop_state)
    as (s' & i & dur & tok & Hstep & _ & _ & Htok & _ & _ & _ & _ & _ & _ & Hhs).
  - exact (proj1 scenario_loop_inv).
  - exact (proj1 (proj2 scenario_loop_inv)).
  - cbn. tauto.
  - apply (scenario_pool_left 1). lia.
  - exists s'. split; [exact Hstep|]. rewrite Hhs.
    vm_compute in Htok. injection Htok as <-. reflexivity.
Defined.

Lemma dot_step_witness :
  exists s',
    process_symbol counting_pool fixed_clock true [scenario_staff] ["page1"] 0 3
      (mkSymbol "dot" "") scenario_loop_state = Continue s' /\
    humdrum_string s' = ["**mens"; "*clefC2"; "*:k[b-]"].
Proof.
  destruct (dot_step counting_pool fixed_clock [scenario_staff] ["page1"]
              true 0 3 "" scenario_loop_state ["**mens"; "*clefC2"] "*" "k[b-]")
    as (s' & i & Hstep & _ & _ & _ & Hhs).
  - exact (proj1 scenario_loop_inv).
  - exact (proj1 (proj2 scenario_loop_inv)).
  - apply (scenario_pool_left 1). lia.
  - reflexivity.
  - exists s'. split; [exact Hstep | exact Hhs].
Defined.

Lemma mensuration_pair_witness :
  exists s1 s2,
    process_symbol counting_pool fixed_clock true [scenario_staff] ["page1"] 0 2
      (Mensuration "al-br") scenario_loop_state = Next s1 /\
    process_symbol counting_pool fixed_clock true [scenario_staff] ["page1"] 0 3
      (Mensuration "met_3_2") s1 = Continue s2 /\
    humdrum_string s2 = humdrum_string scenario_loop_state ++ ["*met(C|3/2)"].
Proof.
  destruct (mensuration_pair counting_pool fixed_clock [scenario_staff] ["page1"]
              true 0 2 "al-br" scenario_loop_state "C" "1")
    as (s1 & s2 & i & H1 & H2 & _ & _ & _ & _ & _ & Hhs).
  - exact (proj1 scenario_loop_inv).
  - exact (proj1 (proj2 scenario_loop_inv)).
  - reflexivity.
  - apply (scenario_pool_left 1). lia.
  - exists s1, s2. split; [exact H1|]. split; [exact H2 | exact Hhs].
Defined.

Lemma clef_resolution_witness :
  exists s',
    resolve_clef counting_pool true [scenario_staff] [Note "mi" "a1"]
      (set_first_staff true scenario_loop_state) = Ok s' /\
    initial_key (set_first_staff true scenario_loop_state) = "flat" /\
    initial_key s' = "" /\ clef s' = Clef "c-c-g".
Proof.
  destruct (resolve_clef counting_pool true [scenario_staff] [Note "mi" "a1"]
              (set_first_staff true scenario_loop_state)) as [s'|e] eqn:R;
    [|vm_compute in R; discriminate R].
  destruct (clef_resolution counting_pool [scenario_staff] true
              [Note "mi" "a1"] (set_first_staff true scenario_loop_state) s'
              eq_refl R)
    as (c & flat & shape & line & i & Hsrc & _ & _ & _ & Hc & Hk & _).
  exists s'. split; [reflexivity|]. split; [reflexivity|].
  destruct Hsrc as [(s1 & tl & E & _) | (_ & Hscan)]; [discriminate E|].
  vm_compute in Hscan. injection Hscan as <- <-.
  split; [exact Hk | exact Hc].
Defined.
(** ** Well-formed pieces are converted to the end *)

Lemma lines_ok_app (hs more : list string) :
  lines_ok hs -> Forall (fun l => l <> "") more -> lines_ok (hs ++ more).
Proof.
  intros [Hne Hall] Hmore. split.
  - destruct hs; [contradiction | discriminate].
  - apply Forall_app. split; assumption.
Qed.

Lemma lines_ok_last (hs : list string) :
  lines_ok hs -> exists pre c0 r, hs = pre ++ [String c0 r].
Proof.
  intros [Hne Hall].
  destruct (exists_last Hne) as (pre & x & ->).
  apply Forall_app in Hall. destruct Hall as [_ Hx].
  inversion Hx as [|? ? Hx0 _]; subst.
  destruct x as [|c0 r]; [contradiction|].
  exists pre, c0, r. reflexivity.
Qed.

Lemma lines_ok_set (pre : list string) (x v : string) :
  lines_ok (pre ++ [x]) -> v <> "" -> lines_ok (pre ++ [v]).
Proof.
  intros [_ Hall] Hv. apply Forall_app in Hall. destruct Hall as [Hpre _].
  split.
  - destruct pre; discriminate.
  - apply Forall_app. split; [exact Hpre|]. constructor; [exact Hv | constructor].
Qed.

Lemma app_nonempty_l (a b : string) : a <> "" -> (a ++ b)%string <> "".
Proof. destruct a; [contradiction | discriminate]. Qed.

Lemma app_nonempty_r (a b : string) : b <> "" -> (a ++ b)%string <> "".
Proof. destruct a; [exact (fun H => H) | discriminate]. Qed.

Lemma get_humdrum_pitch_nonempty (o : Z) (p line : string) :
  line <> "" -> get_humdrum_pitch o p line <> "".
Proof. intros H. rewrite get_humdrum_pitch_suffix. apply app_nonempty_l, H. Qed.

(** Non-emptiness of a line built from literals and pitches. *)
Ltac line_solve :=
  repeat first
    [ assumption
    | discriminate
    | apply app_nonempty_r; discriminate
    | apply get_humdrum_pitch_nonempty
    | apply app_nonempty_l ].

Ltac lines_solve Hls :=
  rewrite <- ?app_assoc;
  first [ exact Hls
        | apply lines_ok_app; [exact Hls | repeat (apply Forall_cons; [line_solve|]); apply Forall_nil] ].

Ltac eval_contains :=
  repeat match goal with
  | |- context [contains ?a ?b] =>
      let v := eval vm_compute in (contains a b) in
      match v with
      | true => change (contains a b) with true
      | false => change (contains a b) with false
      end
  end.

(** The seven parts of what a step has to establish. *)
Ltac tr_split :=
  cbn [lands]; unfold tracked; st_norm;
  refine (conj (conj _ (conj _ (conj _ (conj _ (conj _ _))))) _).

(** A flag that is set by the step, or that the step leaves as it was. *)
Ltac flag_solve H :=
  first [ intros _; discriminate
        | let Hf := fresh "Hf" in
          intros Hf; apply H; revert Hf;
          unfold sign_after, line_after, is_sign; cbn [s_type s_pitch Mensuration Note];
          eval_tests; cbn [andb orb negb];
          rewrite ?Bool.orb_false_r, ?Bool.andb_false_r, ?Bool.orb_false_r;
          exact (fun x => x) ].

Ltac tr_finish Hic Hcl Hsg Hln Hne Hls :=
  tr_split;
  [ exact Hic
  | first [ exact Hcl | reflexivity ]
  | flag_solve Hsg
  | flag_solve Hln
  | first [ exact Hne
          | let l0 := fresh "l0" in
            let Hl0 := fresh "Hl0" in
            intros l0 Hl0; injection Hl0 as <-; line_solve ]
  | cbn [app]; rewrite <- ?app_assoc; cbn [app];
    first [ exact Hls
          | apply lines_ok_app; [exact Hls | repeat (apply Forall_cons; [line_solve|]); apply Forall_nil] ]
  | lia ].

Section Returns.

Variable ids : list string.
Variable isodate : nat -> string.
Variable stafflist : list staff.
Variable metadata : list string.
Variable c : symbol.
Hypothesis Hct : s_type c = "clef".

(** The clef itself and the accidentals end the iteration at once. *)
Lemma skipped_lands (humdrum : bool) (ix_staff ix_symbol : nat) (sym : symbol)
    (s : state) (sg ln : bool) :
  tracked c sg ln s ->
  symbol_eqb sym c = true \/ s_type sym = "flat" \/ s_type sym = "sharp" ->
  lands (fun s' => tracked c sg ln s' /\ (id_counter s' <= id_counter s + 9)%nat)
    (process_symbol ids isodate humdrum stafflist metadata ix_staff ix_symbol sym s).
Proof.
  intros (Hic & Hcl & Hsg & Hln & Hne & Hls) Hkind.
  unfold process_symbol. rewrite Hic. st_norm.
  destruct (symbol_eqb sym c) eqn:Eq.
  { tr_split; first [assumption | reflexivity | lia]. }
  destruct Hkind as [Hk | Hk]; [discriminate Hk|].
  destruct ((s_type sym =? initial_key s) && (ix_symbol =? 1)%nat).
  { tr_split; first [assumption | reflexivity | lia]. }
  destruct ((s_type sym =? initial_key s) && (ix_symbol =? 2)%nat
            && (s_pitch (clef s) =? "c-c-g")).
  { tr_split; first [assumption | reflexivity | lia]. }
  destruct Hk as [Hk | Hk]; rewrite Hk; eval_tests;
    tr_split; first [assumption | reflexivity | lia].
Qed.

Lemma rest_lands (humdrum : bool) (ix_staff ix_symbol : nat) (K pr : string)
    (s : state) (sg ln : bool) :
  loop_inv humdrum s -> tracked c sg ln s ->
  In K (map fst RESTS_MEI) ->
  (id_counter s + 9 < List.length ids)%nat ->
  lands (fun s' => tracked c (sign_after sg (mkSymbol K pr))
                     (line_after humdrum ln (mkSymbol K pr)) s' /\
                   (id_counter s' <= id_counter s + 9)%nat)
    (process_symbol ids isodate humdrum stafflist metadata ix_staff ix_symbol
       (mkSymbol K pr) s).
Proof.
  intros (Hclef & Hkey & _) (Hic & Hcl & Hsg & Hln & Hne & Hls) HK Hids.
  rewrite (process_symbol_dispatch ids isodate stafflist metadata humdrum ix_staff
             ix_symbol (mkSymbol K pr) s Hclef Hkey);
    try (cbn [s_type] in *; intros ->; cbn in HK; intuition discriminate).
  destruct (next_id_cases ids s) as [(i & Hi & _) | (Hlen & _)]; [|lia].
  cbn in HK.
  repeat (destruct HK as [<- | HK]); try contradiction.
  all: unfold mens_block, dot_block, rest_block, note_block, bar_block,
         custos_block, emit_line, sub_element;
    cbn [s_type s_pitch]; eval_tests; st_norm;
    rewrite next_id_eq; st_norm; rewrite Hi; st_norm; eval_tests; st_norm.
  all: destruct humdrum; st_norm; eval_tests; eval_contains; st_norm;
    tr_finish Hic Hcl Hsg Hln Hne Hls.
Qed.

Lemma dot_lands (humdrum : bool) (ix_staff ix_symbol : nat) (pd : string)
    (s : state) (sg ln : bool) :
  loop_inv humdrum s -> tracked c sg ln s ->
  (id_counter s + 9 < List.length ids)%nat ->
  lands (fun s' => tracked c (sign_after sg (mkSymbol "dot" pd))
                     (line_after humdrum ln (mkSymbol "dot" pd)) s' /\
                   (id_counter s' <= id_counter s + 9)%nat)
    (process_symbol ids isodate humdrum stafflist metadata ix_staff ix_symbol
       (mkSymbol "dot" pd) s).
Proof.
  intros (Hclef & Hkey & _) (Hic & Hcl & Hsg & Hln & Hne & Hls) Hids.
  rewrite (process_symbol_dispatch ids isodate stafflist metadata humdrum ix_staff
             ix_symbol (mkSymbol "dot" pd) s Hclef Hkey) by (cbn; discriminate).
  destruct (next_id_cases ids s) as [(i & Hi & _) | (Hlen & _)]; [|lia].
  destruct (lines_ok_last _ Hls) as (pre & c0 & r & Hbuf).
  unfold mens_block, dot_block, rest_block, note_block, bar_block, custos_block,
    emit_line, sub_element.
  cbn [s_type s_pitch]. eval_tests. st_norm.
  rewrite next_id_eq. st_norm. rewrite Hi. st_norm.
  destruct humdrum; st_norm.
  - rewrite Hbuf, last_item_snoc. st_norm. rewrite set_last_snoc. st_norm.
    tr_split;
      [ exact Hic | exact Hcl | flag_solve Hsg | flag_solve Hln | exact Hne | | lia ].
    rewrite Hbuf in Hls.
    apply (lines_ok_set pre (String c0 r)); [exact Hls | discriminate].
  - eval_tests. st_norm. tr_finish Hic Hcl Hsg Hln Hne Hls.
Qed.

Lemma mens_lands (humdrum : bool) (ix_staff ix_symbol : nat) (code : string)
    (s : state) (sg ln : bool) :
  loop_inv humdrum s -> tracked c sg ln s ->
  reads humdrum c sg ln (mkSymbol "mens" code) = true ->
  (id_counter s + 9 < List.length ids)%nat ->
  lands (fun s' => tracked c (sign_after sg (mkSymbol "mens" code))
                     (line_after humdrum ln (mkSymbol "mens" code)) s' /\
                   (id_counter s' <= id_counter s + 9)%nat)
    (process_symbol ids isodate humdrum stafflist metadata ix_staff ix_symbol
       (mkSymbol "mens" code) s).
Proof.
  intros (Hclef & Hkey & _) (Hic & Hcl & Hsg & Hln & Hne & Hls) Hr Hids.
  rewrite (process_symbol_dispatch ids isodate stafflist metadata humdrum ix_staff
             ix_symbol (mkSymbol "mens" code) s Hclef Hkey) by (cbn; discriminate).
  destruct (next_id_cases ids s) as [(i & Hi & _) | (Hlen & _)]; [|lia].
  revert Hr. unfold reads. cbn [s_type s_pitch]. eval_tests.
  destruct (code =? "met_3_2") eqn:E3.
  - apply String.eqb_eq in E3. subst code. intros ->.
    destruct (mensur s) as [m|] eqn:Em; [|exfalso; apply (Hsg eq_refl); reflexivity].
    destruct (lines_ok_last _ Hls) as (pre & c0 & r & Hbuf).
    unfold mens_block. cbn [s_type s_pitch]. eval_tests. rewrite Em. st_norm.
    destruct humdrum; destruct (fst m =? doc_no s)%nat; st_norm;
      rewrite ?Hbuf, ?last_item_snoc; st_norm; rewrite ?set_last_snoc; st_norm;
      (tr_split;
       [ exact Hic | exact Hcl
       | intros _; rewrite Em; discriminate
       | flag_solve Hln | exact Hne | | lia ]);
      first [ exact Hls
            | rewrite Hbuf in Hls;
              apply (lines_ok_set pre (String c0 r));
              [ exact Hls | apply app_nonempty_r; discriminate ] ].
  - intros Hin. unfold in_list, MENSURATION_CODES in Hin. cbn [existsb] in Hin.
    assert (Hcode : code = "met_c" \/ code = "al-br" \/ code = "met_o_cut").
    { destruct (code =? "met_c") eqn:E1; [left; apply String.eqb_eq, E1|].
      destruct (code =? "al-br") eqn:E2; [right; left; apply String.eqb_eq, E2|].
      destruct (code =? "met_o_cut") eqn:E4; [right; right; apply String.eqb_eq, E4|].
      discriminate Hin. }
    clear Hin E3.
    unfold mens_block, dot_block, rest_block, note_block, bar_block,
      custos_block, emit_line, sub_element.
    destruct humdrum; destruct Hcode as [-> | [-> | ->]];
      cbn [s_type s_pitch]; eval_tests; st_norm;
      rewrite next_id_eq; st_norm; rewrite Hi; st_norm;
      unfold analyse_mensuration; cbn [s_pitch]; eval_tests; st_norm;
      eval_tests; eval_contains; st_norm;
      tr_finish Hic Hcl Hsg Hln Hne Hls.
Qed.

(** A symbol of no kind the loop knows. *)
Lemma unknown_lands (humdrum : bool) (ix_staff ix_symbol : nat) (sym : symbol)
    (s : state) (sg ln : bool) :
  tracked c sg ln s ->
  symbol_eqb sym c = false ->
  ~ In (s_type sym) DISPATCHED_TYPES ->
  negb humdrum || ln = true ->
  lands (fun s' => tracked c (sign_after sg sym) (line_after humdrum ln sym) s' /\
                   (id_counter s' <= id_counter s + 9)%nat)
    (process_symbol ids isodate humdrum stafflist metadata ix_staff ix_symbol sym s).
Proof.
  intros (Hic & Hcl & Hsg & Hln & Hne & Hls) Hneq Ht Hr.
  assert (Hk : forall k, In k DISPATCHED_TYPES -> (s_type sym =? k) = false).
  { intros k. apply not_in_code, Ht. }
  assert (Hrest : has_key (s_type sym) RESTS_MEI = false).
  { apply has_key_unknown. intros H. apply Ht. unfold DISPATCHED_TYPES.
    apply in_app_iff. right. apply in_app_iff. left. exact H. }
  assert (Hnote : has_key (s_type sym) NOTES_MEI = false).
  { apply has_key_unknown. intros H. apply Ht. unfold DISPATCHED_TYPES.
    apply in_app_iff. right. apply in_app_iff. right. exact H. }
  assert (Hsa : sign_after sg sym = sg).
  { unfold sign_after, is_sign. rewrite Hk by (vm_compute; tauto).
    apply Bool.orb_false_r. }
  assert (Hla : line_after humdrum ln sym = ln).
  { unfold line_after, is_sign. rewrite Hk by (vm_compute; tauto).
    rewrite Hrest, Hnote. cbn [andb orb]. rewrite Bool.andb_false_r.
    apply Bool.orb_false_r. }
  rewrite Hsa, Hla.
  unfold process_symbol. rewrite Hic. st_norm. rewrite Hneq.
  destruct ((s_type sym =? initial_key s) && (ix_symbol =? 1)%nat).
  { tr_split; first [assumption | reflexivity | lia]. }
  destruct ((s_type sym =? initial_key s) && (ix_symbol =? 2)%nat
            && (s_pitch (clef s) =? "c-c-g")).
  { tr_split; first [assumption | reflexivity | lia]. }
  unfold mens_block, dot_block, rest_block, note_block, bar_block, custos_block,
    emit_line.
  rewrite Hrest, Hnote.
  rewrite !Hk by (vm_compute; tauto). st_norm.
  destruct humdrum; st_norm.
  - cbn [negb orb] in Hr.
    destruct (humdrum_line s) as [hl|] eqn:El;
      [|exfalso; apply (Hln Hr); reflexivity].
    st_norm. pose proof (Hne hl eq_refl) as Hhl.
    destruct (contains "custos" hl); tr_split;
      try first [ assumption | reflexivity | lia | rewrite El; assumption ];
      cbn [app]; rewrite <- ?app_assoc; cbn [app];
      (apply lines_ok_app;
       [exact Hls | repeat (apply Forall_cons; [line_solve|]); apply Forall_nil]).
  - tr_split; first [assumption | reflexivity | lia].
Qed.

Lemma custos_lands (humdrum : bool) (ix_staff ix_symbol : nat) (pc : string)
    (s : state) (sg ln : bool) :
  loop_inv humdrum s -> tracked c sg ln s ->
  negb humdrum || ln = true ->
  (forall sy, custos_target stafflist ix_staff = Some sy ->
              returns (analyse_note c (s_pitch sy)) = true) ->
  (id_counter s + 9 < List.length ids)%nat ->
  lands (fun s' => tracked c (sign_after sg (mkSymbol "custos" pc))
                     (line_after humdrum ln (mkSymbol "custos" pc)) s' /\
                   (id_counter s' <= id_counter s + 9)%nat)
    (process_symbol ids isodate humdrum stafflist metadata ix_staff ix_symbol
       (mkSymbol "custos" pc) s).
Proof.
  intros (Hclef & Hkey & _) (Hic & Hcl & Hsg & Hln & Hne & Hls) Hr Htarget Hids.
  rewrite (process_symbol_dispatch ids isodate stafflist metadata humdrum ix_staff
             ix_symbol (mkSymbol "custos" pc) s Hclef Hkey) by (cbn; discriminate).
  destruct (next_id_cases ids s) as [(i & Hi & _) | (Hlen & _)]; [|lia].
  unfold mens_block, dot_block, rest_block, note_block, bar_block, custos_block,
    emit_line, sub_element.
  cbn [s_type s_pitch]. eval_tests. st_norm.
  rewrite next_id_eq. st_norm. rewrite Hi. st_norm.
  unfold custos_target in Htarget.
  assert (Hline : humdrum = true -> exists hl, humdrum_line s = Some hl /\ hl <> "").
  { intros ->. cbn [negb orb] in Hr.
    destruct (humdrum_line s) as [hl|] eqn:El;
      [|exfalso; apply (Hln Hr); reflexivity].
    exists hl. split; [reflexivity | apply Hne; reflexivity]. }
  destruct (Z.ltb_spec (Z.of_nat ix_staff) (Z.of_nat (List.length stafflist) - 1))
    as [Hlt | Hge].
  - unfold item in *.
    destruct (nth_error stafflist (ix_staff + 1)) as [following|] eqn:E;
      [|apply nth_error_None in E; lia].
    st_norm.
    destruct (find (fun sy => has_key (s_type sy) NOTES_MEI) following) as [sy|].
    + specialize (Htarget sy eq_refl).
      destruct (analyse_note c (s_pitch sy)) as [[o p]|] eqn:Hn;
        [|discriminate Htarget].
      destruct humdrum; st_norm; rewrite Hcl, Hn; st_norm;
        rewrite ?edit_last_snoc; st_norm;
        rewrite ?(get_humdrum_pitch_suffix o p "*custos"), ?contains_custos;
        tr_finish Hic Hcl Hsg Hln Hne Hls.
    + destruct humdrum; st_norm.
      * destruct (Hline eq_refl) as (hl & El & Hhl). rewrite El. st_norm.
        destruct (contains "custos" hl); tr_finish Hic Hcl Hsg Hln Hne Hls.
      * tr_finish Hic Hcl Hsg Hln Hne Hls.
  - destruct humdrum; st_norm.
    + destruct (Hline eq_refl) as (hl & El & Hhl). rewrite El. st_norm.
      destruct (contains "custos" hl); tr_finish Hic Hcl Hsg Hln Hne Hls.
    + tr_finish Hic Hcl Hsg Hln Hne Hls.
Qed.

Lemma bar_lands (humdrum : bool) (ix_staff ix_symbol : nat) (pb : string)
    (s : state) (sg ln : bool) :
  loop_inv humdrum s -> tracked c sg ln s ->
  List.length metadata = List.length stafflist ->
  (ix_staff < List.length stafflist)%nat ->
  (id_counter s + 9 < List.length ids)%nat ->
  lands (fun s' => tracked c (sign_after sg (mkSymbol "bar" pb))
                     (line_after humdrum ln (mkSymbol "bar" pb)) s' /\
                   (id_counter s' <= id_counter s + 9)%nat)
    (process_symbol ids isodate humdrum stafflist metadata ix_staff ix_symbol
       (mkSymbol "bar" pb) s).
Proof.
  intros (Hclef & Hkey & _) (Hic & Hcl & Hsg & Hln & Hne & Hls) Hmeta Hix Hids.
  rewrite (process_symbol_dispatch ids isodate stafflist metadata humdrum ix_staff
             ix_symbol (mkSymbol "bar" pb) s Hclef Hkey) by (cbn; discriminate).
  unfold mens_block, dot_block, rest_block, note_block, bar_block.
  cbn [s_type s_pitch]. eval_tests. st_norm.
  destruct (sub_element_ok ids "barLine" "barline" [("form", "dbl")] s) as [i ->];
    [lia|].
  destruct humdrum; st_norm;
    match goal with
    | |- context [save ?h _ _ _ ?st] =>
        destruct (save_ok h stafflist metadata ix_staff st Hmeta Hix)
          as (fn & fc & used & name & ->)
    end;
    st_norm; unfold new_document;
    match goal with
    | |- context [create_mei_declarations ids ?h ?st] =>
        destruct (create_mei_declarations_ok ids h st) as (d & -> & _);
          [st_norm; lia|]
    end;
    st_norm; tr_finish Hic Hcl Hsg Hln Hne Hls.
Qed.

(** The first note of a ligature. *)
Lemma li_lands (humdrum : bool) (ix_staff ix_symbol : nat) (P : string)
    (s : state) (sg ln : bool) :
  loop_inv humdrum s -> tracked c sg ln s ->
  returns (analyse_note c P) = true ->
  (id_counter s + 9 < List.length ids)%nat ->
  lands (fun s' => tracked c (sign_after sg (mkSymbol "li" P))
                     (line_after humdrum ln (mkSymbol "li" P)) s' /\
                   (id_counter s' <= id_counter s + 9)%nat)
    (process_symbol ids isodate humdrum stafflist metadata ix_staff ix_symbol
       (mkSymbol "li" P) s).
Proof.
  intros (Hclef & Hkey & Hlig & _) (Hic & Hcl & Hsg & Hln & Hne & Hls) Hret Hids.
  rewrite (process_symbol_dispatch ids isodate stafflist metadata humdrum ix_staff
             ix_symbol (mkSymbol "li" P) s Hclef Hkey) by (cbn; discriminate).
  destruct (analyse_note c P) as [[o p]|] eqn:Hn; [|discriminate Hret].
  unfold mens_block, dot_block, rest_block, note_block.
  cbn [s_type s_pitch]. eval_tests. st_norm. rewrite Hcl, Hn. st_norm.
  destruct (sub_element_ok ids "note" "note" [] s) as [i1 ->]; [lia|]. st_norm.
  rewrite !edit_last_snoc.
  assert (Hlh : humdrum = true -> ligature s = true ->
                exists lh, line_humdrum s = Some lh).
  { intros Hh Hl. destruct (Hlig Hl) as [_ H']. specialize (H' Hh).
    destruct (line_humdrum s) as [lh|]; [exists lh; reflexivity | congruence]. }
  destruct humdrum; destruct (ligature s) eqn:Hl; cbn [andb negb]; st_norm;
    eval_tests; st_norm;
    try (destruct (Hlh eq_refl eq_refl) as [lh Elh]; rewrite Elh; st_norm);
    match goal with
    | |- context [sub_element ids ?t ?pf ?k ?st] =>
        destruct (sub_element_ok ids t pf k st) as [i2 ->]; [st_norm; lia|]
    end;
    st_norm; rewrite rev_snoc2; st_norm; tr_finish Hic Hcl Hsg Hln Hne Hls.
Qed.

(** The other notes, in a ligature or not. *)
Lemma note_lands (humdrum : bool) (ix_staff ix_symbol : nat) (K P : string)
    (s : state) (sg ln : bool) :
  loop_inv humdrum s -> tracked c sg ln s ->
  In K (map fst NOTES_MEI) -> K <> "li" ->
  returns (analyse_note c P) = true ->
  (id_counter s + 9 < List.length ids)%nat ->
  lands (fun s' => tracked c (sign_after sg (mkSymbol K P))
                     (line_after humdrum ln (mkSymbol K P)) s' /\
                   (id_counter s' <= id_counter s + 9)%nat)
    (process_symbol ids isodate humdrum stafflist metadata ix_staff ix_symbol
       (mkSymbol K P) s).
Proof.
  intros (Hclef & Hkey & Hlig & _) (Hic & Hcl & Hsg & Hln & Hne & Hls) HK Hnli
    Hret Hids.
  rewrite (process_symbol_dispatch ids isodate stafflist metadata humdrum ix_staff
             ix_symbol (mkSymbol K P) s Hclef Hkey);
    try (cbn [s_type] in *; intros ->; cbn in HK; intuition discriminate).
  destruct (analyse_note c P) as [[o p]|] eqn:Hn; [|discriminate Hret].
  destruct (next_id_cases ids s) as [(i & Hi & _) | (Hlen & _)]; [|lia].
  assert (Hlh : humdrum = true -> ligature s = true ->
                exists lh, line_humdrum s = Some lh).
  { intros Hh Hl. destruct (Hlig Hl) as [_ H']. specialize (H' Hh).
    destruct (line_humdrum s) as [lh|]; [exists lh; reflexivity | congruence]. }
  assert (Hxl : ligature s = true -> exists lig, xml_lig s = Some lig).
  { intros Hl. destruct (Hlig Hl) as [H' _].
    destruct (xml_lig s) as [lig|]; [exists lig; reflexivity | congruence]. }
  cbn in HK.
  repeat (destruct HK as [<- | HK];
    [try (exfalso; apply Hnli; reflexivity)|]); try contradiction.
  all: clear Hnli.
  all: unfold mens_block, dot_block, rest_block, note_block, bar_block,
         custos_block, emit_line, sub_element;
    cbn [s_type s_pitch]; eval_tests; st_norm; rewrite Hcl, Hn; st_norm;
    rewrite next_id_eq; st_norm; rewrite Hi; st_norm.
  all: destruct humdrum; destruct (ligature s) eqn:Hl;
    destruct (sharp_found s) eqn:Hsh; destruct (flat_found s) eqn:Hfl;
    try (destruct (Hlh eq_refl eq_refl) as [lh Elh]);
    try (destruct (Hxl eq_refl) as [lig Exl]);
    repeat (st_norm; eval_tests; cbn [andb negb orb];
            first [ progress rewrite ?Hl, ?Hsh, ?Hfl, ?edit_last_snoc, ?rev_unit
                  | progress rewrite ?Elh
                  | progress rewrite ?Exl
                  | progress unfold edit_note, move_note_to_ligature
                  | match goal with
                    | |- context [(fst ?l =? ?d)%nat] => destruct (fst l =? d)%nat
                    end ]).
  all: st_norm;
    try match goal with
        | |- context [contains ?a ?b] => destruct (contains a b)
        end;
    tr_finish Hic Hcl Hsg Hln Hne Hls.
Qed.

Lemma lands_mono (P Q : state -> Prop) (f : flow) :
  (forall s', P s' -> Q s') -> lands P f -> lands Q f.
Proof. intros H. destruct f; cbn [lands]; auto. Qed.

Lemma flags_same (humdrum : bool) (sg ln : bool) (sym : symbol) :
  (s_type sym =? "mens") = false ->
  has_key (s_type sym) RESTS_MEI = false ->
  has_key (s_type sym) NOTES_MEI = false ->
  sign_after sg sym = sg /\ line_after humdrum ln sym = ln.
Proof.
  intros H1 H2 H3. unfold sign_after, line_after, is_sign.
  rewrite H1, H2, H3. cbn [andb orb].
  rewrite Bool.andb_false_r, !Bool.orb_false_r. split; reflexivity.
Qed.

(** One iteration of the symbol loop on a symbol the converter reads. *)
Lemma process_symbol_lands (humdrum : bool) (ix_staff ix_symbol : nat)
    (sym : symbol) (s : state) (sg ln : bool) :
  loop_inv humdrum s -> tracked c sg ln s ->
  reads humdrum c sg ln sym = true ->
  note_ok c sym = true ->
  (forall sy, custos_target stafflist ix_staff = Some sy ->
              returns (analyse_note c (s_pitch sy)) = true) ->
  List.length metadata = List.length stafflist ->
  (ix_staff < List.length stafflist)%nat ->
  (id_counter s + 9 < List.length ids)%nat ->
  lands (fun s' => loop_inv humdrum s' /\
                   tracked c (sign_after sg sym) (line_after humdrum ln sym) s' /\
                   (id_counter s' <= id_counter s + 9)%nat)
    (process_symbol ids isodate humdrum stafflist metadata ix_staff ix_symbol sym s).
Proof.
  intros Hinv Htr Hr Hnote Htarget Hmeta Hix Hids.
  assert (G : lands (fun s' => tracked c (sign_after sg sym)
                                 (line_after humdrum ln sym) s' /\
                               (id_counter s' <= id_counter s + 9)%nat)
                (process_symbol ids isodate humdrum stafflist metadata ix_staff
                   ix_symbol sym s)).
  { destruct (symbol_eqb sym c) eqn:Eq.
    { assert (Ht : s_type sym = "clef").
      { unfold symbol_eqb in Eq. apply Bool.andb_true_iff in Eq.
        destruct Eq as [Eq _]. apply String.eqb_eq in Eq. rewrite Eq. exact Hct. }
      destruct (flags_same humdrum sg ln sym) as [-> ->];
        try (rewrite Ht; reflexivity).
      apply skipped_lands; [exact Htr | left; exact Eq]. }
    destruct sym as [t p].
    destruct (in_dec string_dec t DISPATCHED_TYPES) as [Hin | Hout].
    - unfold DISPATCHED_TYPES in Hin. cbn in Hin.
      repeat (destruct Hin as [<- | Hin]); try contradiction.
      + destruct (flags_same humdrum sg ln (mkSymbol "flat" p)) as [-> ->];
          try reflexivity.
        apply skipped_lands; [exact Htr | right; left; reflexivity].
      + destruct (flags_same humdrum sg ln (mkSymbol "sharp" p)) as [-> ->];
          try reflexivity.
        apply skipped_lands; [exact Htr | right; right; reflexivity].
      + apply mens_lands; assumption.
      + apply dot_lands; assumption.
      + apply bar_lands; assumption.
      + apply custos_lands; try assumption.
        revert Hr. unfold reads. cbn [s_type s_pitch]. rewrite Eq. eval_tests.
        cbn [in_list existsb orb]. eval_tests. exact (fun H => H).
      + apply rest_lands; [assumption | assumption | cbn; tauto | assumption].
      + apply rest_lands; [assumption | assumption | cbn; tauto | assumption].
      + apply rest_lands; [assumption | assumption | cbn; tauto | assumption].
      + apply rest_lands; [assumption | assumption | cbn; tauto | assumption].
      + apply rest_lands; [assumption | assumption | cbn; tauto | assumption].
      + apply rest_lands; [assumption | assumption | cbn; tauto | assumption].
      + apply rest_lands; [assumption | assumption | cbn; tauto | assumption].
      + apply note_lands; [assumption | assumption | cbn; tauto | discriminate
                          | exact Hnote | assumption].
      + apply note_lands; [assumption | assumption | cbn; tauto | discriminate
                          | exact Hnote | assumption].
      + apply note_lands; [assumption | assumption | cbn; tauto | discriminate
                          | exact Hnote | assumption].
      + apply note_lands; [assumption | assumption | cbn; tauto | discriminate
                          | exact Hnote | assumption].
      + apply note_lands; [assumption | assumption | cbn; tauto | discriminate
                          | exact Hnote | assumption].
      + apply note_lands; [assumption | assumption | cbn; tauto | discriminate
                          | exact Hnote | assumption].
      + apply note_lands; [assumption | assumption | cbn; tauto | discriminate
                          | exact Hnote | assumption].
      + apply note_lands; [assumption | assumption | cbn; tauto | discriminate
                          | exact Hnote | assumption].
      + apply note_lands; [assumption | assumption | cbn; tauto | discriminate
                          | exact Hnote | assumption].
      + apply note_lands; [assumption | assumption | cbn; tauto | discriminate
                          | exact Hnote | assumption].
      + apply li_lands; [assumption | assumption | exact Hnote | assumption].
    - apply unknown_lands; try assumption.
      assert (Hk : forall k, In k DISPATCHED_TYPES -> (t =? k) = false).
      { intros k. apply not_in_code, Hout. }
      revert Hr. unfold reads. cbn [s_type s_pitch]. rewrite Eq.
      rewrite (Hk "mens") by (vm_compute; tauto).
      unfold in_list. cbn [existsb].
      rewrite !Hk by (vm_compute; tauto).
      rewrite !has_key_unknown.
      + cbn [orb]. exact (fun H => H).
      + intros H. apply Hout. unfold DISPATCHED_TYPES.
        apply in_app_iff. right. apply in_app_iff. right. exact H.
      + intros H. apply Hout. unfold DISPATCHED_TYPES.
        apply in_app_iff. right. apply in_app_iff. left. exact H. }
  destruct (process_symbol ids isodate humdrum stafflist metadata ix_staff
              ix_symbol sym s) as [s'|s'|e] eqn:E; cbn [lands] in *;
    try contradiction.
  - split; [|exact G].
    exact (process_symbol_loop_inv ids isodate humdrum stafflist metadata ix_staff
             ix_symbol sym s s' Hinv (or_introl E)).
  - split; [|exact G].
    exact (process_symbol_loop_inv ids isodate humdrum stafflist metadata ix_staff
             ix_symbol sym s s' Hinv (or_intror E)).
Qed.

End Returns.
(** ** The loops *)

Section Runs.

Variable ids : list string.
Variable isodate : nat -> string.
Variable stafflist : list staff.
Variable metadata : list string.
Variable c : symbol.
Hypothesis Hct : s_type c = "clef".

(** The symbol loop on the symbols of a staff, followed in the piece by
    the symbols [more]. *)
Lemma run_symbols_lands (humdrum : bool) (ix_staff : nat) (more : list symbol) :
  (forall sy, custos_target stafflist ix_staff = Some sy ->
              returns (analyse_note c (s_pitch sy)) = true) ->
  List.length metadata = List.length stafflist ->
  (ix_staff < List.length stafflist)%nat ->
  forall syms ix_symbol s sg ln,
    loop_inv humdrum s -> tracked c sg ln s ->
    readable humdrum c sg ln (syms ++ more) = true ->
    forallb (note_ok c) syms = true ->
    (id_counter s + 9 * List.length syms < List.length ids)%nat ->
    exists s' sg' ln',
      run_symbols ids isodate humdrum stafflist metadata ix_staff ix_symbol syms s
        = Ok s' /\
      loop_inv humdrum s' /\ tracked c sg' ln' s' /\
      readable humdrum c sg' ln' more = true /\
      (id_counter s' <= id_counter s + 9 * List.length syms)%nat.
Proof.
  intros Htarget Hmeta Hix.
  induction syms as [|sym syms IH]; intros ix s sg ln Hinv Htr Hread Hnotes Hids.
  - exists s, sg, ln. cbn [run_symbols].
    rewrite app_nil_l in Hread.
    refine (conj eq_refl (conj Hinv (conj Htr (conj Hread _)))). lia.
  - cbn [app readable] in Hread. apply Bool.andb_true_iff in Hread.
    destruct Hread as [Hr Hread].
    cbn [forallb] in Hnotes. apply Bool.andb_true_iff in Hnotes.
    destruct Hnotes as [Hn Hnotes].
    assert (Hlen : List.length (sym :: syms) = S (List.length syms))
      by reflexivity.
    rewrite Hlen in Hids.
    pose proof (process_symbol_lands ids isodate stafflist metadata c Hct humdrum ix_staff ix sym s sg ln Hinv Htr Hr Hn
                  Htarget Hmeta Hix ltac:(lia)) as Hstep.
    cbn [run_symbols].
    destruct (process_symbol ids isodate humdrum stafflist metadata ix_staff ix sym s)
      as [s1|s1|e]; cbn [lands] in Hstep; try contradiction;
      destruct Hstep as (Hinv1 & Htr1 & Hid1);
      destruct (IH (S ix) s1 _ _ Hinv1 Htr1 Hread Hnotes ltac:(lia))
        as (s' & sg' & ln' & Hrun & Hinv' & Htr' & Hread' & Hid');
      exists s', sg', ln'; rewrite Hlen;
      (split; [exact Hrun|]); (split; [exact Hinv'|]); (split; [exact Htr'|]);
      (split; [exact Hread' | lia]).
Qed.

Lemma symbol_eqb_eq (a b : symbol) : symbol_eqb a b = true -> a = b.
Proof.
  unfold symbol_eqb. intros H. apply Bool.andb_true_iff in H.
  destruct H as [Ht Hp]. apply String.eqb_eq in Ht. apply String.eqb_eq in Hp.
  destruct a as [ta pa], b as [tb pb]. cbn [s_type s_pitch] in Ht, Hp.
  rewrite Ht, Hp. reflexivity.
Qed.

Lemma headed_inv (st : staff) :
  headed c st = true -> exists s1 rest, st = c :: s1 :: rest.
Proof.
  destruct st as [|s0 [|s1 rest]]; cbn [headed]; try discriminate.
  intros H. apply symbol_eqb_eq in H. subst s0. exists s1, rest. reflexivity.
Qed.

Lemma nth_error_some {A : Type} (l : list A) (n : nat) :
  (n < List.length l)%nat -> exists a, nth_error l n = Some a.
Proof.
  intros H. destruct (nth_error l n) as [a|] eqn:E.
  - exists a. reflexivity.
  - apply nth_error_None in E. lia.
Qed.

(** The clef block on a staff that begins with the clef [c]. *)
Lemma resolve_clef_lands (humdrum : bool) (st : staff) (s : state) (sg ln : bool) :
  first_staff s = true ->
  headed c st = true ->
  returns (analyse_clef c) = true ->
  (sg = true -> mensur s <> None) ->
  (ln = true -> humdrum_line s <> None) ->
  (forall l, humdrum_line s = Some l -> l <> "") ->
  lines_ok (humdrum_string s) ->
  (id_counter s + 2 < List.length ids)%nat ->
  returns_in (fun s' => tracked c sg ln s' /\
                        (id_counter s' <= id_counter s + 2)%nat)
    (resolve_clef ids humdrum stafflist st s).
Proof.
  intros Hfs Hhead Hclef Hsg Hln Hne Hls Hids.
  destruct (headed_inv st Hhead) as (s1 & rest & ->).
  destruct (analyse_clef c) as [[shape line]|e] eqn:Ec; [|discriminate Hclef].
  pose proof (clef_line_of_shape c shape line Ec) as Hsigil.
  destruct (nth_error_some ids (S (id_counter s))) as [i1 Hi1]; [lia|].
  destruct (nth_error_some ids (S (S (id_counter s)))) as [i2 Hi2]; [lia|].
  unfold resolve_clef. rewrite Hfs.
  change (item (c :: s1 :: rest) 0) with (Ok c).
  change (item (c :: s1 :: rest) 1) with (Ok s1).
  st_norm. rewrite Hct. eval_tests. st_norm. rewrite Ec. st_norm.
  rewrite next_id_eq. st_norm. rewrite Hi1. st_norm.
  destruct humdrum; st_norm; rewrite ?Hsigil; st_norm;
    destruct (s_type s1 =? "flat"); st_norm;
    rewrite ?next_id_eq; st_norm; rewrite ?Hi2; st_norm;
    cbn [returns_in]; unfold tracked, append_lines; st_norm;
    (split; [|lia]);
    (split; [reflexivity|]); (split; [reflexivity|]);
    (split; [exact Hsg|]); (split; [exact Hln|]); (split; [exact Hne|]);
    rewrite <- ?app_assoc; cbn [app];
    first [ exact Hls
          | apply lines_ok_app;
            [exact Hls | repeat (apply Forall_cons; [line_solve|]); apply Forall_nil] ].
Qed.

Lemma tracked_staff_start (sg ln : bool) (s : state) :
  tracked c sg ln s ->
  tracked c sg ln (set_ligature false (set_flat_found false (set_sharp_found false s))).
Proof. unfold tracked. st_norm. exact (fun H => H). Qed.

(** The start of a staff after the first. *)
Lemma begin_staff_lands (humdrum : bool) (ix_staff : nat) (st : staff) (s : state)
    (sg ln : bool) :
  ix_staff <> 0%nat ->
  loop_inv humdrum s -> tracked c sg ln s ->
  headed c st = true ->
  returns (analyse_clef c) = true ->
  (id_counter s + 2 < List.length ids)%nat ->
  exists s',
    begin_staff ids isodate humdrum stafflist metadata ix_staff st s = Ok s' /\
    loop_inv humdrum s' /\ tracked c sg ln s' /\
    (id_counter s' <= id_counter s + 2)%nat.
Proof.
  intros Hix Hinv Htr Hhead Hclef Hids.
  assert (G : exists s',
             begin_staff ids isodate humdrum stafflist metadata ix_staff st s = Ok s' /\
             tracked c sg ln s' /\ (id_counter s' <= id_counter s + 2)%nat).
  { destruct Htr as (Hic & Hcl & Hsg & Hln & Hne & Hls).
    unfold begin_staff. destruct ix_staff as [|ix]; [contradiction|].
    cbn [Nat.eqb]. st_norm.
    destruct (first_staff s) eqn:Hfs.
    - pose proof (resolve_clef_lands humdrum st (set_saved (Some false) s) sg ln
                    Hfs Hhead Hclef Hsg Hln Hne Hls Hids) as R.
      destruct (resolve_clef ids humdrum stafflist st (set_saved (Some false) s))
        as [s1|e]; [|contradiction].
      cbn [returns_in] in R. destruct R as [Htr1 Hid1]. st_norm.
      eexists. split; [reflexivity|]. split.
      + apply tracked_staff_start, Htr1.
      + st_norm. exact Hid1.
    - unfold resolve_clef. st_norm. rewrite Hfs. st_norm.
      eexists. split; [reflexivity|]. split.
      + unfold tracked. st_norm.
        exact (conj Hic (conj Hcl (conj Hsg (conj Hln (conj Hne Hls))))).
      + st_norm. lia. }
  destruct G as (s' & Hb & Htr' & Hid).
  exists s'. split; [exact Hb|]. split; [|split; assumption].
  exact (begin_staff_loop_inv ids isodate humdrum stafflist metadata ix_staff st s s'
           Hinv Hb).
Qed.

(** The start of the first staff. *)
Lemma first_staff_lands (humdrum : bool) (st : staff) :
  (0 < List.length metadata)%nat ->
  headed c st = true ->
  returns (analyse_clef c) = true ->
  (10 < List.length ids)%nat ->
  exists s',
    begin_staff ids isodate humdrum stafflist metadata 0 st initial_state = Ok s' /\
    loop_inv humdrum s' /\ tracked c false false s' /\ (id_counter s' <= 10)%nat.
Proof.
  intros Hmeta Hhead Hclef Hids.
  assert (G : exists s',
             begin_staff ids isodate humdrum stafflist metadata 0 st initial_state
               = Ok s' /\
             tracked c false false s' /\ (id_counter s' <= 10)%nat).
  { destruct (metadata_get_ok metadata 0 Hmeta) as [fn Hfn].
    rewrite (begin_first_staff_eq ids isodate humdrum stafflist metadata st fn Hfn).
    destruct (create_mei_declarations_ok ids (create_meihead (isodate 1))
                (set_saved (Some false) initial_state)) as (d & -> & _);
      [cbn; lia|].
    match goal with
    | |- context [resolve_clef ids humdrum stafflist st ?x] =>
        assert (R : returns_in (fun s' => tracked c false false s' /\
                                          (id_counter s' <= id_counter x + 2)%nat)
                      (resolve_clef ids humdrum stafflist st x));
        [ apply resolve_clef_lands;
          [ reflexivity | exact Hhead | exact Hclef | discriminate | discriminate
          | intros l Hl; discriminate Hl
          | split; [discriminate | repeat constructor; discriminate]
          | cbn; lia ]
        | destruct (resolve_clef ids humdrum stafflist st x) as [s1|e];
          [|contradiction] ]
    end.
    cbn [returns_in] in R. destruct R as [Htr1 Hid1]. cbn [bind].
    eexists. split; [reflexivity|]. split.
    - apply tracked_staff_start, Htr1.
    - st_norm. cbn in Hid1. exact Hid1. }
  destruct G as (s' & Hb & Htr' & Hid).
  exists s'. split; [exact Hb|]. split; [|split; assumption].
  exact (begin_first_staff ids isodate humdrum stafflist metadata st s' Hb).
Qed.

(** The end of a staff. *)
Lemma end_of_staff_lands (humdrum : bool) (ix_staff : nat) (s : state) (sg ln : bool) :
  loop_inv humdrum s -> tracked c sg ln s ->
  (id_counter s + 1 < List.length ids)%nat ->
  exists s',
    end_of_staff ids stafflist ix_staff s = Ok s' /\
    loop_inv humdrum s' /\ tracked c sg ln s' /\
    (id_counter s' <= id_counter s + 1)%nat.
Proof.
  intros Hinv Htr Hids.
  assert (G : exists s',
             end_of_staff ids stafflist ix_staff s = Ok s' /\
             tracked c sg ln s' /\ (id_counter s' <= id_counter s + 1)%nat).
  { destruct Hinv as (_ & _ & _ & _ & Hsaved).
    unfold end_of_staff.
    destruct (saved s) as [sv|]; [|contradiction]. st_norm.
    destruct (negb sv && not_last_staff stafflist ix_staff).
    - destruct (sub_element_ok ids "barLine" "barline" [("visible", "false")] s)
        as [i ->]; [lia|].
      eexists. split; [reflexivity|]. split.
      + unfold tracked in *. st_norm. exact Htr.
      + st_norm. lia.
    - exists s. split; [reflexivity|]. split; [exact Htr | lia]. }
  destruct G as (s' & He & Htr' & Hid).
  exists s'. split; [exact He|]. split; [|split; assumption].
  exact (end_of_staff_loop_inv ids humdrum stafflist ix_staff s s' Hinv He).
Qed.

(** The note a custos takes its pitch from is a note of the piece. *)
Lemma custos_target_in (ix_staff : nat) (sy : symbol) :
  custos_target stafflist ix_staff = Some sy ->
  In sy (concat stafflist) /\ has_key (s_type sy) NOTES_MEI = true.
Proof.
  unfold custos_target.
  destruct (Z.of_nat ix_staff <? Z.of_nat (List.length stafflist) - 1)%Z;
    [|discriminate].
  destruct (nth_error stafflist (ix_staff + 1)) as [following|] eqn:E;
    [|discriminate].
  intros H. apply find_some in H. destruct H as [Hin Hk]. split; [|exact Hk].
  apply in_concat. exists following. split; [|exact Hin].
  apply nth_error_In with (n := (ix_staff + 1)%nat). exact E.
Qed.

Lemma custos_target_ok (ix_staff : nat) (sy : symbol) :
  forallb (note_ok c) (concat stafflist) = true ->
  custos_target stafflist ix_staff = Some sy ->
  returns (analyse_note c (s_pitch sy)) = true.
Proof.
  intros Hall H. destruct (custos_target_in ix_staff sy H) as [Hin Hk].
  rewrite forallb_forall in Hall. specialize (Hall sy Hin).
  unfold note_ok in Hall. rewrite Hk in Hall. exact Hall.
Qed.

Hypothesis Hclef : returns (analyse_clef c) = true.
Hypothesis Hmeta : List.length metadata = List.length stafflist.
Hypothesis Hall : forallb (note_ok c) (concat stafflist) = true.

(** The symbol loop and the end of a staff. *)
Lemma staff_body_lands (humdrum : bool) (ix_staff : nat) (st more : list symbol)
    (s : state) (sg ln : bool) :
  (ix_staff < List.length stafflist)%nat ->
  loop_inv humdrum s -> tracked c sg ln s ->
  readable humdrum c sg ln (st ++ more) = true ->
  forallb (note_ok c) st = true ->
  (id_counter s + 9 * List.length st + 1 < List.length ids)%nat ->
  exists s' sg' ln',
    (s1 <- run_symbols ids isodate humdrum stafflist metadata ix_staff 0 st s ;;
     end_of_staff ids stafflist ix_staff s1) = Ok s' /\
    loop_inv humdrum s' /\ tracked c sg' ln' s' /\
    readable humdrum c sg' ln' more = true /\
    (id_counter s' <= id_counter s + 9 * List.length st + 1)%nat.
Proof.
  intros Hix Hinv Htr Hread Hnotes Hids.
  destruct (run_symbols_lands humdrum ix_staff more
              (fun sy => custos_target_ok ix_staff sy Hall) Hmeta Hix
              st 0%nat s sg ln Hinv Htr Hread Hnotes)
    as (s1 & sg' & ln' & Hrun & Hinv1 & Htr1 & Hread1 & Hid1); [lia|].
  destruct (end_of_staff_lands humdrum ix_staff s1 sg' ln' Hinv1 Htr1)
    as (s' & He & Hinv' & Htr' & Hid'); [lia|].
  exists s', sg', ln'. rewrite Hrun. cbn [bind].
  refine (conj He (conj Hinv' (conj Htr' (conj Hread1 _)))). lia.
Qed.

(** The staves after the first. *)
Lemma run_staves_lands (humdrum : bool) :
  forall staves ix_staff s sg ln,
    ix_staff <> 0%nat ->
    (ix_staff + List.length staves = List.length stafflist)%nat ->
    loop_inv humdrum s -> tracked c sg ln s ->
    forallb (headed c) staves = true ->
    forallb (note_ok c) (concat staves) = true ->
    readable humdrum c sg ln (concat staves) = true ->
    (id_counter s + 3 * List.length staves + 9 * List.length (concat staves)
     < List.length ids)%nat ->
    exists s',
      run_staves ids isodate humdrum stafflist metadata ix_staff staves s = Ok s' /\
      loop_inv humdrum s' /\
      (id_counter s' <= id_counter s + 3 * List.length staves
                        + 9 * List.length (concat staves))%nat.
Proof.
  induction staves as [|st rest IH];
    intros ix s sg ln Hne Hlen Hinv Htr Hheads Hnotes Hread Hids.
  - exists s. cbn [run_staves]. refine (conj eq_refl (conj Hinv _)). lia.
  - cbn [forallb] in Hheads. apply Bool.andb_true_iff in Hheads.
    destruct Hheads as [Hhead Hheads].
    cbn [concat] in Hnotes, Hread, Hids |- *.
    rewrite forallb_app in Hnotes. apply Bool.andb_true_iff in Hnotes.
    destruct Hnotes as [Hn Hnotes].
    assert (Hl1 : List.length (st :: rest) = S (List.length rest)) by reflexivity.
    rewrite Hl1 in Hlen, Hids. rewrite Hl1. rewrite length_app in Hids.
    rewrite length_app.
    destruct (begin_staff_lands humdrum ix st s sg ln Hne Hinv Htr Hhead Hclef)
      as (s1 & Hb & Hinv1 & Htr1 & Hid1); [lia|].
    destruct (staff_body_lands humdrum ix st (concat rest) s1 sg ln)
      as (s2 & sg' & ln' & Hbody & Hinv2 & Htr2 & Hread2 & Hid2);
      [lia | exact Hinv1 | exact Htr1 | exact Hread | exact Hn | lia |].
    destruct (IH (S ix) s2 sg' ln') as (s' & Hrest & Hinv' & Hid');
      [lia | lia | exact Hinv2 | exact Htr2 | exact Hheads | exact Hnotes
      | exact Hread2 | lia |].
    exists s'. cbn [run_staves]. unfold run_staff. rewrite Hb. cbn [bind].
    destruct (run_symbols ids isodate humdrum stafflist metadata ix 0 st s1)
      as [s1'|e]; [|discriminate Hbody].
    cbn [bind] in Hbody |- *. rewrite Hbody. cbn [bind].
    refine (conj Hrest (conj Hinv' _)). lia.
Qed.

(** The whole staff loop of a piece that begins with the staff [st0]. *)
Lemma staff_loop_lands (humdrum : bool) (st0 : staff) (rest : list staff) :
  stafflist = st0 :: rest ->
  forallb (headed c) stafflist = true ->
  readable humdrum c false false (concat stafflist) = true ->
  (id_budget stafflist < List.length ids)%nat ->
  exists s',
    run_staves ids isodate humdrum stafflist metadata 0 (st0 :: rest) initial_state
      = Ok s' /\
    loop_inv humdrum s' /\ (id_counter s' <= id_budget stafflist)%nat.
Proof.
  intros E Hheads Hread Hids.
  pose proof Hall as Hnotes.
  unfold id_budget, count_elements in *.
  assert (Hix : (0 < List.length stafflist)%nat) by (rewrite E; cbn; lia).
  assert (Hlen : (1 + List.length rest = List.length stafflist)%nat)
    by (rewrite E; reflexivity).
  assert (Hl1 : List.length stafflist = S (List.length rest))
    by (rewrite E; reflexivity).
  assert (Hl2 : List.length (concat stafflist)
                = (List.length st0 + List.length (concat rest))%nat)
    by (rewrite E; cbn [concat]; apply length_app).
  rewrite Hl1, Hl2 in Hids. rewrite Hl1, Hl2.
  rewrite E in Hheads, Hread, Hnotes.
  cbn [forallb] in Hheads. apply Bool.andb_true_iff in Hheads.
  destruct Hheads as [Hhead Hheads].
  cbn [concat] in Hnotes, Hread.
  rewrite forallb_app in Hnotes. apply Bool.andb_true_iff in Hnotes.
  destruct Hnotes as [Hn Hnotes].
  destruct (first_staff_lands humdrum st0) as (s1 & Hb & Hinv1 & Htr1 & Hid1);
    [lia | exact Hhead | exact Hclef | lia |].
  destruct (staff_body_lands humdrum 0 st0 (concat rest) s1 false false)
    as (s2 & sg' & ln' & Hbody & Hinv2 & Htr2 & Hread2 & Hid2);
    [exact Hix | exact Hinv1 | exact Htr1 | exact Hread | exact Hn | lia |].
  destruct (run_staves_lands humdrum rest 1 s2 sg' ln')
    as (s' & Hrest & Hinv' & Hid');
    [discriminate | exact Hlen | exact Hinv2 | exact Htr2 | exact Hheads
    | exact Hnotes | exact Hread2 | lia |].
  exists s'. cbn [run_staves]. unfold run_staff. rewrite Hb. cbn [bind].
  destruct (run_symbols ids isodate humdrum stafflist metadata 0 0 st0 s1)
    as [s1'|e]; [|discriminate Hbody].
  cbn [bind] in Hbody |- *. rewrite Hbody. cbn [bind].
  refine (conj Hrest (conj Hinv' _)). lia.
Qed.

(** The staff loop and the final save. *)
Lemma run_lands (humdrum : bool) :
  stafflist <> [] ->
  forallb (headed c) stafflist = true ->
  readable humdrum c false false (concat stafflist) = true ->
  (id_budget stafflist < List.length ids)%nat ->
  exists final,
    run ids isodate humdrum stafflist metadata initial_state = Ok final /\
    (id_counter final <= id_budget stafflist)%nat.
Proof.
  intros Hne Hheads Hread Hids.
  assert (E : exists st0 rest, stafflist = st0 :: rest).
  { destruct stafflist as [|st0 rest]; [contradiction|].
    exists st0, rest. reflexivity. }
  destruct E as (st0 & rest & E).
  destruct (staff_loop_lands humdrum st0 rest E Hheads Hread Hids)
    as (s' & Hloop & Hinv & Hid).
  rewrite <- E in Hloop.
  unfold run. rewrite Hloop. cbn [bind].
  destruct Hinv as (_ & _ & _ & _ & Hsaved).
  destruct (saved s') as [sv|]; [|contradiction]. cbn [local bind].
  destruct sv; cbn [negb].
  - exists s'. split; [reflexivity | exact Hid].
  - destruct (save_ok humdrum stafflist metadata (List.length stafflist - 1) s' Hmeta)
      as (fn & fc & used & name & ->).
    + rewrite E. cbn [List.length]. lia.
    + eexists. split; [reflexivity|]. st_norm. exact Hid.
Qed.

End Runs.

(** A piece all of whose staves begin with one and the same known clef
    and have a second symbol, whose notes all resolve under that clef, whose
    mensuration signs are known (the proportion following a sign) and, with
    the flat encoding on, whose custodes and unknown symbols follow a symbol
    that produced a line, is converted to the end: the run returns, having
    taken at most eight identifiers for the first document, three for each
    staff and nine for each symbol. *)
Theorem well_formed_returns (ids : list string) (isodate : nat -> string)
    (d : list (string * list staff)) (humdrum : bool) (c : symbol) :
  well_formed humdrum c (fst (convert_to_combined_list_with_metadata d)) = true ->
  (id_budget (fst (convert_to_combined_list_with_metadata d)) < List.length ids)%nat ->
  exists final,
    convert_to_mei_and_humdrum ids isodate d humdrum = Ok final /\
    (id_counter final
     <= id_budget (fst (convert_to_combined_list_with_metadata d)))%nat.
Proof.
  intros Hwf Hids.
  pose proof (combined_lengths d) as Hmeta.
  unfold convert_to_mei_and_humdrum.
  destruct (convert_to_combined_list_with_metadata d) as [stafflist metadata].
  cbn [fst snd] in *.
  unfold well_formed in Hwf.
  repeat (apply Bool.andb_true_iff in Hwf; destruct Hwf as [Hwf ?]).
  apply String.eqb_eq in Hwf.
  apply run_lands with (c := c); try assumption.
  intros ->. discriminate.
Qed.

Lemma well_formed_returns_witness :
  exists final,
    convert_to_mei_and_humdrum counting_pool fixed_clock open_ended_piece true
      = Ok final /\
    (id_counter final
     <= id_budget (fst (convert_to_combined_list_with_metadata
                          open_ended_piece)))%nat.
Proof.
  apply (well_formed_returns counting_pool fixed_clock open_ended_piece true
           (Clef "c-c-g")).
  - vm_compute. reflexivity.
  - vm_compute. lia.
Defined.
(** * The key from its resolution to the next Barline *)

Section Keyed.

Variable ids : list string.
Variable isodate : nat -> string.
Variable humdrum : bool.
Variable stafflist : list staff.
Variable metadata : list string.









(** ** The key is kept up to the next Barline *)














End Keyed.



(** * Identifiers of the written documents *)




























Section Identifiers.

Variable ids : list string.
Variable isodate : nat -> string.
Variable stafflist : list staff.
Variable metadata : list string.

































End Identifiers.






